(** * 1cbyc-state-management: the state container and its persistence adapter

    A shallow embedding of [src/stateManager.js] and
    [src/persistenceMiddleware.js].

    JavaScript values live in a heap of objects, so that the aliasing created
    by the shallow copies [{ ...x }] is visible; the deep copy
    [JSON.parse(JSON.stringify(x))] reads a value back as a JSON tree and
    allocates that tree afresh.  Methods are computations in a state and
    exception monad over the instance, the heap and the host (timers, key/value
    storage, file system, diagnostics).

    What the model covers.  Values are undefined, null, booleans, integers,
    strings and plain objects; arrays, functions as property values and
    non-integer numbers are left out.  The order of the properties of an
    object is their insertion order.  An async method runs to completion when
    it is awaited: calls do not interleave.  The functions handed in
    (middleware, listeners, event callbacks, the error handler) are observers:
    a call returns or throws, depending on its arguments and the heap, and
    neither calls back into the container nor writes to the heap. *)

From Stdlib Require Import ZArith Lia Ascii.
From stdpp Require Import base option list strings gmap pretty.

Local Open Scope string_scope.
Local Open Scope list_scope.
#[local] Set Warnings "-register-all".

(** ** JavaScript values, objects and the heap *)

Module JS.

Abbreviation loc := nat (only parsing).

(** Primitive values and references to heap objects.  Numbers are integers. *)
Inductive val :=
  | VUndef
  | VNull
  | VBool (b : bool)
  | VNum (n : Z)
  | VStr (s : string)
  | VRef (l : loc).

(** A plain object: its own enumerable properties in insertion order. *)
Abbreviation obj := (list (string * val)) (only parsing).

(** The heap is an arena: allocation appends, nothing is ever freed. *)
Abbreviation heap := (list (list (string * val))) (only parsing).

(** What [throw] carries. *)
Inductive err :=
  | TypeError (msg : string)
  | SyntaxError (msg : string)
  | Error (msg : string).

(** JSON data, the image of [JSON.stringify]. *)
Inductive json :=
  | JNull
  | JBool (b : bool)
  | JNum (n : Z)
  | JStr (s : string)
  | JObj (props : list (string * json)).

#[global] Instance val_eq_dec : EqDecision val.
Proof. solve_decision. Defined.

#[global] Instance err_eq_dec : EqDecision err.
Proof. solve_decision. Defined.

(** [if (v)]: the falsy values are undefined, null, false, 0 and the empty
    string. *)
Definition truthy (v : val) : bool :=
  match v with
  | VUndef | VNull => false
  | VBool b => b
  | VNum n => negb (n =? 0)%Z
  | VStr s => negb (String.eqb s "")
  | VRef _ => true
  end.

(** [o[k]] on own properties. *)
Fixpoint get_own (o : obj) (k : string) : option val :=
  match o with
  | [] => None
  | (k', v) :: o' => if String.eqb k' k then Some v else get_own o' k
  end.

(** [o[k] = v]: an existing key keeps its position, a new key goes last. *)
Fixpoint assign (o : obj) (kv : string * val) : obj :=
  match o with
  | [] => [kv]
  | (k', v') :: o' =>
      if String.eqb k' kv.1 then (k', kv.2) :: o' else (k', v') :: assign o' kv
  end.

(** The properties that a spread [...s] of a string contributes: one
    single-character string per index. *)
Fixpoint string_props (i : nat) (s : string) : obj :=
  match s with
  | EmptyString => []
  | String c s' => (pretty i, VStr (String c EmptyString)) :: string_props (S i) s'
  end.

(** Own enumerable properties of a value, as the spread operator and
    [Object.assign] read them: those of the object for a reference, the
    characters for a string, none for the other primitives. *)
Definition props_of (h : heap) (v : val) : obj :=
  match v with
  | VRef l => default [] (h !! l)
  | VStr s => string_props 0 s
  | _ => []
  end.

(** [{ ...a }] copies the properties of [a] into a new object;
    [{ ...a, ...b }] then assigns those of [b] over them. *)
Definition merge_props (o1 o2 : obj) : obj := foldl assign o1 o2.

Definition alloc_obj (o : obj) (h : heap) : heap * val :=
  (h ++ [o], VRef (length h)).

(** [x.k = v] for a reference [x = VRef l]. *)
Definition set_prop (l : loc) (k : string) (v : val) (h : heap) : heap :=
  alter (fun o => assign o (k, v)) l h.

(** *** [JSON.stringify] as a read-back of the heap

    [view n h v] follows references to depth [n].  Properties whose value is
    undefined are left out, as [JSON.stringify] does.  [None] stands for the
    two ways the built-in gives no text: it returns undefined for an
    undefined value, and it throws on a cyclic structure (which no depth
    exhausts). *)
Fixpoint view_props (f : val -> option json) (o : obj) : option (list (string * json)) :=
  match o with
  | [] => Some []
  | (k, VUndef) :: o' => view_props f o'
  | (k, v) :: o' =>
      match f v, view_props f o' with
      | Some t, Some ts => Some ((k, t) :: ts)
      | _, _ => None
      end
  end.

Fixpoint view (n : nat) (h : heap) (v : val) : option json :=
  match v with
  | VUndef => None
  | VNull => Some JNull
  | VBool b => Some (JBool b)
  | VNum z => Some (JNum z)
  | VStr s => Some (JStr s)
  | VRef l =>
      match n with
      | 0 => None
      | S n' =>
          match h !! l with
          | Some o => JObj <$> view_props (view n' h) o
          | None => None
          end
      end
  end.

(** A chain of nested objects visits each object at most once, so depth
    [S (length h)] reads in full every value that some depth reads (lemma
    [JSON_view_complete] below). *)
Definition JSON_view (h : heap) (v : val) : option json :=
  view (S (length h)) h v.

(** *** [JSON.parse] as allocation of a tree *)
Fixpoint alloc (t : json) (h : heap) : heap * val :=
  match t with
  | JNull => (h, VNull)
  | JBool b => (h, VBool b)
  | JNum z => (h, VNum z)
  | JStr s => (h, VStr s)
  | JObj ps =>
      let '(h1, o) :=
        (fix go (ps : list (string * json)) (h : heap) : heap * obj :=
           match ps with
           | [] => (h, [])
           | (k, t') :: ps' =>
               let '(h1, v) := alloc t' h in
               let '(h2, o) := go ps' h1 in
               (h2, (k, v) :: o)
           end) ps h in
      alloc_obj o h1
  end.

Fixpoint alloc_props (ps : list (string * json)) (h : heap) : heap * obj :=
  match ps with
  | [] => (h, [])
  | (k, t') :: ps' =>
      let '(h1, v) := alloc t' h in
      let '(h2, o) := alloc_props ps' h1 in
      (h2, (k, v) :: o)
  end.

(** Nesting depth of a tree: the fuel that suffices to read it back. *)
Fixpoint depth (t : json) : nat :=
  match t with
  | JObj ps =>
      S ((fix go (ps : list (string * json)) : nat :=
            match ps with
            | [] => 0
            | (_, t') :: ps' => depth t' `max` go ps'
            end) ps)
  | _ => 0
  end.

Fixpoint depth_props (ps : list (string * json)) : nat :=
  match ps with
  | [] => 0
  | (_, t') :: ps' => depth t' `max` depth_props ps'
  end.

(** [JSON.parse(JSON.stringify(v))] on the heap.  The text between the two
    is the tree read back: [JSON.stringify(undefined)] is undefined, which
    [JSON.parse] refuses; a cyclic structure makes [JSON.stringify] throw. *)
Definition JSON_roundtrip (h : heap) (v : val) : heap * val + err :=
  match v with
  | VUndef => inr (SyntaxError "undefined is not valid JSON")
  | _ =>
      match JSON_view h v with
      | Some t => inl (alloc t h)
      | None => inr (TypeError "Converting circular structure to JSON")
      end
  end.

(** The objects of [k] refer to locations from [b] on only. *)
Definition closed_above (b : nat) (k : list (list (string * val))) : Prop :=
  Forall (fun o : list (string * val) => forall key x, (key, VRef x) ∈ o -> b <= x) k.

(** A location reachable from a value through properties. *)
Inductive reach (h : heap) : val -> loc -> Prop :=
  | reach_here l : reach h (VRef l) l
  | reach_step l o k x l' :
      h !! l = Some o -> (k, x) ∈ o -> reach h x l' -> reach h (VRef l) l'.

End JS.

(** ** JSON text

    The text form of [JSON.stringify(value, null, spaces)] and the reader
    [JSON.parse], on the data of [JS.json]: objects, strings, integers,
    booleans and null.  A number literal with a fraction or an exponent is
    outside this data and is refused by the reader. *)

Module JSON.
Import JS.

Definition hex_digit (n : N) : ascii :=
  if (n <? 10)%N then ascii_of_N (48 + n) else ascii_of_N (87 + n).

Definition escape_char (c : ascii) : string :=
  let n := N_of_ascii c in
  if (n =? 34)%N then String (ascii_of_N 92) (String (ascii_of_N 34) "")
  else if (n =? 92)%N then "\\"
  else if (n =? 8)%N then "\b"
  else if (n =? 12)%N then "\f"
  else if (n =? 10)%N then "\n"
  else if (n =? 13)%N then "\r"
  else if (n =? 9)%N then "\t"
  else if (n <? 32)%N then
    "\u00" +:+ String (hex_digit (n / 16)) (String (hex_digit (n mod 16)) "")
  else String c "".

Fixpoint escape (s : string) : string :=
  match s with
  | EmptyString => ""
  | String c s' => escape_char c +:+ escape s'
  end.

Definition quote (s : string) : string :=
  String (ascii_of_N 34) (escape s) +:+ String (ascii_of_N 34) "".

Fixpoint join (sep : string) (parts : list string) : string :=
  match parts with
  | [] => ""
  | [p] => p
  | p :: ps => p +:+ sep +:+ join sep ps
  end.

Definition newline : string := String (ascii_of_N 10) "".

Fixpoint spaces_string (n : nat) : string :=
  match n with
  | 0 => ""
  | S n' => String (ascii_of_N 32) (spaces_string n')
  end.

(** The serializer of the standard: [gap] is the indentation unit, [indent]
    the current indentation. *)
Fixpoint print (gap indent : string) (t : json) : string :=
  match t with
  | JNull => "null"
  | JBool true => "true"
  | JBool false => "false"
  | JNum n => pretty n
  | JStr s => quote s
  | JObj ps =>
      let inner := indent +:+ gap in
      let colon := if String.eqb gap "" then ":" else ": " in
      let parts :=
        (fix go (ps : list (string * json)) : list string :=
           match ps with
           | [] => []
           | (k, t') :: ps' => (quote k +:+ colon +:+ print gap inner t') :: go ps'
           end) ps in
      match parts with
      | [] => "{}"
      | _ =>
          if String.eqb gap "" then "{" +:+ join "," parts +:+ "}"
          else "{" +:+ newline +:+ inner
                   +:+ join ("," +:+ newline +:+ inner) parts
                   +:+ newline +:+ indent +:+ "}"
      end
  end.

(** [JSON.stringify(t, null, spaces)]; the indentation width is capped at ten. *)
Definition stringify (t : json) (spaces : nat) : string :=
  print (spaces_string (spaces `min` 10)) "" t.

(** *** The reader *)

Definition is_ws (c : ascii) : bool :=
  let n := N_of_ascii c in
  ((n =? 32) || (n =? 9) || (n =? 10) || (n =? 13))%N.

Definition is_digit (c : ascii) : bool :=
  let n := N_of_ascii c in ((48 <=? n) && (n <=? 57))%N.

Fixpoint skip_ws (s : string) : string :=
  match s with
  | String c s' => if is_ws c then skip_ws s' else s
  | EmptyString => s
  end.

Definition hex_value (c : ascii) : option N :=
  let n := N_of_ascii c in
  if ((48 <=? n) && (n <=? 57))%N then Some (n - 48)%N
  else if ((97 <=? n) && (n <=? 102))%N then Some (n - 87)%N
  else if ((65 <=? n) && (n <=? 70))%N then Some (n - 55)%N
  else None.

(** The characters of a string literal, after its opening quote.  An escape
    [\uXXXX] is read when it denotes a single byte. *)
Fixpoint parse_chars (s : string) : option (string * string) :=
  match s with
  | EmptyString => None
  | String c s' =>
      if (N_of_ascii c =? 34)%N then Some ("", s')
      else if (N_of_ascii c <? 32)%N then None
      else if (N_of_ascii c =? 92)%N then
        match s' with
        | String e s'' =>
            let simple (c' : N) :=
              match parse_chars s'' with
              | Some (r, rest) => Some (String (ascii_of_N c') r, rest)
              | None => None
              end in
            let n := N_of_ascii e in
            if (n =? 34)%N then simple 34%N
            else if (n =? 92)%N then simple 92%N
            else if (n =? 47)%N then simple 47%N
            else if (n =? 98)%N then simple 8%N
            else if (n =? 102)%N then simple 12%N
            else if (n =? 110)%N then simple 10%N
            else if (n =? 114)%N then simple 13%N
            else if (n =? 116)%N then simple 9%N
            else if (n =? 117)%N then
              match s'' with
              | String h1 (String h2 (String h3 (String h4 s4))) =>
                  match hex_value h1, hex_value h2, hex_value h3, hex_value h4 with
                  | Some 0%N, Some 0%N, Some a, Some b =>
                      match parse_chars s4 with
                      | Some (r, rest) =>
                          Some (String (ascii_of_N (16 * a + b)) r, rest)
                      | None => None
                      end
                  | _, _, _, _ => None
                  end
              | _ => None
              end
            else None
        | EmptyString => None
        end
      else
        match parse_chars s' with
        | Some (r, rest) => Some (String c r, rest)
        | None => None
        end
  end.

Fixpoint parse_digits (acc : Z) (s : string) : Z * string :=
  match s with
  | String c s' =>
      if is_digit c then parse_digits (10 * acc + Z.of_N (N_of_ascii c - 48)) s'
      else (acc, s)
  | EmptyString => (acc, s)
  end.

Definition starts_fraction (s : string) : bool :=
  match s with
  | String c _ =>
      let n := N_of_ascii c in ((n =? 46) || (n =? 101) || (n =? 69))%N
  | EmptyString => false
  end.

(** An integer literal without sign: [0], or a non-zero digit and more
    digits. *)
Definition parse_nat (s : string) : option (Z * string) :=
  match s with
  | String c s' =>
      if (N_of_ascii c =? 48)%N then
        match s' with
        | String d _ => if is_digit d || starts_fraction s' then None else Some (0%Z, s')
        | EmptyString => Some (0%Z, s')
        end
      else if is_digit c then
        let '(n, rest) := parse_digits 0 s in
        if starts_fraction rest then None else Some (n, rest)
      else None
  | EmptyString => None
  end.

Definition expect (lit : string) (s : string) : option string :=
  if String.prefix lit s
  then Some (String.substring (String.length lit) (String.length s - String.length lit) s)
  else None.

(** A later duplicate key replaces the earlier value, in the earlier
    position. *)
Fixpoint put_member (ps : list (string * json)) (k : string) (t : json) : list (string * json) :=
  match ps with
  | [] => [(k, t)]
  | (k', t') :: ps' =>
      if String.eqb k' k then (k', t) :: ps' else (k', t') :: put_member ps' k t
  end.

Fixpoint parse_value (fuel : nat) (s : string) : option (json * string) :=
  match fuel with
  | 0 => None
  | S fuel' =>
      let members :=
        (fix members (n : nat) (acc : list (string * json)) (s : string)
           : option (json * string) :=
           match n with
           | 0 => None
           | S n' =>
               match skip_ws s with
               | String q s1 =>
                   if (N_of_ascii q =? 34)%N then
                     match parse_chars s1 with
                     | Some (k, s2) =>
                         match skip_ws s2 with
                         | String c s3 =>
                             if (N_of_ascii c =? 58)%N then
                               match parse_value fuel' s3 with
                               | Some (t, s4) =>
                                   let acc' := put_member acc k t in
                                   match skip_ws s4 with
                                   | String d s5 =>
                                       if (N_of_ascii d =? 44)%N then members n' acc' s5
                                       else if (N_of_ascii d =? 125)%N then Some (JObj acc', s5)
                                       else None
                                   | EmptyString => None
                                   end
                               | None => None
                               end
                             else None
                         | EmptyString => None
                         end
                     | None => None
                     end
                   else None
               | EmptyString => None
               end
           end) in
      match skip_ws s with
      | String c s' =>
          let n := N_of_ascii c in
          if (n =? 110)%N then s1 ← expect "null" (String c s'); Some (JNull, s1)
          else if (n =? 116)%N then s1 ← expect "true" (String c s'); Some (JBool true, s1)
          else if (n =? 102)%N then s1 ← expect "false" (String c s'); Some (JBool false, s1)
          else if (n =? 34)%N then
            match parse_chars s' with
            | Some (r, rest) => Some (JStr r, rest)
            | None => None
            end
          else if (n =? 45)%N then
            match parse_nat s' with
            | Some (z, rest) => Some (JNum (- z), rest)
            | None => None
            end
          else if is_digit c then
            match parse_nat (String c s') with
            | Some (z, rest) => Some (JNum z, rest)
            | None => None
            end
          else if (n =? 123)%N then
            match skip_ws s' with
            | String d s1 =>
                if (N_of_ascii d =? 125)%N then Some (JObj [], s1)
                else members (String.length s') [] s'
            | EmptyString => None
            end
          else None
      | EmptyString => None
      end
  end.

(** [JSON.parse(text)]; [None] is a SyntaxError. *)
Definition parse (text : string) : option json :=
  match parse_value (S (String.length text)) text with
  | Some (t, rest) =>
      match skip_ws rest with
      | EmptyString => Some t
      | _ => None
      end
  | None => None
  end.

(** *** The shape of the text

    The two loops of the serializer and of the reader, by name, and the
    strings that may stand between the tokens. *)

Definition print_parts (pr : json -> string) (colon : string) (ps : list (string * json))
  : list string :=
  map (fun kt => quote kt.1 +:+ colon +:+ pr kt.2) ps.

Section Members.
Variable pv : string -> option (json * string).

Fixpoint parse_members (n : nat) (acc : list (string * json)) (s : string)
  : option (json * string) :=
  match n with
  | 0 => None
  | S n' =>
      match skip_ws s with
      | String q s1 =>
          if (N_of_ascii q =? 34)%N then
            match parse_chars s1 with
            | Some (k, s2) =>
                match skip_ws s2 with
                | String c s3 =>
                    if (N_of_ascii c =? 58)%N then
                      match pv s3 with
                      | Some (t, s4) =>
                          let acc' := put_member acc k t in
                          match skip_ws s4 with
                          | String d s5 =>
                              if (N_of_ascii d =? 44)%N then parse_members n' acc' s5
                              else if (N_of_ascii d =? 125)%N then Some (JObj acc', s5)
                              else None
                          | EmptyString => None
                          end
                      | None => None
                      end
                    else None
                | EmptyString => None
                end
            | None => None
            end
          else None
      | EmptyString => None
      end
  end.

End Members.

Fixpoint all_ws (s : string) : bool :=
  match s with
  | EmptyString => true
  | String c s' => is_ws c && all_ws s'
  end.

(** What may follow a number: the end of the text, or a character that does
    not continue the literal. *)
Definition delimited (s : string) : bool :=
  match s with
  | EmptyString => true
  | String c _ => negb (is_digit c) && negb (starts_fraction s)
  end.

(** The keys of every object of the tree are distinct, as the keys of a
    JavaScript object are. *)
Fixpoint distinct_keys (t : json) : bool :=
  match t with
  | JObj ps =>
      (fix go (ps : list (string * json)) : bool :=
         match ps with
         | [] => true
         | (k, t') :: ps' =>
             forallb (fun kt => negb (String.eqb kt.1 k)) ps' && distinct_keys t' && go ps'
         end) ps
  | _ => true
  end.

End JSON.

(** ** A state and exception monad

    A method is a function from the world before the call to its outcome and
    the world after it.  [Throw] is a raised exception, or the rejection of
    the promise of an async method; an awaited call is a call. *)

Module Eff.
Import JS.

Inductive result (A : Type) :=
  | Ok (a : A)
  | Throw (e : err).
Arguments Ok {A} a.
Arguments Throw {A} e.

Definition M (S A : Type) : Type := S -> result A * S.

Definition ret {S A} (a : A) : M S A := fun s => (Ok a, s).

Definition throw {S A} (e : err) : M S A := fun s => (Throw e, s).

Definition bind {S A B} (m : M S A) (k : A -> M S B) : M S B :=
  fun s =>
    match m s with
    | (Ok a, s') => k a s'
    | (Throw e, s') => (Throw e, s')
    end.

(** [try { m } catch (e) { handler(e) }] *)
Definition try_catch {S A} (m : M S A) (handler : err -> M S A) : M S A :=
  fun s =>
    match m s with
    | (Ok a, s') => (Ok a, s')
    | (Throw e, s') => handler e s'
    end.

Definition gets {S A} (f : S -> A) : M S A := fun s => (Ok (f s), s).

Definition modify {S} (f : S -> S) : M S unit := fun s => (Ok tt, f s).

(** [l.forEach(body)] and [for (const x of l) body], on a list that the body
    does not change. *)
Fixpoint for_each {S A} (l : list A) (body : A -> M S unit) : M S unit :=
  match l with
  | [] => ret tt
  | x :: l' => bind (body x) (fun _ => for_each l' body)
  end.

(** [a.push(x)] and [a.pop()] work at the end of the array. *)
Definition push {A} (x : A) (l : list A) : list A := l ++ [x].

Definition pop {A} (l : list A) : option (A * list A) :=
  match last l with
  | Some x => Some (x, removelast l)
  | None => None
  end.

End Eff.

Declare Scope eff_scope.
Delimit Scope eff_scope with eff.
Notation "'let*' x ':=' m 'in' k" := (Eff.bind m (fun x => k))
  (at level 10, x name, m at level 100, k at level 200) : eff_scope.
Notation "m >> k" := (Eff.bind m (fun _ => k))
  (at level 100, k at level 200, right associativity) : eff_scope.

(** ** The state container, [src/stateManager.js] *)

Module StateManager.
Import JS Eff.
Local Open Scope nat_scope.
Local Open Scope eff_scope.

(** A function value is known by its identity; what it does when called is
    given by the host ([behaviour] below). *)
Abbreviation fn := nat (only parsing).

(** An argument of a callback: a value, or the error handed to the error
    handler. *)
Inductive arg :=
  | AVal (v : val)
  | AErr (e : err).

(** What the outside sees of a run: the calls of callbacks, in order, and the
    lines written with [console.error]. *)
Inductive event :=
  | Called (f : fn) (args : list arg)
  | ConsoleError (e : err).

(** An entry of [this.middlewares]; [selective] is the one option the
    default carries. *)
Record entry := Entry {
  middleware : fn;
  enabled : bool;
  selective : bool
}.

(** A pending [setTimeout] of the debounced [setState]: its closure holds the
    copied next state and the history flag. *)
Record timer := Timer {
  tid : nat;
  due : nat;
  timer_nextState : val;
  timer_addToUndoStack : bool
}.

(** The fields of a [StateManager]. *)
Record instance := MkInstance {
  state : val;
  initialState : val;
  listeners : list fn;
  middlewares : list entry;
  eventListeners : list (string * list fn);
  undoStack : list val;
  redoStack : list val;
  prevState : val;
  debounceTimeout : option nat;
  debounceDelay : nat;
  batchUpdatePending : bool;
  batchUpdateQueue : list val;
  deepStateComparison : bool;
  localStorageKey : string;
  errorHandler : option fn
}.

(** The world: the instance, the heap, and the host: the behaviour of the
    functions handed in as callbacks (whether a call returns, [None], or
    throws), the trace, the clock and pending timers, and [localStorage]
    where the host has one. *)
Record world := World {
  this : instance;
  mem : heap;
  behaviour : fn -> heap -> list arg -> option err;
  trace : list event;
  now : nat;
  timers : list timer;
  timer_seq : nat;
  localStorage : option (gmap string string)
}.

Definition set_state (x : val) (r : instance) : instance :=
  {| state := x; initialState := initialState r; listeners := listeners r;
     middlewares := middlewares r; eventListeners := eventListeners r;
     undoStack := undoStack r; redoStack := redoStack r; prevState := prevState r;
     debounceTimeout := debounceTimeout r; debounceDelay := debounceDelay r;
     batchUpdatePending := batchUpdatePending r; batchUpdateQueue := batchUpdateQueue r;
     deepStateComparison := deepStateComparison r; localStorageKey := localStorageKey r;
     errorHandler := errorHandler r |}.

Definition set_listeners (x : list fn) (r : instance) : instance :=
  {| state := state r; initialState := initialState r; listeners := x;
     middlewares := middlewares r; eventListeners := eventListeners r;
     undoStack := undoStack r; redoStack := redoStack r; prevState := prevState r;
     debounceTimeout := debounceTimeout r; debounceDelay := debounceDelay r;
     batchUpdatePending := batchUpdatePending r; batchUpdateQueue := batchUpdateQueue r;
     deepStateComparison := deepStateComparison r; localStorageKey := localStorageKey r;
     errorHandler := errorHandler r |}.

Definition set_middlewares (x : list entry) (r : instance) : instance :=
  {| state := state r; initialState := initialState r; listeners := listeners r;
     middlewares := x; eventListeners := eventListeners r; undoStack := undoStack r;
     redoStack := redoStack r; prevState := prevState r;
     debounceTimeout := debounceTimeout r; debounceDelay := debounceDelay r;
     batchUpdatePending := batchUpdatePending r; batchUpdateQueue := batchUpdateQueue r;
     deepStateComparison := deepStateComparison r; localStorageKey := localStorageKey r;
     errorHandler := errorHandler r |}.

Definition set_eventListeners (x : list (string * list fn)) (r : instance) : instance :=
  {| state := state r; initialState := initialState r; listeners := listeners r;
     middlewares := middlewares r; eventListeners := x; undoStack := undoStack r;
     redoStack := redoStack r; prevState := prevState r;
     debounceTimeout := debounceTimeout r; debounceDelay := debounceDelay r;
     batchUpdatePending := batchUpdatePending r; batchUpdateQueue := batchUpdateQueue r;
     deepStateComparison := deepStateComparison r; localStorageKey := localStorageKey r;
     errorHandler := errorHandler r |}.

Definition set_undoStack (x : list val) (r : instance) : instance :=
  {| state := state r; initialState := initialState r; listeners := listeners r;
     middlewares := middlewares r; eventListeners := eventListeners r; undoStack := x;
     redoStack := redoStack r; prevState := prevState r;
     debounceTimeout := debounceTimeout r; debounceDelay := debounceDelay r;
     batchUpdatePending := batchUpdatePending r; batchUpdateQueue := batchUpdateQueue r;
     deepStateComparison := deepStateComparison r; localStorageKey := localStorageKey r;
     errorHandler := errorHandler r |}.

Definition set_redoStack (x : list val) (r : instance) : instance :=
  {| state := state r; initialState := initialState r; listeners := listeners r;
     middlewares := middlewares r; eventListeners := eventListeners r;
     undoStack := undoStack r; redoStack := x; prevState := prevState r;
     debounceTimeout := debounceTimeout r; debounceDelay := debounceDelay r;
     batchUpdatePending := batchUpdatePending r; batchUpdateQueue := batchUpdateQueue r;
     deepStateComparison := deepStateComparison r; localStorageKey := localStorageKey r;
     errorHandler := errorHandler r |}.

Definition set_prevState (x : val) (r : instance) : instance :=
  {| state := state r; initialState := initialState r; listeners := listeners r;
     middlewares := middlewares r; eventListeners := eventListeners r;
     undoStack := undoStack r; redoStack := redoStack r; prevState := x;
     debounceTimeout := debounceTimeout r; debounceDelay := debounceDelay r;
     batchUpdatePending := batchUpdatePending r; batchUpdateQueue := batchUpdateQueue r;
     deepStateComparison := deepStateComparison r; localStorageKey := localStorageKey r;
     errorHandler := errorHandler r |}.

Definition set_debounceTimeout (x : option nat) (r : instance) : instance :=
  {| state := state r; initialState := initialState r; listeners := listeners r;
     middlewares := middlewares r; eventListeners := eventListeners r;
     undoStack := undoStack r; redoStack := redoStack r; prevState := prevState r;
     debounceTimeout := x; debounceDelay := debounceDelay r;
     batchUpdatePending := batchUpdatePending r; batchUpdateQueue := batchUpdateQueue r;
     deepStateComparison := deepStateComparison r; localStorageKey := localStorageKey r;
     errorHandler := errorHandler r |}.

Definition set_debounceDelay (x : nat) (r : instance) : instance :=
  {| state := state r; initialState := initialState r; listeners := listeners r;
     middlewares := middlewares r; eventListeners := eventListeners r;
     undoStack := undoStack r; redoStack := redoStack r; prevState := prevState r;
     debounceTimeout := debounceTimeout r; debounceDelay := x;
     batchUpdatePending := batchUpdatePending r; batchUpdateQueue := batchUpdateQueue r;
     deepStateComparison := deepStateComparison r; localStorageKey := localStorageKey r;
     errorHandler := errorHandler r |}.

Definition set_batchUpdatePending (x : bool) (r : instance) : instance :=
  {| state := state r; initialState := initialState r; listeners := listeners r;
     middlewares := middlewares r; eventListeners := eventListeners r;
     undoStack := undoStack r; redoStack := redoStack r; prevState := prevState r;
     debounceTimeout := debounceTimeout r; debounceDelay := debounceDelay r;
     batchUpdatePending := x; batchUpdateQueue := batchUpdateQueue r;
     deepStateComparison := deepStateComparison r; localStorageKey := localStorageKey r;
     errorHandler := errorHandler r |}.

Definition set_batchUpdateQueue (x : list val) (r : instance) : instance :=
  {| state := state r; initialState := initialState r; listeners := listeners r;
     middlewares := middlewares r; eventListeners := eventListeners r;
     undoStack := undoStack r; redoStack := redoStack r; prevState := prevState r;
     debounceTimeout := debounceTimeout r; debounceDelay := debounceDelay r;
     batchUpdatePending := batchUpdatePending r; batchUpdateQueue := x;
     deepStateComparison := deepStateComparison r; localStorageKey := localStorageKey r;
     errorHandler := errorHandler r |}.

Definition set_deepStateComparison (x : bool) (r : instance) : instance :=
  {| state := state r; initialState := initialState r; listeners := listeners r;
     middlewares := middlewares r; eventListeners := eventListeners r;
     undoStack := undoStack r; redoStack := redoStack r; prevState := prevState r;
     debounceTimeout := debounceTimeout r; debounceDelay := debounceDelay r;
     batchUpdatePending := batchUpdatePending r; batchUpdateQueue := batchUpdateQueue r;
     deepStateComparison := x; localStorageKey := localStorageKey r;
     errorHandler := errorHandler r |}.

Definition set_localStorageKey (x : string) (r : instance) : instance :=
  {| state := state r; initialState := initialState r; listeners := listeners r;
     middlewares := middlewares r; eventListeners := eventListeners r;
     undoStack := undoStack r; redoStack := redoStack r; prevState := prevState r;
     debounceTimeout := debounceTimeout r; debounceDelay := debounceDelay r;
     batchUpdatePending := batchUpdatePending r; batchUpdateQueue := batchUpdateQueue r;
     deepStateComparison := deepStateComparison r; localStorageKey := x;
     errorHandler := errorHandler r |}.

Definition set_errorHandler (x : option fn) (r : instance) : instance :=
  {| state := state r; initialState := initialState r; listeners := listeners r;
     middlewares := middlewares r; eventListeners := eventListeners r;
     undoStack := undoStack r; redoStack := redoStack r; prevState := prevState r;
     debounceTimeout := debounceTimeout r; debounceDelay := debounceDelay r;
     batchUpdatePending := batchUpdatePending r; batchUpdateQueue := batchUpdateQueue r;
     deepStateComparison := deepStateComparison r; localStorageKey := localStorageKey r;
     errorHandler := x |}.

Definition set_this (x : instance) (r : world) : world :=
  {| this := x; mem := mem r; behaviour := behaviour r; trace := trace r; now := now r;
     timers := timers r; timer_seq := timer_seq r; localStorage := localStorage r |}.

Definition set_mem (x : heap) (r : world) : world :=
  {| this := this r; mem := x; behaviour := behaviour r; trace := trace r; now := now r;
     timers := timers r; timer_seq := timer_seq r; localStorage := localStorage r |}.

Definition set_trace (x : list event) (r : world) : world :=
  {| this := this r; mem := mem r; behaviour := behaviour r; trace := x; now := now r;
     timers := timers r; timer_seq := timer_seq r; localStorage := localStorage r |}.

Definition set_now (x : nat) (r : world) : world :=
  {| this := this r; mem := mem r; behaviour := behaviour r; trace := trace r; now := x;
     timers := timers r; timer_seq := timer_seq r; localStorage := localStorage r |}.

Definition set_timers (x : list timer) (r : world) : world :=
  {| this := this r; mem := mem r; behaviour := behaviour r; trace := trace r;
     now := now r; timers := x; timer_seq := timer_seq r; localStorage := localStorage r |}.

Definition set_timer_seq (x : nat) (r : world) : world :=
  {| this := this r; mem := mem r; behaviour := behaviour r; trace := trace r;
     now := now r; timers := timers r; timer_seq := x; localStorage := localStorage r |}.

Definition set_localStorage (x : option (gmap string string)) (r : world) : world :=
  {| this := this r; mem := mem r; behaviour := behaviour r; trace := trace r;
     now := now r; timers := timers r; timer_seq := timer_seq r; localStorage := x |}.

Definition upd (f : instance -> instance) : M world unit :=
  modify (fun w => set_this (f (this w)) w).

Definition read {A} (f : instance -> A) : M world A :=
  gets (fun w => f (this w)).

(** *** Host services *)

(** A call [f(args)]: it is recorded, then returns or throws as the host's
    function does on these arguments. *)
Definition call (f : fn) (args : list arg) : M world unit :=
  fun w =>
    let w' := set_trace (trace w ++ [Called f args]) w in
    match behaviour w f (mem w) args with
    | None => (Ok tt, w')
    | Some e => (Throw e, w')
    end.

Definition console_error (e : err) : M world unit :=
  modify (fun w => set_trace (trace w ++ [ConsoleError e]) w).

(** [JSON.parse(JSON.stringify(v))] *)
Definition JSON_clone (v : val) : M world val :=
  fun w =>
    match JSON_roundtrip (mem w) v with
    | inl (h, v') => (Ok v', set_mem h w)
    | inr e => (Throw e, w)
    end.

(** [{ ...v1, ...v2, ... }] and [Object.assign({}, v1, v2, ...)]: a new
    object with the properties of the sources, assigned left to right.  The
    keys of one object are distinct, so the first source is taken over as it
    is. *)
Definition spread_props (h : heap) (vs : list val) : obj :=
  match vs with
  | [] => []
  | v :: vs' => foldl (fun o v' => merge_props o (props_of h v')) (props_of h v) vs'
  end.

Definition spread (vs : list val) : M world val :=
  fun w =>
    let '(h, v) := alloc_obj (spread_props (mem w) vs) (mem w) in
    (Ok v, set_mem h w).

(** The copy made throughout the class:
    [this.deepStateComparison ? JSON.parse(JSON.stringify(v)) : { ...v }]. *)
Definition copy (v : val) : M world val :=
  let* deep := read deepStateComparison in
  if deep then JSON_clone v else spread [v].

(** [v[k]]: a TypeError on undefined and null; own properties of an object;
    the characters and the length of a string.  Properties inherited from a
    prototype are not modelled. *)
Definition get_prop (v : val) (k : string) : M world val :=
  fun w =>
    match v with
    | VUndef | VNull => (Throw (TypeError "Cannot read properties"), w)
    | VRef l => (Ok (default VUndef (get_own (default [] (mem w !! l)) k)), w)
    | VStr s =>
        if String.eqb k "length" then (Ok (VNum (Z.of_nat (String.length s))), w)
        else (Ok (default VUndef (get_own (string_props 0 s) k)), w)
    | _ => (Ok VUndef, w)
    end.

(** [clearTimeout(id)]; [clearTimeout(null)] does nothing. *)
Definition clearTimeout (id : option nat) : M world unit :=
  modify (fun w =>
    match id with
    | Some i => set_timers (List.filter (fun t => negb (tid t =? i)%nat) (timers w)) w
    | None => w
    end).

(** [setTimeout(closure, delay)] for the closure of the debounced commit. *)
Definition setTimeout (nextState : val) (addToUndoStack : bool) (delay : nat) : M world nat :=
  fun w =>
    let t := Timer (timer_seq w) (now w + delay) nextState addToUndoStack in
    (Ok (timer_seq w), set_timer_seq (S (timer_seq w)) (set_timers (timers w ++ [t]) w)).

(** *** The event listener registry, a JS object used as a map from names to
    arrays, in insertion order of the names *)

Fixpoint ev_get (evs : list (string * list fn)) (name : string) : option (list fn) :=
  match evs with
  | [] => None
  | (n, cbs) :: evs' => if String.eqb n name then Some cbs else ev_get evs' name
  end.

Fixpoint ev_set (evs : list (string * list fn)) (name : string) (cbs : list fn)
  : list (string * list fn) :=
  match evs with
  | [] => [(name, cbs)]
  | (n, old) :: evs' =>
      if String.eqb n name then (n, cbs) :: evs' else (n, old) :: ev_set evs' name cbs
  end.

(** *** Methods *)

Definition handleError (e : err) : M world unit :=
  let* h := read errorHandler in
  match h with
  | Some f => call f [AErr e]
  | None => console_error e
  end.

Definition getState : M world val :=
  let* s := read state in
  copy s.

Definition applyMiddlewares (prevState nextState : val) : M world unit :=
  let* enabledMiddlewares :=
    read (fun i => map middleware (List.filter enabled (middlewares i))) in
  for_each enabledMiddlewares (fun m =>
    try_catch (call m [AVal prevState; AVal nextState]) handleError).

Definition notifyListeners : M world unit :=
  (let* ls := read listeners in
   for_each ls (fun listener =>
     try_catch
       (let* s := getState in
        call listener [AVal s])
       handleError)) >>
  let* names := read (fun i => map fst (eventListeners i)) in
  for_each names (fun eventName =>
    let* s := read state in
    let* v := get_prop s eventName in
    match v with
    | VUndef => ret tt
    | _ =>
        let* cbs := read (fun i => default [] (ev_get (eventListeners i) eventName)) in
        for_each cbs (fun callback =>
          try_catch
            (let* s' := read state in
             let* v' := get_prop s' eventName in
             call callback [AVal v'])
            handleError)
    end).

(** [localStorage.setItem(key, JSON.stringify(this.state))] where the host
    has a [localStorage]; an undefined result is stored as its string. *)
Definition persistStateToLocalStorage : M world unit :=
  try_catch
    (fun w =>
       match localStorage w with
       | None => (Ok tt, w)
       | Some store =>
           match state (this w) with
           | VUndef =>
               (Ok tt, set_localStorage
                         (Some (<[localStorageKey (this w) := "undefined"]> store)) w)
           | s =>
               match JSON_view (mem w) s with
               | Some t =>
                   (Ok tt, set_localStorage
                             (Some (<[localStorageKey (this w) := JSON.stringify t 0]> store)) w)
               | None => (Throw (TypeError "Converting circular structure to JSON"), w)
               end
           end
       end)
    handleError.

Definition applyStateUpdate (nextState : val) (addToUndoStack : bool) : M world unit :=
  try_catch
    (let* prev := read prevState in
     applyMiddlewares prev nextState >>
     (if addToUndoStack then
        let* s := read state in
        let* c := copy s in
        upd (fun i => set_undoStack (push c (undoStack i)) i) >>
        upd (set_redoStack [])
      else ret tt) >>
     let* s := read state in
     let* c := copy s in
     upd (set_prevState c) >>
     upd (set_state nextState) >>
     notifyListeners >>
     persistStateToLocalStorage)
    handleError.

Definition setState (newState : val) (addToUndoStack debounce : bool) : M world unit :=
  try_catch
    (let* nextState := copy newState in
     if debounce then
       let* pending := read debounceTimeout in
       clearTimeout pending >>
       let* delay := read debounceDelay in
       let* id := setTimeout nextState addToUndoStack delay in
       upd (set_debounceTimeout (Some id))
     else applyStateUpdate nextState addToUndoStack)
    handleError.

(** [subscribe(listener)] pushes the listener; the function it returns is
    [subscribe_detach listener]. *)
Definition subscribe (listener : fn) : M world unit :=
  upd (fun i => set_listeners (push listener (listeners i)) i).

Definition subscribe_detach (listener : fn) : M world unit :=
  upd (fun i =>
    set_listeners (List.filter (fun l => negb (l =? listener)%nat) (listeners i)) i).

(** [on(eventName, callback)]; the function it returns is
    [on_detach eventName callback].  Reading [.filter] of a missing entry is
    a TypeError. *)
Definition on (eventName : string) (callback : fn) : M world unit :=
  (let* cur := read (fun i => ev_get (eventListeners i) eventName) in
   match cur with
   | None => upd (fun i => set_eventListeners (ev_set (eventListeners i) eventName []) i)
   | Some _ => ret tt
   end) >>
  upd (fun i =>
    set_eventListeners
      (ev_set (eventListeners i) eventName
         (push callback (default [] (ev_get (eventListeners i) eventName)))) i).

Definition on_detach (eventName : string) (callback : fn) : M world unit :=
  let* cur := read (fun i => ev_get (eventListeners i) eventName) in
  match cur with
  | None => throw (TypeError "Cannot read properties of undefined (reading filter)")
  | Some cbs =>
      upd (fun i =>
        set_eventListeners
          (ev_set (eventListeners i) eventName
             (List.filter (fun cb => negb (cb =? callback)%nat) cbs)) i)
  end.

Definition applyMiddleware (m : fn) (selective_option : bool) : M world unit :=
  upd (fun i => set_middlewares (push (Entry m true selective_option) (middlewares i)) i).

(** No [try] here: what the copies, the fan-out or the error handler throw
    rejects the promise. *)
Definition resetState : M world unit :=
  let* s := read state in
  let* prev := copy s in
  let* init := read initialState in
  let* c := copy init in
  upd (set_state c) >>
  let* init' := read initialState in
  let* c' := copy init' in
  upd (set_prevState c') >>
  let* cur := read state in
  applyMiddlewares prev cur >>
  notifyListeners >>
  persistStateToLocalStorage.

Definition undo : M world unit :=
  let* us := read undoStack in
  match pop us with
  | Some (prev, rest) =>
      upd (set_undoStack rest) >>
      let* s := read state in
      let* c := copy s in
      upd (fun i => set_redoStack (push c (redoStack i)) i) >>
      upd (set_state prev) >>
      notifyListeners >>
      persistStateToLocalStorage
  | None => ret tt
  end.

Definition redo : M world unit :=
  let* rs := read redoStack in
  match pop rs with
  | Some (next, rest) =>
      upd (set_redoStack rest) >>
      let* s := read state in
      let* c := copy s in
      upd (fun i => set_undoStack (push c (undoStack i)) i) >>
      upd (set_state next) >>
      notifyListeners >>
      persistStateToLocalStorage
  | None => ret tt
  end.

Definition mergeState (partialState : val) : M world unit :=
  try_catch
    (let* deep := read deepStateComparison in
     let* s := read state in
     let* merged := spread [s; partialState] in
     let* nextState := (if deep then JSON_clone merged else ret merged) in
     let* prev := read prevState in
     applyMiddlewares prev nextState >>
     let* s' := read state in
     let* c := copy s' in
     upd (set_prevState c) >>
     upd (set_state nextState) >>
     notifyListeners >>
     persistStateToLocalStorage)
    handleError.

Definition patchState (partialState : val) : M world unit :=
  try_catch
    (let* deep := read deepStateComparison in
     let* s := read state in
     let* merged := spread [s; partialState] in
     let* nextState := (if deep then JSON_clone merged else ret merged) in
     let* prev := read prevState in
     applyMiddlewares prev nextState >>
     let* s' := read state in
     let* c := copy s' in
     upd (set_prevState c) >>
     upd (set_state nextState) >>
     notifyListeners >>
     persistStateToLocalStorage)
    handleError.


Definition setDebounce (delay : nat) : M world unit :=
  upd (set_debounceDelay delay).

Definition startBatchUpdate : M world unit :=
  upd (set_batchUpdatePending true) >>
  upd (set_batchUpdateQueue []).

Definition endBatchUpdate : M world unit :=
  upd (set_batchUpdatePending false) >>
  let* queue := read batchUpdateQueue in
  match queue with
  | [] => ret tt
  | _ =>
      let* nextState := spread queue in
      upd (set_batchUpdateQueue []) >>
      setState nextState true false
  end.

Definition queueBatchUpdate (partialState : val) : M world unit :=
  let* pending := read batchUpdatePending in
  if pending then
    upd (fun i => set_batchUpdateQueue (push partialState (batchUpdateQueue i)) i)
  else mergeState partialState.

Definition enableDeepStateComparison : M world unit :=
  upd (set_deepStateComparison true).

Definition disableDeepStateComparison : M world unit :=
  upd (set_deepStateComparison false).

Definition setLocalStorageKey (key : string) : M world unit :=
  upd (set_localStorageKey key).

(** [getItem] of a missing key is null, and the empty string is falsy too. *)
Definition initializeStateFromLocalStorage : M world unit :=
  try_catch
    (fun w =>
       match localStorage w with
       | None => (Ok tt, w)
       | Some store =>
           match store !! localStorageKey (this w) with
           | Some storedState =>
               if String.eqb storedState "" then (Ok tt, w)
               else
                 match JSON.parse storedState with
                 | Some t =>
                     let '(h1, s) := alloc t (mem w) in
                     let '(h2, p) := alloc t h1 in
                     (Ok tt, set_this (set_prevState p (set_state s (this w))) (set_mem h2 w))
                 | None => (Throw (SyntaxError "Unexpected token"), w)
                 end
           | None => (Ok tt, w)
           end
       end)
    handleError.

Definition setErrorHandler (handler : fn) : M world unit :=
  upd (set_errorHandler (Some handler)).

Definition getUndoStackSize : M world nat := read (fun i => length (undoStack i)).

Definition getRedoStackSize : M world nat := read (fun i => length (redoStack i)).

Definition clearHistory : M world unit :=
  upd (set_undoStack []) >>
  upd (set_redoStack []).

Definition getMiddlewareCount : M world nat := read (fun i => length (middlewares i)).

Definition getListenerCount : M world nat := read (fun i => length (listeners i)).


Definition removeAllListeners : M world unit :=
  upd (set_listeners []).


Definition removeAllMiddlewares : M world unit :=
  upd (set_middlewares []).

Definition enableMiddleware (index : nat) : M world unit :=
  upd (fun i =>
    set_middlewares
      (alter (fun m => Entry (middleware m) true (selective m)) index (middlewares i)) i).

Definition disableMiddleware (index : nat) : M world unit :=
  upd (fun i =>
    set_middlewares
      (alter (fun m => Entry (middleware m) false (selective m)) index (middlewares i)) i).

(** [new StateManager(initialState)]: an undefined argument takes the
    default, a new empty object.  [this.state] is the argument itself, not a
    copy.  The stored snapshot is read before [this.errorHandler] is
    assigned. *)
Definition constructor (initialState : val) : M world unit :=
  let* init :=
    (match initialState with
     | VUndef => spread []
     | v => ret v
     end) in
  let* c1 := spread [init] in
  let* c2 := spread [init] in
  upd (fun _ =>
    {| state := init; initialState := c1; listeners := []; middlewares := [];
       eventListeners := []; undoStack := []; redoStack := []; prevState := c2;
       debounceTimeout := None; debounceDelay := 200;
       batchUpdatePending := false; batchUpdateQueue := [];
       deepStateComparison := false;
       localStorageKey := "1cbycStateManagerState"; errorHandler := None |}) >>
  initializeStateFromLocalStorage >>
  upd (set_errorHandler None).

(** *** Time

    A pending timer fires when the clock reaches its due time.  The closure
    of the debounced commit awaits [applyStateUpdate]; nothing awaits the
    closure. *)
Definition fire (t : timer) (w : world) : world :=
  (applyStateUpdate (timer_nextState t) (timer_addToUndoStack t) w).2.

Fixpoint earliest (ts : list timer) : option timer :=
  match ts with
  | [] => None
  | t :: ts' =>
      match earliest ts' with
      | Some t' => if due t' <? due t then Some t' else Some t
      | None => Some t
      end
  end.

Fixpoint run_timers (fuel : nat) (T : nat) (w : world) : world :=
  match fuel with
  | 0 => w
  | S fuel' =>
      match earliest (timers w) with
      | Some t =>
          if due t <=? T then
            run_timers fuel' T
              (fire t
                 (set_now (now w `max` due t)
                    (set_timers
                       (List.filter (fun t' => negb (tid t' =? tid t)%nat) (timers w)) w)))
          else w
      | None => w
      end
  end.

(** Let time pass until [T]: the timers due by then fire, in order. *)
Definition advance (T : nat) (w : world) : world :=
  let w' := run_timers (length (timers w)) T w in
  set_now (now w' `max` T) w'.

(** A host at rest: an empty heap, no timers, time zero. *)
Definition boot (behaviour : fn -> heap -> list arg -> option err)
    (localStorage : option (gmap string string)) : world :=
  {| this :=
       {| state := VUndef; initialState := VUndef; listeners := []; middlewares := [];
          eventListeners := []; undoStack := []; redoStack := []; prevState := VUndef;
          debounceTimeout := None; debounceDelay := 0;
          batchUpdatePending := false; batchUpdateQueue := [];
          deepStateComparison := false; localStorageKey := ""; errorHandler := None |};
     mem := []; behaviour := behaviour; trace := []; now := 0; timers := [];
     timer_seq := 0; localStorage := localStorage |}.

(** Run a method for its effect on the world. *)
Definition exec {A} (m : M world A) (w : world) : world := (m w).2.

(** *** Reading a trace *)

(** Where [handleError] sends an error: the call of the handler, or the
    console. *)
Definition sink (w : world) (e : err) : event :=
  match errorHandler (this w) with
  | Some h => Called h [AErr e]
  | None => ConsoleError e
  end.

(** The error handler itself does not throw: none is set, or the one set
    returns on every error. *)
Definition handler_safe (w : world) : Prop :=
  forall h, errorHandler (this w) = Some h ->
    forall m e, behaviour w h m [AErr e] = None.

(** The functions called with one value: listeners and event callbacks. *)
Definition notifications (tr : list event) : list nat :=
  omap (fun ev => match ev with Called f [AVal _] => Some f | _ => None end) tr.

(** The functions called with two values: middleware. *)
Definition middleware_calls (tr : list event) : list nat :=
  omap (fun ev => match ev with Called f [AVal _; AVal _] => Some f | _ => None end) tr.

(** The errors that reached the handler or the console. *)
Definition reported (tr : list event) : list err :=
  omap (fun ev =>
          match ev with
          | Called _ [AErr e] => Some e
          | ConsoleError e => Some e
          | _ => None
          end) tr.

(** The events of one pass over the enabled middleware [ms]: each is called,
    and what it throws goes to the sink. *)
Definition middleware_trace (w : world) (prevState nextState : val) (ms : list nat)
  : list event :=
  flat_map (fun m =>
    Called m [AVal prevState; AVal nextState] ::
    match behaviour w m (mem w) [AVal prevState; AVal nextState] with
    | Some e => [sink w e]
    | None => []
    end) ms.

Definition enabledMiddlewares (w : world) : list nat :=
  map middleware (List.filter enabled (middlewares (this w))).

(** The value of [s[name]] where the read does not throw. *)
Definition peek (h : heap) (s : val) (name : string) : val :=
  match s with
  | VRef l => default VUndef (get_own (default [] (h !! l)) name)
  | VStr str =>
      if String.eqb name "length" then VNum (Z.of_nat (String.length str))
      else default VUndef (get_own (string_props 0 str) name)
  | _ => VUndef
  end.

(** The event callbacks that a fan-out over state [s] fires: those of the
    registered names that are keys of [s] with a defined value. *)
Definition fired (h : heap) (s : val) (evs : list (string * list nat)) : list nat :=
  flat_map (fun name =>
    match peek h s name with
    | VUndef => []
    | _ => default [] (ev_get evs name)
    end) (map fst evs).

(** In deep mode the value can be copied: it is JSON data. *)
Definition copy_ok (w : world) (v : val) : Prop :=
  deepStateComparison (this w) = true -> is_Some (JSON_view (mem w) v).

(** A state in the sense of the data model: an object that is JSON data,
    read as the tree [t]. *)
Definition is_state (h : heap) (v : val) (t : json) : Prop :=
  (exists l, v = VRef l) /\ JSON_view h v = Some t.

(** The shallow copy of a value has its content only if the value is an
    object; the deep copy has it for every JSON value. *)
Definition plain (w : world) (v : val) : Prop :=
  deepStateComparison (this w) = true \/ exists l, v = VRef l.

(** The properties [o], about to be put in a new object, are JSON data:
    the object will read as [JObj ts]. *)
Definition json_object (h : heap) (o : obj) (ts : list (string * json)) : Prop :=
  view_props (JSON_view h) o = Some ts.

(** *** Debounced calls in time

    A call [(t, v, add)] is [setState(v, add, true)] issued at time [t]. *)
Definition call_time (c : nat * val * bool) : nat := c.1.1.

Definition call_value (c : nat * val * bool) : val := c.1.2.

Definition call_history (c : nat * val * bool) : bool := c.2.

Definition debounced_call (c : nat * val * bool) (w : world) : world :=
  exec (setState (call_value c) (call_history c) true) (advance (call_time c) w).

Definition debounced_calls (cs : list (nat * val * bool)) (w : world) : world :=
  foldl (fun u c => debounced_call c u) w cs.

Fixpoint ascending (prev : nat) (ts : list nat) : Prop :=
  match ts with
  | [] => True
  | t :: ts' => prev <= t /\ ascending t ts'
  end.

(** World [u] is world [w] with nothing observable done, and the commit of
    call [c] pending: the one timer holds a copy of the value of [c]. *)
Definition awaiting (w u : world) (c : nat * val * bool) : Prop :=
  (exists id next,
     this u = set_debounceTimeout (Some id) (this w) /\
     timers u =
       [Timer id (call_time c + debounceDelay (this w)) next (call_history c)] /\
     (forall t, JSON_view (mem w) (call_value c) = Some t -> plain w (call_value c) ->
                JSON_view (mem u) next = Some t) /\
     copy_ok u next) /\
  behaviour u = behaviour w /\ mem w `prefix_of` mem u /\ trace u = trace w /\
  now u = call_time c.

(** One world follows another by a run that leaves the instance, the timers
    and the clock alone, may allocate, and adds the events [d]. *)
Definition steps_to (w w' : world) (d : list event) : Prop :=
  this w' = this w /\ behaviour w' = behaviour w /\
  mem w `prefix_of` mem w' /\ trace w' = trace w ++ d /\
  timers w' = timers w /\ now w' = now w /\ timer_seq w' = timer_seq w.

Definition framed {A} (m : M world A) : Prop :=
  forall w r w', m w = (r, w') -> exists d, steps_to w w' d.

(** A run that leaves one field of the instance as it was. *)
Definition keeps {X A} (f : instance -> X) (m : M world A) : Prop :=
  forall w r w', m w = (r, w') -> f (this w') = f (this w).

(** The events of one pass over the callbacks [cbs] with the argument [v]:
    each is called, and what it throws goes to the sink. *)
Definition callback_trace (w : world) (v : val) (cbs : list nat) : list event :=
  flat_map (fun cb =>
    Called cb [AVal v] ::
    match behaviour w cb (mem w) [AVal v] with
    | Some e => [sink w e]
    | None => []
    end) cbs.

(** A run that leaves the error handler and the functions of the host as
    they were, whatever its outcome. *)
Definition host_kept {A} (m : M world A) : Prop :=
  forall w r w', m w = (r, w') ->
    errorHandler (this w') = errorHandler (this w) /\ behaviour w' = behaviour w.

(** The instance as the constructor sets it up, before it looks for a
    snapshot. *)
Definition constructed (arg : val) (w : world) : world :=
  let '(init, h0) :=
    match arg with
    | VUndef => (VRef (length (mem w)), mem w ++ [[]])
    | v => (v, mem w)
    end in
  let o1 := props_of h0 init in
  let o2 := props_of (h0 ++ [o1]) init in
  set_this
    {| state := init; initialState := VRef (length h0); listeners := [];
       middlewares := []; eventListeners := []; undoStack := []; redoStack := [];
       prevState := VRef (S (length h0));
       debounceTimeout := None; debounceDelay := 200;
       batchUpdatePending := false; batchUpdateQueue := [];
       deepStateComparison := false;
       localStorageKey := "1cbycStateManagerState"; errorHandler := None |}
    (set_mem (h0 ++ [o1; o2]) w).

(** The calls with one value, each with the value handed over. *)
Definition value_calls (tr : list event) : list (nat * val) :=
  omap (fun ev => match ev with Called f [AVal v] => Some (f, v) | _ => None end) tr.

End StateManager.

(** ** The persistence adapter, [src/persistenceMiddleware.js] *)

Module PersistenceMiddleware.
Import JS Eff.
Local Open Scope nat_scope.
Local Open Scope eff_scope.

(** *** The file system of the host *)

Inductive fsop := OpRead | OpWrite | OpStat | OpAccess | OpRename | OpUnlink.

(** The files by path, and what the host refuses whatever the files are
    (permissions, a missing directory, an I/O error): each operation is
    fallible on its own. *)
Record filesystem := Filesystem {
  files : gmap string string;
  refuses : fsop -> string -> bool
}.

Record options_t := Options {
  spaces : nat;
  fileType : string;
  version : Z
}.

Record instance := MkInstance {
  filePath : string;
  options : options_t
}.

Record world := World {
  this : instance;
  fs : filesystem;
  mem : heap;
  console : list string
}.

Definition set_this (x : instance) (w : world) : world :=
  {| this := x; fs := fs w; mem := mem w; console := console w |}.

Definition set_files (x : gmap string string) (w : world) : world :=
  {| this := this w; fs := {| files := x; refuses := refuses (fs w) |};
     mem := mem w; console := console w |}.

Definition set_mem (x : heap) (w : world) : world :=
  {| this := this w; fs := fs w; mem := x; console := console w |}.

Definition console_error (label : string) : M world unit :=
  modify (fun w =>
    {| this := this w; fs := fs w; mem := mem w; console := console w ++ [label] |}).

Definition read {A} (f : instance -> A) : M world A :=
  gets (fun w => f (this w)).

Definition io_error (code : string) : err := Error code.

Definition fs_readFile (path : string) : M world string :=
  fun w =>
    if refuses (fs w) OpRead path then (Throw (io_error "EACCES"), w)
    else
      match files (fs w) !! path with
      | Some content => (Ok content, w)
      | None => (Throw (io_error "ENOENT"), w)
      end.

(** The data of [fs.writeFile] must be a string: undefined is a TypeError. *)
Definition fs_writeFile (path : string) (data : option string) : M world unit :=
  fun w =>
    match data with
    | None => (Throw (TypeError "ERR_INVALID_ARG_TYPE"), w)
    | Some content =>
        if refuses (fs w) OpWrite path then (Throw (io_error "EACCES"), w)
        else (Ok tt, set_files (<[path := content]> (files (fs w))) w)
    end.

Definition fs_copyFile (src dest : string) : M world unit :=
  let* content := fs_readFile src in
  fs_writeFile dest (Some content).

Definition fs_rename (oldPath newPath : string) : M world unit :=
  fun w =>
    if refuses (fs w) OpRename oldPath then (Throw (io_error "EACCES"), w)
    else
      match files (fs w) !! oldPath with
      | Some content =>
          (Ok tt, set_files (<[newPath := content]> (delete oldPath (files (fs w)))) w)
      | None => (Throw (io_error "ENOENT"), w)
      end.

Definition fs_unlink (path : string) : M world unit :=
  fun w =>
    if refuses (fs w) OpUnlink path then (Throw (io_error "EACCES"), w)
    else
      match files (fs w) !! path with
      | Some _ => (Ok tt, set_files (delete path (files (fs w))) w)
      | None => (Throw (io_error "ENOENT"), w)
      end.

(** [fs.stat(path)], of which only [size] is read. *)
Definition fs_stat (path : string) : M world nat :=
  fun w =>
    if refuses (fs w) OpStat path then (Throw (io_error "EACCES"), w)
    else
      match files (fs w) !! path with
      | Some content => (Ok (String.length content), w)
      | None => (Throw (io_error "ENOENT"), w)
      end.

Definition fs_access (path : string) : M world unit :=
  fun w =>
    if refuses (fs w) OpAccess path then (Throw (io_error "EACCES"), w)
    else
      match files (fs w) !! path with
      | Some _ => (Ok tt, w)
      | None => (Throw (io_error "ENOENT"), w)
      end.

Definition fs_truncate (path : string) : M world unit :=
  fun w =>
    if refuses (fs w) OpWrite path then (Throw (io_error "EACCES"), w)
    else
      match files (fs w) !! path with
      | Some _ => (Ok tt, set_files (<[path := ""]> (files (fs w))) w)
      | None => (Throw (io_error "ENOENT"), w)
      end.

Definition fs_appendFile (path : string) (data : string) : M world unit :=
  fun w =>
    if refuses (fs w) OpWrite path then (Throw (io_error "EACCES"), w)
    else
      (Ok tt, set_files (<[path := default "" (files (fs w) !! path) +:+ data]> (files (fs w))) w).

(** *** Serialization *)

(** [JSON.stringify(state, null, spaces)]: undefined for an undefined
    state, a TypeError for a cyclic one. *)
Definition JSON_stringify (state : val) (spaces : nat) : M world (option string) :=
  fun w =>
    match state with
    | VUndef => (Ok None, w)
    | _ =>
        match JSON_view (mem w) state with
        | Some t => (Ok (Some (JSON.stringify t spaces)), w)
        | None => (Throw (TypeError "Converting circular structure to JSON"), w)
        end
    end.

(** [JSON.parse(text)]: the value it builds, or a SyntaxError. *)
Definition JSON_parse (text : option string) : M world val :=
  fun w =>
    match text with
    | None => (Throw (SyntaxError "undefined is not valid JSON"), w)
    | Some s =>
        match JSON.parse s with
        | Some t => let '(h, v) := alloc t (mem w) in (Ok v, set_mem h w)
        | None => (Throw (SyntaxError "Unexpected token"), w)
        end
    end.

(** [state.toString()] *)
Definition toString (state : val) : M world string :=
  match state with
  | VUndef | VNull => throw (TypeError "Cannot read properties (reading toString)")
  | VBool true => ret "true"
  | VBool false => ret "false"
  | VNum n => ret (pretty n)
  | VStr s => ret s
  | VRef _ => ret "[object Object]"
  end.

(** *** Methods *)

Definition constructor (path : string) (opts : options_t) (host : filesystem) (h : heap) : world :=
  {| this := {| filePath := path; options := opts |}; fs := host; mem := h; console := [] |}.

Definition default_filePath : string := "state.json".

Definition default_options : options_t := {| spaces := 2; fileType := "json"; version := 1 |}.

Definition saveState (state : val) : M world bool :=
  try_catch
    (let* opts := read options in
     let* serializedState :=
       (if String.eqb (fileType opts) "json" then JSON_stringify state (spaces opts)
        else let* s := toString state in ret (Some s)) in
     let* path := read filePath in
     fs_writeFile path serializedState >>
     ret true)
    (fun e =>
       console_error "PersistenceMiddleware: Error saving state:" >>
       ret false).

Definition parseFileContent (content : string) : M world val :=
  try_catch
    (let* opts := read options in
     if String.eqb (fileType opts) "json" then JSON_parse (Some content)
     else ret (VStr content))
    (fun e =>
       console_error "PersistenceMiddleware: Error parsing file content:" >>
       ret VNull).

Definition loadState : M world val :=
  try_catch
    (let* path := read filePath in
     let* fileContent := fs_readFile path in
     parseFileContent fileContent)
    (fun e =>
       console_error "PersistenceMiddleware: Error loading state:" >>
       ret VNull).

Definition persistState (prevState nextState : val) : M world bool :=
  saveState nextState.

Definition renameFile (newFilePath : string) : M world bool :=
  try_catch
    (let* path := read filePath in
     fs_rename path newFilePath >>
     modify (fun w => set_this {| filePath := newFilePath; options := options (this w) |} w) >>
     ret true)
    (fun e =>
       console_error "PersistenceMiddleware: Error renaming file:" >>
       ret false).

Definition deleteFile : M world bool :=
  try_catch
    (let* path := read filePath in
     fs_unlink path >>
     ret true)
    (fun e =>
       console_error "PersistenceMiddleware: Error deleting file:" >>
       ret false).

Definition setFileType (t : string) : M world unit :=
  modify (fun w =>
    set_this {| filePath := filePath (this w);
                options := {| spaces := spaces (options (this w)); fileType := t;
                              version := version (options (this w)) |} |} w).

Definition setJsonFormatting (n : nat) : M world unit :=
  modify (fun w =>
    set_this {| filePath := filePath (this w);
                options := {| spaces := n; fileType := fileType (options (this w));
                              version := version (options (this w)) |} |} w).

Definition incrementVersion : M world unit :=
  modify (fun w =>
    set_this {| filePath := filePath (this w);
                options := {| spaces := spaces (options (this w));
                              fileType := fileType (options (this w));
                              version := (version (options (this w)) + 1)%Z |} |} w).

Definition getVersion : M world Z := read (fun i => version (options i)).

Definition setFilePath (path : string) : M world unit :=
  modify (fun w => set_this {| filePath := path; options := options (this w) |} w).

Definition getFilePath : M world string := read filePath.

Definition backupState (state : val) : M world bool :=
  let* path := read filePath in
  let backupPath := path +:+ ".backup" in
  try_catch
    (let* _saved := saveState state in
     let* path' := read filePath in
     fs_copyFile path' backupPath >>
     ret true)
    (fun e =>
       console_error "PersistenceMiddleware: Error creating backup:" >>
       ret false).

Definition fileExists (path : option string) : M world bool :=
  let* p := (match path with Some p => ret p | None => read filePath end) in
  try_catch (fs_access p >> ret true) (fun e => ret false).

Definition restoreFromBackup : M world val :=
  let* path := read filePath in
  let backupPath := path +:+ ".backup" in
  try_catch
    (let* found := fileExists (Some backupPath) in
     if found then
       let* path' := read filePath in
       fs_copyFile backupPath path' >>
       loadState
     else ret VNull)
    (fun e =>
       console_error "PersistenceMiddleware: Error restoring from backup:" >>
       ret VNull).

Definition validateState (state : val) : M world bool :=
  try_catch
    (let* serialized := JSON_stringify state 0 in
     let* _parsed := JSON_parse serialized in
     ret true)
    (fun e =>
       console_error "PersistenceMiddleware: Invalid state object:" >>
       ret false).

Definition saveStateWithValidation (state : val) : M world bool :=
  let* valid := validateState state in
  if valid then saveState state else ret false.

Definition loadStateWithValidation : M world val :=
  let* state := loadState in
  if truthy state then
    let* valid := validateState state in
    if valid then ret state else ret VNull
  else ret VNull.

Definition getOptions : M world options_t := read options.

Definition getFileSize : M world nat :=
  try_catch
    (let* path := read filePath in
     let* size := fs_stat path in
     ret size)
    (fun e =>
       console_error "PersistenceMiddleware: Error getting file size:" >>
       ret 0).

Definition isFileEmpty : M world bool :=
  let* size := getFileSize in
  ret (size =? 0).

Definition truncateFile : M world bool :=
  try_catch
    (let* path := read filePath in
     fs_truncate path >>
     ret true)
    (fun e =>
       console_error "PersistenceMiddleware: Error truncating file:" >>
       ret false).

Definition appendToFile (content : string) : M world bool :=
  try_catch
    (let* path := read filePath in
     fs_appendFile path content >>
     ret true)
    (fun e =>
       console_error "PersistenceMiddleware: Error appending to file:" >>
       ret false).

(** [s.substring(start, end)] for indices that are natural numbers: both
    are capped at the length, and the smaller one is the start. *)
Definition substring (s : string) (start end_ : nat) : string :=
  let a := start `min` String.length s in
  let b := end_ `min` String.length s in
  String.substring (a `min` b) ((a `max` b) - (a `min` b)) s.

Definition readFileChunk (start end_ : nat) : M world val :=
  try_catch
    (let* path := read filePath in
     let* content := fs_readFile path in
     ret (VStr (substring content start end_)))
    (fun e =>
       console_error "PersistenceMiddleware: Error reading file chunk:" >>
       ret VNull).

Definition writeFileChunk (content : string) (position : nat) : M world bool :=
  try_catch
    (let* path := read filePath in
     let* fileContent := fs_readFile path in
     let newContent :=
       substring fileContent 0 position +:+ content
         +:+ substring fileContent position (String.length fileContent) in
     let* path' := read filePath in
     fs_writeFile path' (Some newContent) >>
     ret true)
    (fun e =>
       console_error "PersistenceMiddleware: Error writing file chunk:" >>
       ret false).

(** The world after one more line on the console. *)
Definition logged (line : string) (w : world) : world :=
  {| this := this w; fs := fs w; mem := mem w; console := console w ++ [line] |}.

End PersistenceMiddleware.

(** ** Scenarios

    Concrete worlds, taken from the test suite, on which the properties below
    are exercised. *)

Module PersistenceScenarios.
Import JS Eff PersistenceMiddleware.

Definition permissive : fsop -> string -> bool := fun _ _ => false.

(** The state of the validation test, [s.circular = s], in a directory where
    [{count: 1}] was saved before. *)
Definition cyclic_heap : heap := [[("circular", VRef 0)]].

Definition saved_text : string := JSON.stringify (JObj [("count", JNum 1)]) 2.

Definition saved_world : world :=
  constructor "test-state.json" default_options
    (Filesystem {["test-state.json" := saved_text]} permissive) cyclic_heap.

(** A file that holds the text 0: it is read and parsed without error, the
    value passes [validateState], and null is what comes back. *)
Definition zero_world : world :=
  constructor "state.json" default_options
    (Filesystem {["state.json" := "0"]} permissive) [].

Definition empty_directory : world :=
  constructor "test-state.json" default_options (Filesystem ∅ permissive) [].

(** The state [{count: 1}] of the save and load test, in an empty
    directory. *)
Definition counted_world : world :=
  constructor "test-state.json" default_options (Filesystem ∅ permissive)
    [[("count", VNum 1)]].


(** A file of eleven characters. *)
Definition greeting_world : world :=
  constructor "state.json" default_options
    (Filesystem {["state.json" := "hello world"]} permissive) [].

End PersistenceScenarios.

Module StateManagerScenarios.
Import JS Eff StateManager.
Local Open Scope eff_scope.

(** Callbacks that all return. *)
Definition quiet : nat -> heap -> list arg -> option err := fun _ _ _ => None.

(** An object literal in the caller's code. *)
Definition literal (o : obj) : M world val :=
  fun w => let '(h, v) := alloc_obj o (mem w) in (Ok v, set_mem h w).

(** [new StateManager()] on a host without [localStorage], as under the
    test runner. *)
Definition fresh_store : world := exec (constructor VUndef) (boot quiet None).

(** Two commits, an undo, then a merge. *)
Definition undo_then_merge : M world unit :=
  (let* s := literal [("count", VNum 1)] in setState s true false) >>
  (let* s := literal [("count", VNum 2)] in setState s true false) >>
  undo >>
  (let* p := literal [("b", VNum 2)] in mergeState p).

(** The error handling test: a handler, a middleware that throws, a second
    middleware, a listener, and the object [{count: 1}] about to be set. *)
Definition first_throws : nat -> heap -> list arg -> option err :=
  fun f _ args =>
    match args with
    | [AVal _; AVal _] => if (f =? 1)%nat then Some (Error "Middleware error") else None
    | _ => None
    end.

Definition guarded_store : world :=
  exec (setErrorHandler 9 >> applyMiddleware 1 false >> applyMiddleware 2 false >>
        subscribe 5 >> literal [("count", VNum 1)])
       (exec (constructor VUndef) (boot first_throws None)).

(** A store after one commit of [{count: 1}], with [{count: 2}] at hand. *)
Definition one_commit : world :=
  exec ((let* s := literal [("count", VNum 1)] in setState s true false) >>
        literal [("count", VNum 2)])
       fresh_store.

(** The batch test: a listener, and the two partials at hand. *)
Definition before_batch : world :=
  exec (subscribe 7 >> literal [("count", VNum 1)] >> literal [("name", VStr "test")])
       fresh_store.

(** The debounce test: a listener, a delay of 50, and the three states at
    hand. *)
Definition before_debounce : world :=
  exec (subscribe 7 >> setDebounce 50 >>
        literal [("count", VNum 1)] >> literal [("count", VNum 2)] >>
        literal [("count", VNum 3)])
       fresh_store.

(** The deep comparison tests: [{nested: {value: 1}}] is set, in deep or in
    shallow mode. *)
Definition nested_store (deep : bool) : world :=
  exec ((if deep then enableDeepStateComparison else disableDeepStateComparison) >>
        literal [("value", VNum 1)] >>
        let* s := literal [("nested", VRef 3)] in
        setState s true false)
       fresh_store.

(** Deep mode, an event callback, a commit of null and its undo: the redo
    stack holds null. *)
Definition null_restored : world :=
  exec (enableDeepStateComparison >> on "x" 4 >> setState VNull true false >> undo)
       fresh_store.


(** Deep mode, and an object that refers to itself. *)
Definition cyclic_store : world :=
  exec (enableDeepStateComparison >> literal [("self", VRef 3)]) fresh_store.

(** A store that holds [{count: 1, name: 'a'}], with the partial
    [{name: 'b', on: true}] at hand. *)
Definition named_store : world :=
  exec ((let* s := literal [("count", VNum 1); ("name", VStr "a")] in
         setState s true false) >>
        literal [("name", VStr "b"); ("on", VBool true)])
       fresh_store.

(** An object made by the caller before the container exists. *)
Definition before_construction : world :=
  exec (literal [("count", VNum 1)]) (boot quiet None).

(** A host whose [localStorage] holds a snapshot under the default key. *)
Definition stored_text : string := JSON.stringify (JObj [("count", JNum 1)]) 0.

Definition reloaded_host : world :=
  boot quiet (Some {["1cbycStateManagerState" := stored_text]}).

(** A store on a host with an empty [localStorage], and [{count: 1}] at
    hand. *)
Definition storing_store : world :=
  exec (literal [("count", VNum 1)]) (exec (constructor VUndef) (boot quiet (Some ∅))).

(** A listener, a callback for the key [count], and the state [{count: 0}]. *)
Definition observed_store : world :=
  exec (subscribe 7 >> on "count" 4 >>
        (let* s := literal [("count", VNum 0)] in setState s true false))
       fresh_store.

End StateManagerScenarios.

(** * Properties *)

Ltac eff_unfold :=
  unfold Eff.bind, Eff.try_catch, Eff.gets, Eff.ret, Eff.throw, Eff.modify in *.

(** Split on whatever the goal branches on, innermost first. *)
Ltac split_match :=
  match goal with
  | |- context [match ?x with _ => _ end] =>
      lazymatch x with
      | context [match _ with _ => _ end] => fail
      | _ => destruct x eqn:?
      end
  end.

Ltac split_all := repeat (simpl; split_match).

(** ** The heap and its JSON read-back *)

Section Heap.
Import JS.


Lemma json_ind' (P : json -> Prop) :
  P JNull -> (forall b, P (JBool b)) -> (forall n, P (JNum n)) -> (forall s, P (JStr s)) ->
  (forall ps, Forall (fun kt => P kt.2) ps -> P (JObj ps)) ->
  forall t, P t.
Proof.
  intros Hnull Hbool Hnum Hstr Hobj. fix IH 1. intros [|b|n|s|ps].
  - exact Hnull.
  - exact (Hbool b).
  - exact (Hnum n).
  - exact (Hstr s).
  - apply Hobj. induction ps as [|[k t] ps IHps]; constructor.
    + exact (IH t).
    + exact IHps.
Qed.

Lemma alloc_obj_unfold ps h :
  alloc (JObj ps) h = let '(h1, o) := alloc_props ps h in alloc_obj o h1.
Proof. reflexivity. Qed.

Lemma view_props_ext (f g : val -> option json) o ts :
  (forall k v t, (k, v) ∈ o -> f v = Some t -> g v = Some t) ->
  view_props f o = Some ts -> view_props g o = Some ts.
Proof.
  revert ts. induction o as [|[k v] o IH]; intros ts Hfg; [done|].
  assert (IH' : forall ts, view_props f o = Some ts -> view_props g o = Some ts).
  { intros ts' H. apply IH; [|done]. intros. eapply Hfg; [right|]; eauto. }
  assert (Hv : forall t, f v = Some t -> g v = Some t).
  { intros t. apply (Hfg k). left. }
  simpl. destruct v; try apply IH';
    (destruct (f _) as [t|]; [|discriminate];
     destruct (view_props f o) as [ts'|]; [|discriminate];
     intros [= <-]; rewrite (Hv t eq_refl), (IH' ts' eq_refl); reflexivity).
Qed.

(** Reading survives allocation and more fuel. *)
Lemma view_weaken n m h h' v t :
  n <= m -> h `prefix_of` h' -> view n h v = Some t -> view m h' v = Some t.
Proof.
  revert m v t. induction n as [|n IH]; intros m v t Hnm Hpre.
  - destruct v; simpl; try done; intros [= <-]; destruct m; done.
  - destruct m as [|m]; [lia|]. destruct v; simpl; try done.
    destruct (h !! l) as [o|] eqn:El; [|done].
    rewrite (prefix_lookup_Some _ _ _ _ El Hpre).
    destruct (view_props (view n h) o) as [ts|] eqn:Ev; [|discriminate].
    intros [= <-]. erewrite view_props_ext; [done| |exact Ev].
    intros k v t' _. apply IH; [lia|done].
Qed.

Lemma JSON_view_prefix h h' v t :
  h `prefix_of` h' -> JSON_view h v = Some t -> JSON_view h' v = Some t.
Proof.
  intros Hpre. apply view_weaken; [|done].
  apply prefix_length in Hpre. lia.
Qed.


Lemma depth_obj ps : depth (JObj ps) = S (depth_props ps).
Proof. reflexivity. Qed.

Lemma view_props_cons f k v o t :
  f VUndef = None -> f v = Some t ->
  view_props f ((k, v) :: o) =
    match view_props f o with Some ts => Some ((k, t) :: ts) | None => None end.
Proof. intros Hu Hv. destruct v; simpl; rewrite ?Hv; try reflexivity. congruence. Qed.

Lemma view_undef n h : view n h VUndef = None.
Proof. destruct n; reflexivity. Qed.

Lemma view_props_depth (f : val -> option json) n o ps :
  (forall v t, f v = Some t -> depth t <= n) ->
  view_props f o = Some ps -> depth_props ps <= n.
Proof.
  intros Hf. revert ps. induction o as [|[k v] o IH]; intros ps; simpl.
  - intros [= <-]. simpl. lia.
  - destruct v; try apply IH;
      (destruct (f _) as [t|] eqn:Ef; [|discriminate];
       destruct (view_props f o) as [ts|]; [|discriminate];
       intros [= <-]; simpl; specialize (Hf _ _ Ef); specialize (IH _ eq_refl); lia).
Qed.

Lemma view_depth n h v t : view n h v = Some t -> depth t <= n.
Proof.
  revert v t. induction n as [|n IH]; intros v t.
  - destruct v; simpl; try discriminate; intros [= <-]; simpl; lia.
  - destruct v; simpl; try discriminate; try (intros [= <-]; simpl; lia).
    destruct (h !! l) as [o|]; [|discriminate].
    destruct (view_props (view n h) o) as [ps|] eqn:E; [|discriminate].
    intros [= <-]. rewrite depth_obj.
    pose proof (view_props_depth _ n o ps IH E). lia.
Qed.

(** What [alloc] builds: the heap grows at its end, the new objects refer to
    new objects only, and the value reads back as the tree. *)
Lemma alloc_spec t :
  forall h h' v, alloc t h = (h', v) ->
    exists k, h' = h ++ k /\
      (forall l, v = VRef l -> length h <= l) /\ v <> VUndef /\
      closed_above (length h) k /\
      (forall n, depth t <= n -> view n h' v = Some t).
Proof.
  induction t as [|b|z|s|ps IH] using json_ind'; intros h h' v;
    try (intros [= <- <-]; exists []; rewrite app_nil_r;
         repeat split; try discriminate; try constructor; intros n _; destruct n; reflexivity).
  rewrite alloc_obj_unfold.
  assert (Hps : forall h h' o, alloc_props ps h = (h', o) ->
    exists k, h' = h ++ k /\
      (forall key x, (key, VRef x) ∈ o -> length h <= x) /\
      closed_above (length h) k /\
      (forall n, depth_props ps <= n -> view_props (view n h') o = Some ps)).
  { clear h h' v. induction IH as [|[key t] ps Ht _ IHps]; intros h h' o; simpl.
    - intros [= <- <-]. exists []. rewrite app_nil_r. repeat split; try constructor.
      intros ?? H. inversion H.
    - destruct (alloc t h) as [h1 v] eqn:E1.
      destruct (alloc_props ps h1) as [h2 o'] eqn:E2. intros [= <- <-].
      destruct (Ht _ _ _ E1) as (k1 & -> & Hv & Hu & Hc1 & Hr1).
      destruct (IHps _ _ _ E2) as (k2 & -> & Ho & Hc2 & Hr2).
      rewrite length_app in Ho, Hc2.
      exists (k1 ++ k2). rewrite app_assoc. repeat split.
      + intros key' x [Heq|Hin]%elem_of_cons.
        * injection Heq as -> <-. by apply Hv.
        * specialize (Ho _ _ Hin). lia.
      + apply Forall_app. split; [done|].
        eapply Forall_impl; [exact Hc2|]. intros o0 H0 key' x Hin.
        specialize (H0 _ _ Hin). lia.
      + intros n Hn.
        change (depth t `max` depth_props ps <= n) in Hn.
        rewrite (view_props_cons _ _ _ _ t); [| apply view_undef |].
        * rewrite Hr2; [done|lia].
        * eapply view_weaken; [reflexivity| |apply Hr1; simpl; lia]. by apply prefix_app_r. }
  destruct (alloc_props ps h) as [h1 o] eqn:E. unfold alloc_obj. intros [= <- <-].
  destruct (Hps _ _ _ E) as (k & -> & Ho & Hc & Hr).
  exists (k ++ [o]). rewrite app_assoc. repeat split; try discriminate.
  - intros l [= <-]. rewrite length_app. lia.
  - apply Forall_app. split; [done|]. constructor; [|constructor]. exact Ho.
  - intros [|n] Hn; rewrite depth_obj in Hn; [lia|]. simpl.
    rewrite lookup_app_r, Nat.sub_diag by reflexivity. simpl.
    erewrite view_props_ext; [reflexivity| |apply (Hr n); lia].
    intros ??? _. apply view_weaken; [lia|]. by apply prefix_app_r.
Qed.

(** The deep copy reads back as the original, in a heap that only grew. *)
Lemma JSON_roundtrip_spec h v t :
  JSON_view h v = Some t ->
  exists k c, JSON_roundtrip h v = inl (h ++ k, c) /\
    JSON_view (h ++ k) c = Some t /\
    (forall l, c = VRef l -> length h <= l) /\
    closed_above (length h) k.
Proof.
  intros Hv. unfold JSON_roundtrip. rewrite Hv.
  destruct (alloc t h) as [h' c] eqn:E.
  destruct (alloc_spec t _ _ _ E) as (k & -> & Hl & _ & Hc & Hr).
  exists k, c. replace (match v with VUndef => _ | _ => inl (h ++ k, c) end)
    with (inl (B := err) (h ++ k, c)).
  - repeat split; try done. unfold JSON_view in *.
    eapply view_weaken; [| reflexivity | apply Hr, (view_depth _ _ _ _ Hv)].
    rewrite length_app. lia.
  - destruct v; try reflexivity. unfold JSON_view in Hv. simpl in Hv. discriminate.
Qed.

Lemma JSON_roundtrip_fails h v :
  JSON_view h v = None -> exists e, JSON_roundtrip h v = inr e.
Proof. intros Hv. unfold JSON_roundtrip. rewrite Hv. destruct v; eauto. Qed.

(** A shallow copy of an object reads back as the object. *)
Lemma JSON_view_shallow h l o t :
  h !! l = Some o -> JSON_view h (VRef l) = Some t ->
  JSON_view (h ++ [o]) (VRef (length h)) = Some t.
Proof.
  unfold JSON_view. simpl. intros -> Hv.
  rewrite lookup_app_r, Nat.sub_diag by reflexivity. simpl.
  destruct (view_props (view (length h) h) o) as [ts|] eqn:E; [|discriminate].
  erewrite view_props_ext; [exact Hv| |exact E].
  intros ??? _. apply view_weaken; [rewrite length_app; lia|]. by apply prefix_app_r.
Qed.

(** From a new value, through new objects that refer to new objects only,
    only new locations are reached. *)
Lemma reach_closed_above h k v l :
  closed_above (length h) k ->
  (forall l0, v = VRef l0 -> length h <= l0) ->
  reach (h ++ k) v l -> length h <= l.
Proof.
  intros Hc Hv Hr. induction Hr as [l|l o key x l' Hl Hin _ IH]; [by apply Hv|].
  apply IH. intros l0 ->.
  specialize (Hv l eq_refl).
  rewrite lookup_app_r in Hl by done.
  unfold closed_above in Hc. rewrite Forall_forall in Hc.
  eapply Hc; [|exact Hin]. eapply list_elem_of_lookup_2. exact Hl.
Qed.

(** A write to a new location leaves the old part of the heap as it was. *)
Lemma set_prop_above h k l key x :
  length h <= l -> h `prefix_of` set_prop l key x (h ++ k).
Proof.
  intros Hl. unfold set_prop. rewrite alter_app_r_alt by done. by apply prefix_app_r.
Qed.

(** Every tree of a read object is the reading of one of its properties. *)
Lemma view_props_inv (f : val -> option json) o ts k t :
  view_props f o = Some ts -> (k, t) ∈ ts -> exists v, (k, v) ∈ o /\ f v = Some t.
Proof.
  revert ts. induction o as [|[k0 v0] o IH]; intros ts; simpl.
  - intros [= <-] H. inversion H.
  - assert (Hrest : forall ts', view_props f o = Some ts' -> (k, t) ∈ ts' ->
                      exists v, (k, v) ∈ (k0, v0) :: o /\ f v = Some t).
    { intros ts' H1 H2. destruct (IH _ H1 H2) as (v & Hin & Hv).
      exists v. split; [by right|exact Hv]. }
    destruct v0; try (intros H1 H2; exact (Hrest _ H1 H2));
      (destruct (f _) as [t0|] eqn:Ef; [|discriminate];
       destruct (view_props f o) as [ts'|]; [|discriminate];
       intros [= <-] [Heq|Hin]%elem_of_cons;
       [ injection Heq as -> ->; eexists; split; [left|exact Ef]
       | exact (Hrest _ eq_refl Hin) ]).
Qed.

Lemma depth_props_max ps :
  depth_props ps = 0 \/ exists k t, (k, t) ∈ ps /\ depth t = depth_props ps.
Proof.
  induction ps as [|[k t] ps IH]; [by left|]. simpl.
  destruct (Nat.max_spec (depth t) (depth_props ps)) as [[Hlt ->]|[Hle ->]].
  - destruct IH as [H0|(k' & t' & Hin & Hd)]; [lia|].
    right. exists k', t'. split; [by right|exact Hd].
  - right. exists k, t. split; [left|reflexivity].
Qed.

(** The fuel a reading needs is the depth of the tree. *)
Lemma view_at_depth n h v t : view n h v = Some t -> view (depth t) h v = Some t.
Proof.
  revert v t. induction n as [|n IH]; intros v t.
  - destruct v; simpl; try discriminate; intros [= <-]; reflexivity.
  - destruct v; simpl; try discriminate; try (intros [= <-]; reflexivity).
    destruct (h !! l) as [o|] eqn:El; [|discriminate].
    destruct (view_props (view n h) o) as [ps|] eqn:E; [|discriminate].
    intros [= <-]. rewrite depth_obj. simpl. rewrite El.
    assert (G : forall o', (forall k v, (k, v) ∈ o' -> (k, v) ∈ o) ->
              forall ps', view_props (view n h) o' = Some ps' ->
              forall d, depth_props ps' <= d ->
              view_props (view d h) o' = Some ps').
    { clear E. induction o' as [|[k v] o' IHo]; intros Hsub ps'; simpl.
      - intros [= <-]. reflexivity.
      - assert (Hsub' : forall k0 v0, (k0, v0) ∈ o' -> (k0, v0) ∈ o)
          by (intros; apply Hsub; by right).
        destruct v; try (apply IHo; exact Hsub');
          (destruct (view n h _) as [t0|] eqn:Ev; [|discriminate];
           destruct (view_props (view n h) o') as [ts|] eqn:Eo; [|discriminate];
           intros [= <-] d Hd; simpl in Hd;
           rewrite (view_weaken (depth t0) d h h _ t0 ltac:(lia) ltac:(reflexivity)
                      (IH _ _ Ev)),
                   (IHo Hsub' ts eq_refl d ltac:(lia)); reflexivity). }
    rewrite (G o ltac:(auto) ps E (depth_props ps) ltac:(lia)). reflexivity.
Qed.

(** A reading of depth [d] goes through [d] objects, one inside the other,
    all different: a chain that repeated one would read it as two trees of
    different depths. *)
Lemma view_chain n h v t :
  view n h v = Some t ->
  exists ls : list nat,
    length ls = depth t /\ NoDup ls /\
    forall l, l ∈ ls ->
      l < length h /\ exists m t', view m h (VRef l) = Some t' /\ depth t' <= depth t.
Proof.
  revert v t. induction n as [|n IH]; intros v t.
  - destruct v; simpl; try discriminate; intros [= <-]; exists [];
      (split; [reflexivity|split; [constructor|intros l H; inversion H]]).
  - destruct v; simpl; try discriminate;
      try (intros [= <-]; exists [];
           split; [reflexivity|split; [constructor|intros l' H; inversion H]]).
    destruct (h !! l) as [o|] eqn:El; [|discriminate].
    destruct (view_props (view n h) o) as [ps|] eqn:E; [|discriminate].
    intros [= <-]. rewrite depth_obj.
    assert (Hl : l < length h) by (eapply lookup_lt_Some, El).
    assert (Hself : view (S n) h (VRef l) = Some (JObj ps))
      by (simpl; rewrite El, E; reflexivity).
    destruct (depth_props_max ps) as [H0|(k & t' & Hin & Hd)].
    + exists [l]. rewrite H0. split; [reflexivity|]. split; [apply NoDup_singleton|].
      intros l' ->%list_elem_of_singleton. split; [exact Hl|].
      exists (S n), (JObj ps). split; [exact Hself|]. rewrite depth_obj. lia.
    + destruct (view_props_inv _ _ _ _ _ E Hin) as (x & _ & Hx).
      destruct (IH _ _ Hx) as (ls & Hlen & Hnd & Hall).
      exists (l :: ls). split; [simpl; lia|]. split.
      * constructor; [|exact Hnd]. intros Hmem.
        destruct (Hall _ Hmem) as (_ & m & t'' & Hv & Hdep).
        pose proof (view_weaken m (m `max` S n) h h _ _ ltac:(lia) ltac:(reflexivity) Hv) as V1.
        pose proof (view_weaken (S n) (m `max` S n) h h _ _ ltac:(lia) ltac:(reflexivity) Hself)
          as V2.
        rewrite V1 in V2. injection V2 as ->. rewrite depth_obj in Hdep. lia.
      * intros l' [->|Hmem]%elem_of_cons.
        -- split; [exact Hl|]. exists (S n), (JObj ps). split; [exact Hself|].
           rewrite depth_obj. lia.
        -- destruct (Hall _ Hmem) as (Hb & m & t'' & Hv & Hdep).
           split; [exact Hb|]. exists m, t''. split; [exact Hv|lia].
Qed.

(** The fuel of [JSON_view] suffices: whatever some fuel reads, it reads. *)
Lemma JSON_view_complete n h v t : view n h v = Some t -> JSON_view h v = Some t.
Proof.
  intros Hv. destruct (view_chain _ _ _ _ Hv) as (ls & Hlen & Hnd & Hall).
  assert (Hle : length ls <= length h).
  { assert (G : length ls <= length (seq 0 (length h))).
    { apply NoDup_incl_length.
      - apply NoDup_ListNoDup, Hnd.
      - intros l Hin. apply in_seq. apply list_elem_of_In in Hin.
        destruct (Hall _ Hin) as [Hb _]. lia. }
    rewrite length_seq in G. exact G. }
  unfold JSON_view. eapply view_weaken; [|reflexivity|apply (view_at_depth _ _ _ _ Hv)]. lia.
Qed.

(** Reading a property after a write. *)
Lemma get_own_assign o k v k' :
  get_own (assign o (k, v)) k' = if String.eqb k k' then Some v else get_own o k'.
Proof.
  induction o as [|[k0 v0] o IH]; simpl.
  - destruct (String.eqb k k'); reflexivity.
  - destruct (String.eqb k0 k) eqn:E0; simpl.
    + apply String.eqb_eq in E0. subst k0. destruct (String.eqb k k'); reflexivity.
    + rewrite IH. destruct (String.eqb k0 k') eqn:E1; [|reflexivity].
      apply String.eqb_eq in E1. subst k0. rewrite String.eqb_sym, E0. reflexivity.
Qed.

End Heap.

(** ** The persistence adapter *)

Section Persistence.
Import JS Eff PersistenceMiddleware PersistenceScenarios.
Local Open Scope eff_scope.

(** [saveState] contains its failures: it always returns a flag, and leaves
    the instance as it was. *)
Lemma saveState_total state w :
  exists b w', saveState state w = (Ok b, w') /\ this w' = this w.
Proof.
  unfold saveState, read, console_error, JSON_stringify, toString, fs_writeFile.
  eff_unfold. simpl.
  split_all; simpl; eauto.
Qed.

(** The flag of [backupState] is the outcome of the copy alone: the flag of
    the save that precedes it is dropped. *)
Lemma backupState_result state w :
  (backupState state w).1 =
    match fs_copyFile (filePath (this w)) (filePath (this w) +:+ ".backup")
            (saveState state w).2 with
    | (Ok _, _) => Ok true
    | (Throw _, _) => Ok false
    end.
Proof.
  destruct (saveState_total state w) as (b & w1 & E & Hthis).
  unfold backupState, read, console_error. eff_unfold. simpl.
  rewrite E. simpl. rewrite Hthis.
  destruct (fs_copyFile _ _ w1) as [[[]|e] w2]; reflexivity.
Qed.

(** C1 (the code departs from it): [backupState] is to return false when the
    save fails.  Here the save of the cyclic state fails, [saveState] says so,
    and yet [backupState] returns true, having copied the file of the earlier
    save to the backup. *)
Theorem backupState_true_after_failed_save :
  (saveState (VRef 0) saved_world).1 = Ok false /\
  (backupState (VRef 0) saved_world).1 = Ok true /\
  files (fs (backupState (VRef 0) saved_world).2) !! "test-state.json.backup"
    = Some saved_text.
Proof. vm_compute. auto. Qed.

(** [loadState] contains its failures too. *)
Lemma loadState_total w : exists v w', loadState w = (Ok v, w').
Proof.
  unfold loadState, parseFileContent, read, console_error, fs_readFile, JSON_parse.
  eff_unfold. simpl.
  destruct (refuses (fs w) OpRead (filePath (this w))); simpl; eauto.
  destruct (files (fs w) !! filePath (this w)); simpl; eauto.
  destruct (String.eqb (fileType (options (this w))) "json"); simpl; eauto.
  destruct (JSON.parse s); simpl; eauto.
  destruct (alloc j (mem w)); simpl; eauto.
Qed.

(** C9: [loadStateWithValidation] returns null whenever the loaded value is
    falsy, without consulting [validateState]; a value other than null that it
    returns is the loaded value, and is truthy. *)
Theorem loadStateWithValidation_falsy_is_null w v w1 :
  loadState w = (Ok v, w1) ->
  (truthy v = false -> loadStateWithValidation w = (Ok VNull, w1)) /\
  (forall r w2, loadStateWithValidation w = (Ok r, w2) -> r <> VNull ->
                r = v /\ truthy r = true /\ (validateState v w1).1 = Ok true).
Proof.
  intros E. unfold loadStateWithValidation. eff_unfold. rewrite E. split.
  - intros ->. reflexivity.
  - intros r w2. destruct (truthy v) eqn:T.
    + destruct (validateState v w1) as [[[]|e] w3] eqn:V; simpl;
        intros [= <- <-] N; try congruence. auto.
    + intros [= <- <-] N. congruence.
Qed.

Lemma loadStateWithValidation_falsy_witness :
  (loadState zero_world).1 = Ok (VNum 0) /\
  (validateState (VNum 0) (loadState zero_world).2).1 = Ok true /\
  (loadStateWithValidation zero_world).1 = Ok VNull.
Proof.
  split; [reflexivity|]. split; [reflexivity|].
  pose proof (loadStateWithValidation_falsy_is_null zero_world (VNum 0)
                (loadState zero_world).2 eq_refl) as [H _].
  rewrite (H eq_refl). reflexivity.
Defined.

(** C10: when the file is missing, or [stat] fails for another reason,
    [getFileSize] returns 0 and [isFileEmpty] returns true, which is what an
    existing file of length zero gives. *)
Theorem getFileSize_zero_when_stat_fails w :
  (files (fs w) !! filePath (this w) = None \/
   exists e w1, fs_stat (filePath (this w)) w = (Throw e, w1)) ->
  (getFileSize w).1 = Ok 0 /\ (isFileEmpty w).1 = Ok true /\
  (forall w0, files (fs w0) !! filePath (this w0) = Some "" ->
              refuses (fs w0) OpStat (filePath (this w0)) = false ->
              (getFileSize w0).1 = (getFileSize w).1 /\
              (isFileEmpty w0).1 = (isFileEmpty w).1).
Proof.
  intros H.
  assert (exists e w1, fs_stat (filePath (this w)) w = (Throw e, w1)) as (e & w1 & E).
  { destruct H as [H|H]; [|exact H]. unfold fs_stat. rewrite H.
    destruct (refuses _ _ _); eauto. }
  assert (G : (getFileSize w).1 = Ok 0).
  { unfold getFileSize, read, console_error. eff_unfold. simpl. rewrite E. reflexivity. }
  assert (I : (isFileEmpty w).1 = Ok true).
  { unfold isFileEmpty. eff_unfold. destruct (getFileSize w) as [[n|e'] w2]; simpl in *.
    - injection G as ->. reflexivity.
    - discriminate. }
  split; [exact G|]. split; [exact I|].
  intros w0 F R. rewrite G, I.
  unfold isFileEmpty, getFileSize, read, console_error, fs_stat. eff_unfold. simpl.
  rewrite R, F. simpl. auto.
Qed.

Lemma getFileSize_zero_witness :
  (getFileSize empty_directory).1 = Ok 0 /\ (isFileEmpty empty_directory).1 = Ok true.
Proof.
  destruct (getFileSize_zero_when_stat_fails empty_directory) as (G & I & _).
  - left. reflexivity.
  - split; assumption.
Defined.

End Persistence.
(** ** The state container: what a run leaves alone *)

Import JS Eff StateManager.
Local Open Scope nat_scope.
Local Open Scope eff_scope.


Lemma steps_to_refl w : steps_to w w [].
Proof. unfold steps_to. rewrite app_nil_r. repeat split; done. Qed.

Lemma steps_to_trans w1 w2 w3 d1 d2 :
  steps_to w1 w2 d1 -> steps_to w2 w3 d2 -> steps_to w1 w3 (d1 ++ d2).
Proof.
  intros (A1 & A2 & A3 & A4 & A5 & A6 & A7) (B1 & B2 & B3 & B4 & B5 & B6 & B7).
  unfold steps_to. rewrite B1, B2, B4, B5, B6, B7, A4, app_assoc.
  repeat split; try done. by etrans.
Qed.

Lemma framed_ret {A} (a : A) : framed (ret a).
Proof. intros w r w' [= <- <-]. eexists. apply steps_to_refl. Qed.

Lemma framed_throw {A} e : framed (throw (A := A) e).
Proof. intros w r w' [= <- <-]. eexists. apply steps_to_refl. Qed.

Lemma framed_read {A} (f : instance -> A) : framed (read f).
Proof. intros w r w' [= <- <-]. eexists. apply steps_to_refl. Qed.

Lemma framed_bind {A B} (m : M world A) (k : A -> M world B) :
  framed m -> (forall a, framed (k a)) -> framed (bind m k).
Proof.
  intros Hm Hk w r w'. unfold bind.
  destruct (m w) as [[a|e] w1] eqn:E1; destruct (Hm _ _ _ E1) as [d1 S1].
  - intros E2. destruct (Hk _ _ _ _ E2) as [d2 S2]. eexists. by eapply steps_to_trans.
  - intros [= <- <-]. eauto.
Qed.

Lemma framed_try_catch {A} (m : M world A) (k : err -> M world A) :
  framed m -> (forall e, framed (k e)) -> framed (try_catch m k).
Proof.
  intros Hm Hk w r w'. unfold try_catch.
  destruct (m w) as [[a|e] w1] eqn:E1; destruct (Hm _ _ _ E1) as [d1 S1].
  - intros [= <- <-]. eauto.
  - intros E2. destruct (Hk _ _ _ _ E2) as [d2 S2]. eexists. by eapply steps_to_trans.
Qed.

Lemma framed_for_each {A} (l : list A) (body : A -> M world unit) :
  (forall x, framed (body x)) -> framed (for_each l body).
Proof.
  intros Hb. induction l as [|x l IH]; simpl.
  - apply framed_ret.
  - apply framed_bind; auto.
Qed.

Lemma framed_call f args : framed (call f args).
Proof.
  intros w r w'. unfold call.
  destruct (behaviour w f (mem w) args); intros [= <- <-];
    exists [Called f args]; repeat split; done.
Qed.

Lemma framed_console_error e : framed (console_error e).
Proof. intros w r w' [= <- <-]. exists [ConsoleError e]. repeat split; done. Qed.

Lemma framed_handleError e : framed (handleError e).
Proof.
  unfold handleError. apply framed_bind; [apply framed_read|].
  intros [h|]; [apply framed_call|apply framed_console_error].
Qed.

Lemma framed_JSON_clone v : framed (JSON_clone v).
Proof.
  intros w r w'. unfold JSON_clone.
  destruct (JSON_view (mem w) v) as [t|] eqn:E.
  - destruct (JSON_roundtrip_spec _ _ _ E) as (k & c & -> & _).
    intros [= <- <-]. exists []. unfold steps_to. simpl. rewrite app_nil_r.
    repeat split; try done. by apply prefix_app_r.
  - destruct (JSON_roundtrip_fails _ _ E) as [e ->].
    intros [= <- <-]. eexists; apply steps_to_refl.
Qed.

Lemma framed_spread vs : framed (spread vs).
Proof.
  intros w r w'. unfold spread, alloc_obj. intros [= <- <-].
  exists []. unfold steps_to. simpl. rewrite app_nil_r.
  repeat split; try done. by apply prefix_app_r.
Qed.

Lemma framed_copy v : framed (copy v).
Proof.
  unfold copy. apply framed_bind; [apply framed_read|].
  intros []; [apply framed_JSON_clone|apply framed_spread].
Qed.

Lemma framed_get_prop v k : framed (get_prop v k).
Proof.
  intros w r w'. unfold get_prop.
  destruct v; try destruct (String.eqb k "length"); intros [= <- <-];
    eexists; apply steps_to_refl.
Qed.

Create HintDb framed.
#[export] Hint Resolve framed_ret framed_throw framed_read framed_bind framed_try_catch
  framed_for_each framed_call framed_console_error framed_handleError
  framed_JSON_clone framed_spread framed_copy framed_get_prop : framed.

Ltac framed_step :=
  match goal with
  | |- forall _, _ => intro
  | |- framed (match ?v with _ => _ end) => destruct v
  | |- framed (Eff.bind _ _) => apply framed_bind
  | |- framed (Eff.try_catch _ _) => apply framed_try_catch
  | |- framed (Eff.for_each _ _) => apply framed_for_each
  | |- framed _ => solve [auto with framed]
  end.

Ltac framed_auto := repeat framed_step.

Lemma framed_getState : framed getState.
Proof. unfold getState. auto with framed. Qed.

Lemma framed_applyMiddlewares p n : framed (applyMiddlewares p n).
Proof. unfold applyMiddlewares. auto 10 with framed. Qed.

Lemma framed_notifyListeners : framed notifyListeners.
Proof.
  pose proof framed_getState. unfold notifyListeners. framed_auto.
Qed.

Lemma framed_persistStateToLocalStorage : framed persistStateToLocalStorage.
Proof.
  unfold persistStateToLocalStorage. apply framed_try_catch; [|auto with framed].
  intros w r w'. destruct (localStorage w); [|intros [= <- <-]; eexists; apply steps_to_refl].
  destruct (state (this w)); try destruct (JSON_view _ _);
    intros [= <- <-]; exists []; unfold steps_to; simpl; rewrite app_nil_r; done.
Qed.


#[export] Hint Resolve framed_getState framed_applyMiddlewares framed_notifyListeners
  framed_persistStateToLocalStorage : framed.

(** A framed run keeps every field of the instance. *)
Lemma framed_keeps {X A} (f : instance -> X) (m : M world A) : framed m -> keeps f m.
Proof. intros Hm w r w' E. destruct (Hm _ _ _ E) as (d & -> & _). reflexivity. Qed.

Lemma keeps_bind {X A B} (f : instance -> X) (m : M world A) (k : A -> M world B) :
  keeps f m -> (forall a, keeps f (k a)) -> keeps f (bind m k).
Proof.
  intros Hm Hk w r w'. unfold bind.
  destruct (m w) as [[a|e] w1] eqn:E1; rewrite <- (Hm _ _ _ E1).
  - apply Hk.
  - intros [= <- <-]. reflexivity.
Qed.

Lemma keeps_try_catch {X A} (f : instance -> X) (m : M world A) (k : err -> M world A) :
  keeps f m -> (forall e, keeps f (k e)) -> keeps f (try_catch m k).
Proof.
  intros Hm Hk w r w'. unfold try_catch.
  destruct (m w) as [[a|e] w1] eqn:E1; rewrite <- (Hm _ _ _ E1).
  - intros [= <- <-]. reflexivity.
  - apply Hk.
Qed.

Lemma keeps_upd {X} (f : instance -> X) (g : instance -> instance) :
  (forall i, f (g i) = f i) -> keeps f (upd g).
Proof. intros H w r w' [= <- <-]. apply H. Qed.

Ltac keeps_step :=
  match goal with
  | |- forall _, _ => intro
  | |- keeps _ (match ?v with _ => _ end) => destruct v
  | |- keeps _ (Eff.bind _ _) => apply keeps_bind
  | |- keeps _ (Eff.try_catch _ _) => apply keeps_try_catch
  | |- keeps _ (upd _) => apply keeps_upd; intro; reflexivity
  | |- keeps _ _ => solve [apply framed_keeps; auto with framed]
  end.

Ltac keeps_auto := repeat keeps_step.

(** ** History: the redo stack *)

Import StateManagerScenarios.

Lemma mergeState_keeps_history p :
  keeps undoStack (mergeState p) /\ keeps redoStack (mergeState p).
Proof. split; unfold mergeState; keeps_auto. Qed.

Lemma patchState_keeps_history p :
  keeps undoStack (patchState p) /\ keeps redoStack (patchState p).
Proof. split; unfold patchState; keeps_auto. Qed.

Lemma applyStateUpdate_no_history next :
  keeps undoStack (applyStateUpdate next false) /\ keeps redoStack (applyStateUpdate next false).
Proof. split; unfold applyStateUpdate; keeps_auto. Qed.

(** A commit that records history ends with an empty redo stack, unless it
    was abandoned before the instance was touched. *)
Lemma applyStateUpdate_clears_redo next w r w' :
  applyStateUpdate next true w = (r, w') ->
  redoStack (this w') = [] \/ this w' = this w.
Proof.
  unfold applyStateUpdate.
  set (rest := (let* s := read state in let* c := copy s in upd (set_prevState c) >> _)%eff).
  assert (Hrest : keeps redoStack rest) by (unfold rest; keeps_auto).
  unfold try_catch, bind at 1 2. unfold read at 1, gets.
  destruct (applyMiddlewares _ _ w) as [[[]|e] w1] eqn:E1;
    destruct (framed_applyMiddlewares _ _ _ _ _ E1) as (d1 & T1 & _).
  2: { intros E. destruct (framed_handleError _ _ _ _ E) as (d & -> & _). auto. }
  unfold bind at 1. unfold bind at 1 2 3. unfold read at 1, gets.
  destruct (copy (state (this w1)) w1) as [[c|e] w2] eqn:E2;
    destruct (framed_copy _ _ _ _ E2) as (d2 & T2 & _).
  2: { intros E. destruct (framed_handleError _ _ _ _ E) as (d & -> & _).
       right. congruence. }
  unfold upd, modify.
  destruct (rest _) as [[[]|e] w3] eqn:E3; apply Hrest in E3; simpl in E3.
  - intros [= <- <-]. auto.
  - intros E. destruct (framed_handleError _ _ _ _ E) as (d & -> & _). auto.
Qed.

(** C2, as amended: a commit that records history, [setState] with
    [addToUndoStack] set and so the flush of a batch, leaves the redo stack
    empty, unless it was abandoned with the state and both stacks untouched;
    [mergeState], [patchState] and [setState] without [addToUndoStack] leave
    both stacks as they were. *)
Theorem redo_cleared_by_history_commit :
  (forall w newState,
     let w' := exec (setState newState true false) w in
     redoStack (this w') = [] \/ this w' = this w) /\
  (forall w,
     let w' := exec endBatchUpdate w in
     redoStack (this w') = [] \/
     (state (this w') = state (this w) /\ undoStack (this w') = undoStack (this w) /\
      redoStack (this w') = redoStack (this w))) /\
  (forall w p,
     let w' := exec (mergeState p) w in
     undoStack (this w') = undoStack (this w) /\ redoStack (this w') = redoStack (this w)) /\
  (forall w p,
     let w' := exec (patchState p) w in
     undoStack (this w') = undoStack (this w) /\ redoStack (this w') = redoStack (this w)) /\
  (forall w newState,
     let w' := exec (setState newState false false) w in
     undoStack (this w') = undoStack (this w) /\ redoStack (this w') = redoStack (this w)).
Proof.
  assert (Hset : forall w newState r w',
             setState newState true false w = (r, w') ->
             redoStack (this w') = [] \/ this w' = this w).
  { intros w newState r w'. unfold setState, try_catch, bind.
    destruct (copy newState w) as [[c|e] w1] eqn:E1;
      destruct (framed_copy _ _ _ _ E1) as (d1 & T1 & _).
    - destruct (applyStateUpdate c true w1) as [[[]|e] w2] eqn:E2;
        destruct (applyStateUpdate_clears_redo _ _ _ _ E2) as [H|H].
      + intros [= <- <-]. auto.
      + intros [= <- <-]. right. congruence.
      + intros E. destruct (framed_handleError _ _ _ _ E) as (d & -> & _). auto.
      + intros E. destruct (framed_handleError _ _ _ _ E) as (d & -> & _).
        right. congruence.
    - intros E. destruct (framed_handleError _ _ _ _ E) as (d & -> & _). auto. }
  split; [|split; [|split; [|split]]].
  - intros w newState w'. unfold w', exec.
    destruct (setState newState true false w) as [r w1] eqn:E. eapply Hset, E.
  - intros w w'. unfold w', exec, endBatchUpdate, bind, upd, modify, read, gets. simpl.
    destruct (batchUpdateQueue (this w)) as [|p q] eqn:Q; simpl; [auto|].
    destruct (setState _ true false _) as [r w1] eqn:E.
    destruct (Hset _ _ _ _ E) as [H|H]; simpl; [auto|]. right. rewrite H. simpl. auto.
  - intros w p w'. unfold w', exec. destruct (mergeState p w) as [r w1] eqn:E.
    destruct (mergeState_keeps_history p) as [H1 H2]. split; [eapply H1|eapply H2]; exact E.
  - intros w p w'. unfold w', exec. destruct (patchState p w) as [r w1] eqn:E.
    destruct (patchState_keeps_history p) as [H1 H2]. split; [eapply H1|eapply H2]; exact E.
  - intros w ns w'. unfold w', exec. destruct (setState ns false false w) as [r w1] eqn:E.
    assert (keeps undoStack (setState ns false false) /\ keeps redoStack (setState ns false false))
      as [H1 H2].
    { split; unfold setState; keeps_auto; apply applyStateUpdate_no_history. }
    split; [eapply H1|eapply H2]; exact E.
Qed.

(** C2 as stated fails: after two commits and an undo, a merge is committed
    and the redo stack still holds its entry. *)
Lemma mergeState_keeps_redo_stack :
  let w := exec undo_then_merge fresh_store in
  JSON_view (mem w) (state (this w)) = Some (JObj [("count", JNum 1); ("b", JNum 2)]) /\
  (getRedoStackSize w).1 = Ok 1.
Proof. vm_compute. auto. Qed.

(** ** The state container with a handler that returns

    Under [handler_safe] every step of a commit is determined: these lemmas
    say what each method does to the world. *)

Lemma bind_ok {A B} (m : M world A) (k : A -> M world B) w a w1 :
  m w = (Ok a, w1) -> bind m k w = k a w1.
Proof. intros E. unfold bind. rewrite E. reflexivity. Qed.

Lemma try_ok {A} (m : M world A) (k : err -> M world A) w a w1 :
  m w = (Ok a, w1) -> try_catch m k w = (Ok a, w1).
Proof. intros E. unfold try_catch. rewrite E. reflexivity. Qed.

Lemma handler_safe_steps w w' d : steps_to w w' d -> handler_safe w -> handler_safe w'.
Proof. intros (T & B & _) H h. rewrite T, B. apply H. Qed.

Lemma copy_ok_steps w w' d v : steps_to w w' d -> copy_ok w v -> copy_ok w' v.
Proof.
  intros (T & _ & P & _) H. unfold copy_ok. rewrite T. intros D.
  destruct (H D) as [t Ht]. exists t. eapply JSON_view_prefix; eauto.
Qed.

Lemma set_trace_nil w : set_trace (trace w ++ []) w = w.
Proof. destruct w. unfold set_trace. simpl. rewrite app_nil_r. reflexivity. Qed.

Lemma notifications_app d1 d2 : notifications (d1 ++ d2) = notifications d1 ++ notifications d2.
Proof. apply omap_app. Qed.

Lemma middleware_calls_app d1 d2 :
  middleware_calls (d1 ++ d2) = middleware_calls d1 ++ middleware_calls d2.
Proof. apply omap_app. Qed.

Lemma sink_quiet w e : notifications [sink w e] = [] /\ middleware_calls [sink w e] = [].
Proof. unfold sink. destruct (errorHandler (this w)); split; reflexivity. Qed.

(** With a handler that returns, [handleError] reports and returns. *)
Lemma handleError_safe w e :
  handler_safe w -> handleError e w = (Ok tt, set_trace (trace w ++ [sink w e]) w).
Proof.
  intros H. unfold handleError, sink, bind, read, gets, call, console_error, modify.
  destruct (errorHandler (this w)) as [h|] eqn:E; [|reflexivity].
  rewrite (H h E). reflexivity.
Qed.

(** One guarded call: the callback is called, and what it throws is
    reported. *)
Lemma guarded_call_safe w f args :
  handler_safe w ->
  try_catch (call f args) handleError w =
    (Ok tt, set_trace (trace w ++ Called f args ::
                         match behaviour w f (mem w) args with
                         | Some e => [sink w e]
                         | None => []
                         end) w).
Proof.
  intros H. unfold try_catch, call.
  destruct (behaviour w f (mem w) args) as [e|] eqn:E.
  - rewrite handleError_safe by exact H. simpl. rewrite <- app_assoc. reflexivity.
  - reflexivity.
Qed.

(** C3, the pipeline: every enabled middleware runs, in order; what one
    throws is reported once, right after its call; nothing else changes. *)
Lemma applyMiddlewares_safe w prev next :
  handler_safe w ->
  applyMiddlewares prev next w =
    (Ok tt, set_trace (trace w ++ middleware_trace w prev next (enabledMiddlewares w)) w).
Proof.
  unfold applyMiddlewares, bind, read, gets.
  fold (enabledMiddlewares w). generalize (enabledMiddlewares w) as ms.
  intros ms. revert w. induction ms as [|m ms IH]; intros w H; simpl.
  - unfold ret. rewrite set_trace_nil. reflexivity.
  - rewrite (bind_ok _ _ _ _ _ (guarded_call_safe w m _ H)).
    etrans; [apply IH; exact H|].
    unfold set_trace, middleware_trace, sink. simpl. rewrite <- app_assoc. reflexivity.
Qed.

Lemma JSON_view_allocated h l t : JSON_view h (VRef l) = Some t -> l < length h.
Proof.
  unfold JSON_view. simpl. destruct (h !! l) as [o|] eqn:E; [|discriminate].
  intros _. eapply lookup_lt_Some, E.
Qed.

(** The copy of a value that can be copied: a new object, or in deep mode a
    new tree, which reads as the original does. *)
Lemma copy_spec w v :
  copy_ok w v ->
  exists k c, copy v w = (Ok c, set_mem (mem w ++ k) w) /\
    (forall l, c = VRef l -> length (mem w) <= l < length (mem w ++ k)) /\
    (forall t, JSON_view (mem w) v = Some t ->
               deepStateComparison (this w) = true \/ (exists l, v = VRef l) ->
               JSON_view (mem w ++ k) c = Some t) /\
    (deepStateComparison (this w) = true -> closed_above (length (mem w)) k) /\
    (deepStateComparison (this w) = false ->
       k = [props_of (mem w) v] /\ c = VRef (length (mem w))).
Proof.
  intros Hok. unfold copy, bind, read, gets, copy_ok in *.
  destruct (deepStateComparison (this w)) eqn:D.
  - destruct (Hok eq_refl) as [t Ht].
    destruct (JSON_roundtrip_spec _ _ _ Ht) as (k & c & E & Hc & Hl & Hcl).
    exists k, c. unfold JSON_clone. rewrite E.
    split; [reflexivity|]. split; [|split; [|split]].
    + intros l ->. split; [by apply Hl|]. eapply JSON_view_allocated, Hc.
    + intros t' Ht' _. congruence.
    + intros _. exact Hcl.
    + discriminate.
  - exists [props_of (mem w) v], (VRef (length (mem w))).
    unfold spread, alloc_obj. simpl.
    split; [reflexivity|]. split; [|split; [|split]].
    + intros l [= <-]. rewrite length_app. simpl. lia.
    + intros t Ht [|[l ->]]; [done|].
      pose proof (JSON_view_allocated _ _ _ Ht) as Hlt.
      destruct (lookup_lt_is_Some_2 _ _ Hlt) as [o Ho].
      simpl. rewrite Ho. simpl. by apply (JSON_view_shallow _ l).
    + discriminate.
    + auto.
Qed.

Lemma steps_to_alloc w k : steps_to w (set_mem (mem w ++ k) w) [].
Proof.
  unfold steps_to. simpl. rewrite app_nil_r. repeat split; try done. by apply prefix_app_r.
Qed.

Lemma steps_to_trace w d : steps_to w (set_trace (trace w ++ d) w) d.
Proof. unfold steps_to. simpl. repeat split; done. Qed.

(** One listener: it is called once with a copy of the state, and what it
    throws is reported. *)
Lemma notify_one_safe w l :
  handler_safe w -> copy_ok w (state (this w)) ->
  exists w' d,
    try_catch (let* s := getState in call l [AVal s]) handleError w = (Ok tt, w') /\
    steps_to w w' d /\ localStorage w' = localStorage w /\
    notifications d = [l] /\ middleware_calls d = [].
Proof.
  intros Hs Hc. destruct (copy_spec _ _ Hc) as (k & c & Ec & _).
  pose proof (steps_to_alloc w k) as S1.
  pose proof (handler_safe_steps _ _ _ S1 Hs) as Hs1.
  unfold try_catch, getState, bind at 1 2. unfold read at 1, gets. rewrite Ec.
  unfold call.
  match goal with |- context [behaviour ?a ?b ?c ?d] =>
    destruct (behaviour a b c d) as [e|] eqn:Eb end.
  - rewrite handleError_safe by exact Hs1. simpl.
    eexists _, ([Called l [AVal c]] ++ [_]). split; [reflexivity|].
    split; [|split; [reflexivity|]].
    + unfold steps_to. simpl. rewrite <- app_assoc. repeat split; try done.
      by apply prefix_app_r.
    + unfold sink. simpl. destruct (errorHandler (this w)); done.
  - eexists _, [Called l [AVal c]]. split; [reflexivity|].
    split; [|split; [reflexivity|done]].
    unfold steps_to. simpl. repeat split; try done. by apply prefix_app_r.
Qed.

(** The pass over the plain listeners: each is called once, in order. *)
Lemma notify_plain_safe ls : forall w,
  handler_safe w -> copy_ok w (state (this w)) ->
  exists w' d,
    for_each ls (fun listener =>
      try_catch (let* s := getState in call listener [AVal s]) handleError) w
      = (Ok tt, w') /\
    steps_to w w' d /\ localStorage w' = localStorage w /\
    notifications d = ls /\ middleware_calls d = [].
Proof.
  induction ls as [|l ls IH]; intros w Hs Hc; simpl.
  - exists w, []. repeat split; try done. apply steps_to_refl.
  - destruct (notify_one_safe w l Hs Hc) as (w1 & d1 & E1 & S1 & L1 & N1 & M1).
    destruct (IH w1) as (w2 & d2 & E2 & S2 & L2 & N2 & M2).
    { eapply handler_safe_steps; eauto. }
    { assert (state (this w1) = state (this w)) as -> by (destruct S1 as [-> _]; done).
      eapply copy_ok_steps; eauto. }
    exists w2, (d1 ++ d2). rewrite (bind_ok _ _ _ _ _ E1).
    split; [exact E2|]. split; [eapply steps_to_trans; eauto|].
    split; [congruence|].
    rewrite notifications_app, middleware_calls_app, N1, N2, M1, M2. done.
Qed.

Lemma get_prop_spec s name w :
  get_prop s name w =
    match s with
    | VUndef | VNull => (Throw (TypeError "Cannot read properties"), w)
    | _ => (Ok (peek (mem w) s name), w)
    end.
Proof.
  unfold get_prop, peek. destruct s; try reflexivity.
  destruct (String.eqb name "length"); reflexivity.
Qed.

Lemma peek_null h s name : s = VUndef \/ s = VNull -> peek h s name = VUndef.
Proof. intros [-> | ->]; reflexivity. Qed.

(** The callbacks of one event name, once the name is known to be a key of
    the state: each is called once, in order, with the value of the key. *)
Lemma notify_event_safe name cbs : forall w,
  handler_safe w -> state (this w) <> VUndef -> state (this w) <> VNull ->
  exists d,
    for_each cbs (fun callback =>
      try_catch
        (let* s' := read state in
         let* v' := get_prop s' name in
         call callback [AVal v'])
        handleError) w
      = (Ok tt, set_trace (trace w ++ d) w) /\
    notifications d = cbs /\ middleware_calls d = [].
Proof.
  induction cbs as [|cb cbs IH]; intros w Hs Hu Hn; cbn [for_each].
  - exists []. rewrite set_trace_nil. done.
  - set (v := peek (mem w) (state (this w)) name).
    set (d1 := Called cb [AVal v] ::
                 match behaviour w cb (mem w) [AVal v] with
                 | Some e => [sink w e] | None => [] end).
    assert (E1 : try_catch
        (let* s' := read state in
         let* v' := get_prop s' name in
         call cb [AVal v']) handleError w = (Ok tt, set_trace (trace w ++ d1) w)).
    { unfold try_catch, bind at 1 2. unfold read, gets. rewrite get_prop_spec.
      destruct (state (this w)) eqn:Es; try done;
        (unfold call; fold v; unfold d1;
         destruct (behaviour w cb (mem w) [AVal v]) as [e|];
         [ rewrite handleError_safe by exact Hs; simpl; rewrite <- app_assoc; reflexivity
         | reflexivity ]). }
    destruct (IH (set_trace (trace w ++ d1) w) Hs Hu Hn) as (d2 & E2 & N2 & M2).
    exists (d1 ++ d2). rewrite (bind_ok _ _ _ _ _ E1), E2.
    split; [unfold set_trace; simpl; rewrite <- ?app_assoc; reflexivity|].
    rewrite notifications_app, middleware_calls_app, N2, M2. unfold d1.
    destruct (behaviour w cb (mem w) [AVal v]); simpl; [|done].
    unfold sink. destruct (errorHandler (this w)); done.
Qed.

(** The pass over the event names. *)
Lemma notify_events_safe names : forall w,
  handler_safe w ->
  exists r d,
    for_each names (fun eventName =>
      let* s := read state in
      let* v := get_prop s eventName in
      match v with
      | VUndef => ret tt
      | _ =>
          let* cbs := read (fun i => default [] (ev_get (eventListeners i) eventName)) in
          for_each cbs (fun callback =>
            try_catch
              (let* s' := read state in
               let* v' := get_prop s' eventName in
               call callback [AVal v'])
              handleError)
      end) w
      = (r, set_trace (trace w ++ d) w) /\
    notifications d =
      flat_map (fun name =>
        match peek (mem w) (state (this w)) name with
        | VUndef => []
        | _ => default [] (ev_get (eventListeners (this w)) name)
        end) names /\
    middleware_calls d = [].
Proof.
  induction names as [|name names IH]; intros w Hs; cbn [for_each flat_map].
  - exists (Ok tt), []. rewrite set_trace_nil. done.
  - destruct (decide (state (this w) = VUndef \/ state (this w) = VNull)) as [Hnull|Hobj].
    + exists (Throw (TypeError "Cannot read properties")), [].
      rewrite set_trace_nil. split; [|split; [|done]].
      * unfold bind at 1 2 3. unfold read at 1, gets. rewrite get_prop_spec.
        destruct Hnull as [-> | ->]; reflexivity.
      * rewrite (peek_null _ _ _ Hnull). simpl.
        clear IH. induction names as [|n ns IHn]; simpl; [done|].
        rewrite (peek_null _ _ _ Hnull). simpl. exact IHn.
    + assert (Hu : state (this w) <> VUndef) by tauto.
      assert (Hn : state (this w) <> VNull) by tauto.
      set (v := peek (mem w) (state (this w)) name).
      assert (exists d1,
        (let* s := read state in
         let* v := get_prop s name in
         match v with
         | VUndef => ret tt
         | _ =>
             let* cbs := read (fun i => default [] (ev_get (eventListeners i) name)) in
             for_each cbs (fun callback =>
               try_catch
                 (let* s' := read state in
                  let* v' := get_prop s' name in
                  call callback [AVal v'])
                 handleError)
         end) w = (Ok tt, set_trace (trace w ++ d1) w) /\
        notifications d1 =
          match v with
          | VUndef => []
          | _ => default [] (ev_get (eventListeners (this w)) name)
          end /\ middleware_calls d1 = []) as (d1 & E1 & N1 & M1).
      { destruct (notify_event_safe name
                    (default [] (ev_get (eventListeners (this w)) name)) w Hs Hu Hn)
          as (d & E & N & M).
        unfold bind at 1 2. unfold read at 1, gets. rewrite get_prop_spec.
        assert (G : (Ok (A := val) v, w) =
                    match state (this w) with
                    | VUndef | VNull => (Throw (TypeError "Cannot read properties"), w)
                    | _ => (Ok (peek (mem w) (state (this w)) name), w)
                    end) by (destruct (state (this w)); done).
        rewrite <- G. destruct v eqn:Ev.
        - exists []. rewrite set_trace_nil. done.
        - exists d. done.
        - exists d. done.
        - exists d. done.
        - exists d. done.
        - exists d. done. }
      destruct (IH (set_trace (trace w ++ d1) w) Hs) as (r & d2 & E2 & N2 & M2).
      exists r, (d1 ++ d2). rewrite (bind_ok _ _ _ _ _ E1), E2.
      split; [unfold set_trace; simpl; rewrite <- ?app_assoc; reflexivity|].
      rewrite notifications_app, middleware_calls_app, N1, N2, M1, M2. done.
Qed.

Lemma persist_safe w :
  handler_safe w ->
  exists w' d,
    persistStateToLocalStorage w = (Ok tt, w') /\
    steps_to w w' d /\ mem w' = mem w /\
    notifications d = [] /\ middleware_calls d = [].
Proof.
  intros Hs. unfold persistStateToLocalStorage, try_catch.
  assert (Hthrow : forall e, exists w' d,
             handleError e w = (Ok tt, w') /\ steps_to w w' d /\ mem w' = mem w /\
             notifications d = [] /\ middleware_calls d = []).
  { intros e. rewrite handleError_safe by exact Hs. eexists _, [sink w e].
    split; [reflexivity|]. split; [apply steps_to_trace|]. split; [reflexivity|].
    apply sink_quiet. }
  assert (Hstore : forall ls, exists (w' : world) (d : list event),
             (Ok tt, set_localStorage ls w) = (Ok tt, w') /\ steps_to w w' d /\
             mem w' = mem w /\ notifications d = [] /\ middleware_calls d = []).
  { intros ls. exists (set_localStorage ls w), []. split; [reflexivity|].
    split; [|done]. unfold steps_to. simpl. rewrite app_nil_r. done. }
  destruct (localStorage w).
  - destruct (state (this w)); try apply Hstore;
      (destruct (JSON_view (mem w) _); [apply Hstore|apply Hthrow]).
  - exists w, []. split; [reflexivity|]. split; [apply steps_to_refl|done].
Qed.

(** The fan-out: every listener is called once, in order, then the
    callbacks of the event names that are keys of the state. *)
Lemma notifyListeners_safe w :
  handler_safe w -> copy_ok w (state (this w)) ->
  exists r w' d,
    notifyListeners w = (r, w') /\ steps_to w w' d /\
    localStorage w' = localStorage w /\
    notifications d =
      listeners (this w) ++ fired (mem w') (state (this w)) (eventListeners (this w)) /\
    middleware_calls d = [].
Proof.
  intros Hs Hc. unfold notifyListeners.
  destruct (notify_plain_safe (listeners (this w)) w Hs Hc) as (w1 & d1 & E1 & S1 & L1 & N1 & M1).
  pose proof (handler_safe_steps _ _ _ S1 Hs) as Hs1.
  destruct (notify_events_safe (map fst (eventListeners (this w))) w1 Hs1)
    as (r & d2 & E2 & N2 & M2).
  exists r, (set_trace (trace w1 ++ d2) w1), (d1 ++ d2).
  unfold bind at 1. unfold bind at 1. unfold read at 1, gets. rewrite E1.
  unfold bind at 1. unfold read at 1, gets.
  destruct S1 as (T1 & B1 & P1 & Tr1 & Ti1 & No1 & Se1).
  rewrite T1. split; [exact E2|]. split; [|split; [exact L1|]].
  - unfold steps_to. simpl. rewrite Tr1, app_assoc. done.
  - rewrite notifications_app, middleware_calls_app, N1, N2, M1, M2, T1. done.
Qed.

Lemma handler_safe_same w w' :
  errorHandler (this w') = errorHandler (this w) -> behaviour w' = behaviour w ->
  handler_safe w -> handler_safe w'.
Proof. intros E B H h. rewrite E, B. apply H. Qed.

Lemma copy_ok_same w w' v :
  deepStateComparison (this w') = deepStateComparison (this w) ->
  mem w `prefix_of` mem w' -> copy_ok w v -> copy_ok w' v.
Proof.
  intros D P H. unfold copy_ok. rewrite D. intros Hd.
  destruct (H Hd) as [t Ht]. exists t. eapply JSON_view_prefix; eauto.
Qed.

(** The end of a commit, once the instance holds the new state: the fan-out,
    then the snapshot to [localStorage]; what the fan-out throws is
    reported. *)
Lemma commit_tail_safe w :
  handler_safe w -> copy_ok w (state (this w)) ->
  exists w' d,
    try_catch (notifyListeners >> persistStateToLocalStorage) handleError w = (Ok tt, w') /\
    steps_to w w' d /\
    notifications d =
      listeners (this w) ++ fired (mem w') (state (this w)) (eventListeners (this w)) /\
    middleware_calls d = [].
Proof.
  intros Hs Hc.
  destruct (notifyListeners_safe w Hs Hc) as (r & w1 & d1 & E1 & S1 & L1 & N1 & M1).
  pose proof (handler_safe_steps _ _ _ S1 Hs) as Hs1.
  unfold try_catch, bind. rewrite E1. destruct r as [[]|e].
  - destruct (persist_safe w1 Hs1) as (w2 & d2 & E2 & S2 & P2 & N2 & M2).
    rewrite E2. exists w2, (d1 ++ d2). split; [reflexivity|].
    split; [eapply steps_to_trans; eauto|].
    rewrite notifications_app, middleware_calls_app, N1, N2, M1, M2, P2, !app_nil_r. done.
  - rewrite handleError_safe by exact Hs1.
    exists (set_trace (trace w1 ++ [sink w1 e]) w1), (d1 ++ [sink w1 e]).
    split; [reflexivity|]. split; [eapply steps_to_trans; eauto using steps_to_trace|].
    destruct (sink_quiet w1 e) as [Nq Mq].
    rewrite notifications_app, middleware_calls_app, N1, M1, Nq, Mq, !app_nil_r. done.
Qed.

Lemma try_bind_ok {A B} (m : M world A) (k : A -> M world B) h w a w1 :
  m w = (Ok a, w1) -> try_catch (bind m k) h w = try_catch (k a) h w1.
Proof. intros E. unfold try_catch, bind. rewrite E. reflexivity. Qed.

(** A commit, with a handler that returns and values that can be copied:
    the middleware pass, the history entry, the swap, one fan-out. *)
Lemma applyStateUpdate_safe next add w :
  handler_safe w -> copy_ok w (state (this w)) -> copy_ok w next ->
  exists w' c p d,
    applyStateUpdate next add w = (Ok tt, w') /\
    this w' =
      set_state next (set_prevState p
        (if add
         then set_redoStack [] (set_undoStack (push c (undoStack (this w))) (this w))
         else this w)) /\
    behaviour w' = behaviour w /\ mem w `prefix_of` mem w' /\
    timers w' = timers w /\ now w' = now w /\ timer_seq w' = timer_seq w /\
    trace w' =
      trace w ++
      middleware_trace w (prevState (this w)) next (enabledMiddlewares w) ++ d /\
    notifications d = listeners (this w) ++ fired (mem w') next (eventListeners (this w)) /\
    middleware_calls d = [] /\
    (forall t, JSON_view (mem w) (state (this w)) = Some t ->
       deepStateComparison (this w) = true \/ (exists l, state (this w) = VRef l) ->
       (add = true -> JSON_view (mem w') c = Some t) /\ JSON_view (mem w') p = Some t) /\
    (deepStateComparison (this w) = false ->
       (add = true -> exists l, c = VRef l) /\ exists l, p = VRef l).
Proof.
  intros Hs Hc Hn. unfold applyStateUpdate.
  set (mt := middleware_trace w (prevState (this w)) next (enabledMiddlewares w)).
  (* the middleware pass *)
  rewrite (try_bind_ok (read prevState) _ _ w _ w eq_refl).
  rewrite (try_bind_ok _ _ _ _ _ _ (applyMiddlewares_safe w _ next Hs)). fold mt.
  set (w1 := set_trace (trace w ++ mt) w).
  assert (Hc1 : copy_ok w1 (state (this w1))) by exact Hc.
  (* the history entry *)
  assert (exists k c,
    (forall (K : unit -> M world unit) h,
       try_catch (bind (if add then
                    let* s := read state in
                    let* c := copy s in
                    upd (fun i => set_undoStack (push c (undoStack i)) i) >>
                    upd (set_redoStack [])
                  else ret tt) K) h w1
       = try_catch (K tt) h
           (set_this (if add
                      then set_redoStack [] (set_undoStack (push c (undoStack (this w))) (this w))
                      else this w) (set_mem (mem w ++ k) w1))) /\
    (forall t, JSON_view (mem w) (state (this w)) = Some t ->
       deepStateComparison (this w) = true \/ (exists l, state (this w) = VRef l) ->
       add = true -> JSON_view (mem w ++ k) c = Some t) /\
    (deepStateComparison (this w) = false -> add = true -> exists l, c = VRef l))
    as (k1 & c & E2 & V2 & R2).
  { destruct add.
    - destruct (copy_spec _ _ Hc1) as (k & c & Ec & _ & V & _ & Sh).
      exists k, c. split; [|split; [intros t Ht Ho _; exact (V t Ht Ho)|]].
      + intros K h. unfold try_catch, bind at 1 2 3 4. unfold read at 1, gets.
        rewrite Ec. reflexivity.
      + intros D _. destruct (Sh D) as [_ ->]. eauto.
    - exists [], VUndef. split; [|split; discriminate].
      intros K h. unfold try_catch, bind, ret. simpl. rewrite app_nil_r.
      destruct w; reflexivity. }
  rewrite E2. clear E2.
  set (i2 := if add then _ else _).
  set (w2 := set_this i2 (set_mem (mem w ++ k1) w1)).
  assert (Hst2 : state i2 = state (this w)) by (unfold i2; destruct add; reflexivity).
  assert (Hd2 : deepStateComparison i2 = deepStateComparison (this w))
    by (unfold i2; destruct add; reflexivity).
  assert (Hc2 : copy_ok w2 (state (this w2))).
  { simpl. rewrite Hst2. eapply (copy_ok_same w); [exact Hd2| |exact Hc].
    simpl. by apply prefix_app_r. }
  (* the previous state and the swap *)
  rewrite (try_bind_ok (read state) _ _ w2 _ w2 eq_refl).
  destruct (copy_spec _ _ Hc2) as (k2 & p & Ep & _ & Vp & _ & Shp).
  rewrite (try_bind_ok _ _ _ _ _ _ Ep).
  rewrite (try_bind_ok (upd (set_prevState p)) _ _ _ tt _ eq_refl).
  rewrite (try_bind_ok (upd (set_state next)) _ _ _ tt _ eq_refl).
  set (w3 := set_this (set_state next _) _).
  assert (Hs3 : handler_safe w3).
  { eapply (handler_safe_same w); [|reflexivity|exact Hs].
    unfold w3, w2, i2. destruct add; reflexivity. }
  assert (Hc3 : copy_ok w3 (state (this w3))).
  { eapply (copy_ok_same w); [| |exact Hn].
    - unfold w3, w2, i2. destruct add; reflexivity.
    - simpl. rewrite <- app_assoc. by apply prefix_app_r. }
  destruct (commit_tail_safe w3 Hs3 Hc3) as (w4 & d & E4 & S4 & N4 & M4).
  rewrite E4. destruct S4 as (T4 & B4 & P4 & Tr4 & Ti4 & No4 & Se4).
  exists w4, c, p, d. split; [reflexivity|].
  split; [rewrite T4; reflexivity|]. split; [rewrite B4; reflexivity|].
  split; [etrans; [|exact P4]; simpl; rewrite <- app_assoc; by apply prefix_app_r|].
  split; [rewrite Ti4; reflexivity|]. split; [rewrite No4; reflexivity|].
  split; [rewrite Se4; reflexivity|].
  split; [rewrite Tr4; simpl; rewrite <- app_assoc; reflexivity|].
  split; [rewrite N4; unfold w3, w2, i2; destruct add; reflexivity|].
  split; [exact M4|]. split.
  - intros t Ht Ho. split.
    + intros Ha. eapply JSON_view_prefix; [|exact (V2 t Ht Ho Ha)].
      etrans; [|exact P4]. simpl. by apply prefix_app_r.
    + eapply JSON_view_prefix; [exact P4|]. simpl. apply Vp.
      * simpl. rewrite Hst2. eapply JSON_view_prefix; [|exact Ht]. by apply prefix_app_r.
      * simpl. rewrite Hst2, Hd2. exact Ho.
  - intros D. split; [exact (R2 D)|].
    destruct Shp as [_ ->]; [simpl; rewrite Hd2; exact D|eauto].
Qed.

(** ** Middleware failures *)

Lemma middleware_trace_calls w prev next ms :
  middleware_calls (middleware_trace w prev next ms) = ms.
Proof.
  induction ms as [|m ms IH]; [done|]. unfold middleware_trace in *. cbn [flat_map].
  rewrite middleware_calls_app, IH.
  destruct (behaviour w m (mem w) _); [|done].
  unfold sink. destruct (errorHandler (this w)); done.
Qed.

Lemma reported_app d1 d2 : reported (d1 ++ d2) = reported d1 ++ reported d2.
Proof. apply omap_app. Qed.

Lemma middleware_trace_reported w prev next ms :
  reported (middleware_trace w prev next ms) =
    omap (fun m => behaviour w m (mem w) [AVal prev; AVal next]) ms.
Proof.
  induction ms as [|m ms IH]; [done|]. unfold middleware_trace in *. cbn [flat_map omap].
  rewrite reported_app, IH.
  destruct (behaviour w m (mem w) [AVal prev; AVal next]) as [e|] eqn:Eb;
    simpl; rewrite Eb; [|reflexivity].
  unfold sink. destruct (errorHandler (this w)); reflexivity.
Qed.

(** C3: with an error handler that returns (or none) and values that can be
    copied, a commit runs every enabled middleware once and in order,
    whatever the earlier ones throw; each error thrown is reported once,
    right after the call that threw it; and the commit completes: the state
    is replaced and every listener is notified once. *)
Theorem failing_middleware_is_contained w next add :
  handler_safe w -> copy_ok w (state (this w)) -> copy_ok w next ->
  let ms := enabledMiddlewares w in
  let prev := prevState (this w) in
  let mt := middleware_trace w prev next ms in
  middleware_calls mt = ms /\
  reported mt = omap (fun m => behaviour w m (mem w) [AVal prev; AVal next]) ms /\
  applyMiddlewares prev next w = (Ok tt, set_trace (trace w ++ mt) w) /\
  exists w' d,
    applyStateUpdate next add w = (Ok tt, w') /\
    state (this w') = next /\
    trace w' = trace w ++ mt ++ d /\
    middleware_calls d = [] /\
    notifications d = listeners (this w) ++ fired (mem w') next (eventListeners (this w)).
Proof.
  intros Hs Hc Hn ms prev mt.
  split; [apply middleware_trace_calls|].
  split; [apply middleware_trace_reported|].
  split; [apply applyMiddlewares_safe, Hs|].
  destruct (applyStateUpdate_safe next add w Hs Hc Hn)
    as (w' & c & p & d & E & T & _ & _ & _ & _ & _ & Tr & N & M & _ & _).
  exists w', d. rewrite T. done.
Qed.

Lemma failing_middleware_witness :
  let w := guarded_store in
  let w' := exec (applyStateUpdate (VRef 3) true) w in
  state (this w') = VRef 3 /\
  middleware_calls (trace w') = [1; 2] /\
  reported (trace w') = [Error "Middleware error"] /\
  notifications (trace w') = [5].
Proof.
  intros w.
  assert (Hs : handler_safe w).
  { intros h [= <-] m e. reflexivity. }
  assert (Hc : forall v, copy_ok w v).
  { intros v D. discriminate D. }
  destruct (failing_middleware_is_contained w (VRef 3) true Hs (Hc _) (Hc _))
    as (M & R & _ & w1 & d & E & S & T & Md & Nd).
  assert (W : w1 = exec (applyStateUpdate (VRef 3) true) w)
    by (unfold exec; rewrite E; reflexivity).
  subst w1. split; [exact S|]. vm_compute. auto.
Defined.

Lemma pop_push {A} (l : list A) x : pop (push x l) = Some (x, l).
Proof. unfold pop, push. rewrite last_snoc, removelast_last. reflexivity. Qed.

(** The fan-out and the snapshot, outside a [try]. *)
Lemma fanout_safe w :
  handler_safe w -> copy_ok w (state (this w)) ->
  exists r w' d,
    (notifyListeners >> persistStateToLocalStorage) w = (r, w') /\
    steps_to w w' d /\
    notifications d =
      listeners (this w) ++ fired (mem w') (state (this w)) (eventListeners (this w)) /\
    middleware_calls d = [].
Proof.
  intros Hs Hc.
  destruct (notifyListeners_safe w Hs Hc) as (r & w1 & d1 & E1 & S1 & L1 & N1 & M1).
  pose proof (handler_safe_steps _ _ _ S1 Hs) as Hs1.
  unfold bind. rewrite E1. destruct r as [[]|e].
  - destruct (persist_safe w1 Hs1) as (w2 & d2 & E2 & S2 & P2 & N2 & M2).
    rewrite E2. exists (Ok tt), w2, (d1 ++ d2). split; [reflexivity|].
    split; [eapply steps_to_trans; eauto|].
    rewrite notifications_app, middleware_calls_app, N1, N2, M1, M2, P2, !app_nil_r. done.
  - exists (Throw e), w1, d1. done.
Qed.

(** The common shape of [undo] and [redo] after the pop: the current state
    is copied onto the other stack, the popped snapshot becomes current, and
    one fan-out runs. *)
Lemma history_step_safe (put : val -> instance -> instance) (entry : val) w :
  handler_safe w -> copy_ok w (state (this w)) -> copy_ok w entry ->
  (forall c i, state (put c i) = state i /\
               deepStateComparison (put c i) = deepStateComparison i /\
               errorHandler (put c i) = errorHandler i /\
               listeners (put c i) = listeners i /\
               eventListeners (put c i) = eventListeners i) ->
  exists r w' s d,
    (let* cur := read state in
     let* c := copy cur in
     upd (put c) >>
     upd (set_state entry) >>
     notifyListeners >>
     persistStateToLocalStorage) w = (r, w') /\
    this w' = set_state entry (put s (this w)) /\
    behaviour w' = behaviour w /\ mem w `prefix_of` mem w' /\
    timers w' = timers w /\ now w' = now w /\ timer_seq w' = timer_seq w /\
    trace w' = trace w ++ d /\
    notifications d =
      listeners (this w) ++ fired (mem w') entry (eventListeners (this w)) /\
    middleware_calls d = [] /\
    (forall t, JSON_view (mem w) (state (this w)) = Some t -> plain w (state (this w)) ->
               JSON_view (mem w') s = Some t) /\
    (deepStateComparison (this w) = false -> exists l, s = VRef l).
Proof.
  intros Hs Hc He Hput.
  destruct (copy_spec _ _ Hc) as (k & s & Ec & _ & Vs & _ & Sh).
  rewrite (bind_ok (read state) _ w _ w eq_refl).
  rewrite (bind_ok _ _ _ _ _ Ec).
  rewrite (bind_ok (upd (put s)) _ _ tt _ eq_refl).
  rewrite (bind_ok (upd (set_state entry)) _ _ tt _ eq_refl).
  set (w3 := set_this (set_state entry _) _).
  destruct (Hput s (this w)) as (P1 & P2 & P3 & P4 & P5).
  assert (Hs3 : handler_safe w3).
  { eapply (handler_safe_same w); [exact P3|reflexivity|exact Hs]. }
  assert (Hc3 : copy_ok w3 (state (this w3))).
  { eapply (copy_ok_same w); [exact P2| |exact He]. simpl. by apply prefix_app_r. }
  destruct (fanout_safe w3 Hs3 Hc3) as (r & w4 & d & E4 & S4 & N4 & M4).
  rewrite E4. destruct S4 as (T4 & B4 & Pf4 & Tr4 & Ti4 & No4 & Se4).
  exists r, w4, s, d. split; [reflexivity|].
  split; [rewrite T4; reflexivity|]. split; [rewrite B4; reflexivity|].
  split; [etrans; [|exact Pf4]; simpl; by apply prefix_app_r|].
  split; [rewrite Ti4; reflexivity|]. split; [rewrite No4; reflexivity|].
  split; [rewrite Se4; reflexivity|]. split; [rewrite Tr4; reflexivity|].
  split; [rewrite N4; simpl; rewrite P4, P5; reflexivity|].
  split; [exact M4|]. split.
  - intros t Ht Hp. eapply JSON_view_prefix; [exact Pf4|]. simpl. by apply Vs.
  - intros D. destruct (Sh D) as [_ ->]. eauto.
Qed.

Lemma undo_safe w us entry :
  handler_safe w -> undoStack (this w) = push entry us ->
  copy_ok w (state (this w)) -> copy_ok w entry ->
  exists r w' s d,
    undo w = (r, w') /\
    this w' =
      set_state entry (set_redoStack (push s (redoStack (this w)))
                         (set_undoStack us (this w))) /\
    behaviour w' = behaviour w /\ mem w `prefix_of` mem w' /\
    timers w' = timers w /\ now w' = now w /\ timer_seq w' = timer_seq w /\
    trace w' = trace w ++ d /\
    notifications d =
      listeners (this w) ++ fired (mem w') entry (eventListeners (this w)) /\
    middleware_calls d = [] /\
    (forall t, JSON_view (mem w) (state (this w)) = Some t -> plain w (state (this w)) ->
               JSON_view (mem w') s = Some t) /\
    (deepStateComparison (this w) = false -> exists l, s = VRef l).
Proof.
  intros Hs Hu Hc He. unfold undo.
  rewrite (bind_ok (read undoStack) _ w _ w eq_refl), Hu, pop_push.
  rewrite (bind_ok (upd (set_undoStack us)) _ _ tt _ eq_refl).
  set (w1 := set_this (set_undoStack us (this w)) w).
  destruct (history_step_safe (fun c i => set_redoStack (push c (redoStack i)) i) entry w1)
    as (r & w' & s & d & E & H); try done.
  exists r, w', s, d. split; [exact E|exact H].
Qed.

Lemma redo_safe w rs entry :
  handler_safe w -> redoStack (this w) = push entry rs ->
  copy_ok w (state (this w)) -> copy_ok w entry ->
  exists r w' s d,
    redo w = (r, w') /\
    this w' =
      set_state entry (set_undoStack (push s (undoStack (this w)))
                         (set_redoStack rs (this w))) /\
    behaviour w' = behaviour w /\ mem w `prefix_of` mem w' /\
    timers w' = timers w /\ now w' = now w /\ timer_seq w' = timer_seq w /\
    trace w' = trace w ++ d /\
    notifications d =
      listeners (this w) ++ fired (mem w') entry (eventListeners (this w)) /\
    middleware_calls d = [] /\
    (forall t, JSON_view (mem w) (state (this w)) = Some t -> plain w (state (this w)) ->
               JSON_view (mem w') s = Some t) /\
    (deepStateComparison (this w) = false -> exists l, s = VRef l).
Proof.
  intros Hs Hu Hc He. unfold redo.
  rewrite (bind_ok (read redoStack) _ w _ w eq_refl), Hu, pop_push.
  rewrite (bind_ok (upd (set_redoStack rs)) _ _ tt _ eq_refl).
  set (w1 := set_this (set_redoStack rs (this w)) w).
  destruct (history_step_safe (fun c i => set_undoStack (push c (undoStack i)) i) entry w1)
    as (r & w' & s & d & E & H); try done.
  exists r, w', s, d. split; [exact E|exact H].
Qed.

(** ** Undo and redo *)

(** An immediate [setState]: the argument is copied, and the copy is
    committed. *)
Lemma setState_safe newState add w :
  handler_safe w -> copy_ok w (state (this w)) -> copy_ok w newState ->
  exists w0 w' next c p d,
    copy newState w = (Ok next, w0) /\
    setState newState add false w = (Ok tt, w') /\
    this w' =
      set_state next (set_prevState p
        (if add
         then set_redoStack [] (set_undoStack (push c (undoStack (this w))) (this w))
         else this w)) /\
    behaviour w' = behaviour w /\ mem w `prefix_of` mem w' /\
    timers w' = timers w /\ now w' = now w /\ timer_seq w' = timer_seq w /\
    trace w' =
      trace w ++
      middleware_trace w0 (prevState (this w)) next (enabledMiddlewares w) ++ d /\
    notifications d = listeners (this w) ++ fired (mem w') next (eventListeners (this w)) /\
    middleware_calls d = [] /\
    (forall t, JSON_view (mem w) newState = Some t -> plain w newState ->
               JSON_view (mem w') next = Some t) /\
    (forall t, JSON_view (mem w) (state (this w)) = Some t -> plain w (state (this w)) ->
       (add = true -> JSON_view (mem w') c = Some t) /\ JSON_view (mem w') p = Some t) /\
    (deepStateComparison (this w) = false ->
       (exists l, next = VRef l) /\ (add = true -> exists l, c = VRef l) /\
       props_of (mem w') next = props_of (mem w) newState).
Proof.
  intros Hs Hc Hn.
  destruct (copy_spec _ _ Hn) as (k & next & Ec & Hl & Vn & _ & Sh).
  set (w0 := set_mem (mem w ++ k) w) in *.
  pose proof (steps_to_alloc w k) as S0. fold w0 in S0.
  assert (Hs0 : handler_safe w0) by exact Hs.
  assert (Hc0 : copy_ok w0 (state (this w0))).
  { eapply (copy_ok_steps w); eauto. }
  assert (Hn0 : copy_ok w0 next).
  { intros D. destruct (Hn D) as [t Ht]. exists t. apply Vn; [exact Ht|]. left. exact D. }
  destruct (applyStateUpdate_safe next add w0 Hs0 Hc0 Hn0)
    as (w' & c & p & d & E & T & B & P & Ti & No & Se & Tr & N & M & V & R).
  exists w0, w', next, c, p, d. split; [exact Ec|].
  split; [unfold setState; rewrite (try_bind_ok _ _ _ _ _ _ Ec), try_ok with (a := tt) (w1 := w'); done|].
  split; [exact T|]. split; [exact B|].
  split; [etrans; [|exact P]; simpl; by apply prefix_app_r|].
  split; [exact Ti|]. split; [exact No|]. split; [exact Se|].
  split; [exact Tr|]. split; [exact N|]. split; [exact M|]. split; [|split].
  - intros t Ht Hp. eapply JSON_view_prefix; [exact P|]. simpl. by apply Vn.
  - intros t Ht Hp. apply V; [|exact Hp]. simpl.
    eapply JSON_view_prefix; [|exact Ht]. by apply prefix_app_r.
  - intros D. destruct (Sh D) as [-> ->]. split; [eauto|]. split; [apply R, D|].
    simpl. destruct P as [k' ->]. simpl.
    rewrite <- app_assoc, lookup_app_r, Nat.sub_diag by reflexivity. reflexivity.
Qed.

Lemma copy_ok_view w v t : JSON_view (mem w) v = Some t -> copy_ok w v.
Proof. intros H _. eauto. Qed.

(** C4: with an error handler that returns (or none), from a current state
    that reads as [t0], committing a state [S1] that reads as [t1] with
    history recording makes [t1] current; [undo] then makes [t0] current
    again, and [redo] after it makes [t1] current again.  [undo] on an empty
    undo stack and [redo] on an empty redo stack change nothing. *)
Theorem undo_redo_round_trip w S1 t0 t1 :
  handler_safe w ->
  is_state (mem w) (state (this w)) t0 -> is_state (mem w) S1 t1 ->
  let w1 := exec (setState S1 true false) w in
  let w2 := exec undo w1 in
  let w3 := exec redo w2 in
  (JSON_view (mem w1) (state (this w1)) = Some t1 /\
   JSON_view (mem w2) (state (this w2)) = Some t0 /\
   JSON_view (mem w3) (state (this w3)) = Some t1 /\
   length (undoStack (this w2)) = length (undoStack (this w)) /\
   length (redoStack (this w2)) = 1 /\
   length (undoStack (this w3)) = S (length (undoStack (this w))) /\
   redoStack (this w3) = []) /\
  (forall u, undoStack (this u) = [] -> undo u = (Ok tt, u)) /\
  (forall u, redoStack (this u) = [] -> redo u = (Ok tt, u)).
Proof.
  intros Hs [O0 V0] [O1 V1] w1 w2 w3. split.
  2: { split; intros u Hu; [unfold undo|unfold redo]; unfold bind, read, gets;
         rewrite Hu; reflexivity. }
  (* the commit *)
  destruct (setState_safe S1 true w Hs (copy_ok_view _ _ _ V0) (copy_ok_view _ _ _ V1))
    as (w0 & w1' & next & c & p & d1 & _ & E1 & T1 & B1 & P1 & _ & _ & _ & _ & _ & _
        & Vn & Vc & R1).
  assert (w1 = w1') as -> by (unfold w1, exec; rewrite E1; reflexivity).
  clear E1. rename w1' into w1.
  assert (D1 : deepStateComparison (this w1) = deepStateComparison (this w))
    by (rewrite T1; reflexivity).
  assert (Vn1 : JSON_view (mem w1) next = Some t1) by (apply Vn; [exact V1|right; exact O1]).
  destruct (Vc t0 V0 (or_intror O0)) as [Vc1 _]. specialize (Vc1 eq_refl).
  assert (Hs1 : handler_safe w1).
  { eapply (handler_safe_same w); [rewrite T1; reflexivity|exact B1|exact Hs]. }
  assert (St1 : state (this w1) = next) by (rewrite T1; reflexivity).
  assert (Pl1 : plain w1 next /\ plain w1 c).
  { unfold plain. rewrite D1. destruct (deepStateComparison (this w)) eqn:D; [auto|].
    destruct (R1 eq_refl) as (Rn & Rc & _). auto. }
  (* undo *)
  destruct (undo_safe w1 (undoStack (this w)) c Hs1) as
    (r2 & w2' & s & d2 & E2 & T2 & B2 & P2 & _ & _ & _ & _ & _ & _ & Vs & _).
  { rewrite T1. reflexivity. }
  { rewrite St1. eapply copy_ok_view, Vn1. }
  { eapply copy_ok_view, Vc1. }
  assert (w2 = w2') as -> by (unfold w2, exec; rewrite E2; reflexivity).
  clear E2. rename w2' into w2.
  assert (Vs2 : JSON_view (mem w2) s = Some t1).
  { apply Vs; rewrite St1; [exact Vn1|apply Pl1]. }
  assert (Vc2 : JSON_view (mem w2) c = Some t0) by (eapply JSON_view_prefix; eauto).
  assert (Hs2 : handler_safe w2).
  { eapply (handler_safe_same w1); [rewrite T2; reflexivity|exact B2|exact Hs1]. }
  assert (R2 : redoStack (this w2) = push s []) by (rewrite T2, T1; reflexivity).
  assert (St2 : state (this w2) = c) by (rewrite T2; reflexivity).
  assert (Pl2 : plain w2 c).
  { destruct Pl1 as [_ [D|O]]; [left|right; exact O]. rewrite T2. exact D. }
  (* redo *)
  destruct (redo_safe w2 [] s Hs2 R2) as
    (r3 & w3' & s' & d3 & E3 & T3 & B3 & P3 & _ & _ & _ & _ & _ & _ & Vs' & _).
  { rewrite St2. eapply copy_ok_view, Vc2. }
  { eapply copy_ok_view, Vs2. }
  assert (w3 = w3') as -> by (unfold w3, exec; rewrite E3; reflexivity).
  clear E3. rename w3' into w3.
  rewrite St1, St2.
  split; [exact Vn1|]. split; [exact Vc2|].
  split; [rewrite T3; simpl; eapply JSON_view_prefix; eauto|].
  split; [rewrite T2; reflexivity|]. split; [rewrite R2; reflexivity|].
  split; [|rewrite T3; reflexivity].
  rewrite T3, T2. simpl. unfold push. rewrite length_app. simpl. lia.
Qed.

Lemma undo_redo_witness :
  let w := one_commit in
  let w1 := exec (setState (VRef 7) true false) w in
  let w2 := exec undo w1 in
  let w3 := exec redo w2 in
  JSON_view (mem w1) (state (this w1)) = Some (JObj [("count", JNum 2)]) /\
  JSON_view (mem w2) (state (this w2)) = Some (JObj [("count", JNum 1)]) /\
  JSON_view (mem w3) (state (this w3)) = Some (JObj [("count", JNum 2)]).
Proof.
  intros w.
  assert (Hs : handler_safe w) by (intros h H; vm_compute in H; discriminate H).
  assert (H0 : is_state (mem w) (state (this w)) (JObj [("count", JNum 1)])).
  { split; [eexists|]; vm_compute; reflexivity. }
  assert (H1 : is_state (mem w) (VRef 7) (JObj [("count", JNum 2)])).
  { split; [eexists|]; vm_compute; reflexivity. }
  destruct (undo_redo_round_trip w (VRef 7) _ _ Hs H0 H1) as [(A & B & C & _) _].
  split; [exact A|]. split; [exact B|exact C].
Defined.

(** ** Batches *)

(** A new object with JSON properties reads as the object of their trees. *)
Lemma JSON_view_new_object h o ts :
  json_object h o ts -> JSON_view (h ++ [o]) (VRef (length h)) = Some (JObj ts).
Proof.
  unfold json_object, JSON_view. intros H. simpl.
  rewrite lookup_app_r, Nat.sub_diag by reflexivity. simpl.
  erewrite view_props_ext; [reflexivity| |exact H].
  intros ??? _. apply view_weaken; [rewrite length_app; simpl; lia|]. by apply prefix_app_r.
Qed.

(** While a batch is open, [queueBatchUpdate] only appends to the queue. *)
Lemma queueBatchUpdate_pending ps : forall w,
  batchUpdatePending (this w) = true ->
  for_each ps queueBatchUpdate w =
    (Ok tt, set_this (set_batchUpdateQueue (batchUpdateQueue (this w) ++ ps) (this w)) w).
Proof.
  induction ps as [|p ps IH]; intros w Hp; cbn [for_each].
  - unfold ret. rewrite app_nil_r. destruct w as [[] ? ? ? ? ? ? ?]. reflexivity.
  - unfold queueBatchUpdate at 1. unfold bind at 1 2. unfold read at 1, gets. rewrite Hp.
    unfold upd, modify. rewrite IH by exact Hp. simpl. unfold push.
    rewrite <- app_assoc. reflexivity.
Qed.

Lemma open_batch ps w :
  exec (startBatchUpdate >> for_each ps queueBatchUpdate) w =
    set_this (set_batchUpdateQueue ps (set_batchUpdatePending true (this w))) w.
Proof.
  unfold exec, startBatchUpdate. unfold bind at 1 2. unfold upd at 1 2, modify.
  rewrite queueBatchUpdate_pending by reflexivity. reflexivity.
Qed.

Lemma middleware_trace_notifications w prev next ms :
  notifications (middleware_trace w prev next ms) = [].
Proof.
  unfold middleware_trace. induction ms as [|m ms IH]; [reflexivity|]. cbn [flat_map].
  rewrite notifications_app, IH, app_nil_r.
  destruct (behaviour w m (mem w) _); [|reflexivity].
  unfold sink. destruct (errorHandler (this w)); reflexivity.
Qed.

(** The merge of [Object.assign]: a key of the last source has the value
    written last for it there; the other keys are as the earlier sources
    left them. *)
Lemma merge_props_get o1 o2 k :
  get_own (merge_props o1 o2) k =
    match get_own (reverse o2) k with
    | Some v => Some v
    | None => get_own o1 k
    end.
Proof.
  unfold merge_props. induction o2 as [|[k' v'] o2 IH] using rev_ind; [reflexivity|].
  rewrite foldl_app, reverse_app. simpl. rewrite get_own_assign, IH.
  destruct (String.eqb k' k); reflexivity.
Qed.

Lemma spread_props_later_wins h q qs p k :
  get_own (spread_props h ((q :: qs) ++ [p])) k =
    match get_own (reverse (props_of h p)) k with
    | Some v => Some v
    | None => get_own (spread_props h (q :: qs)) k
    end.
Proof.
  simpl. rewrite foldl_app. simpl. apply merge_props_get.
Qed.

(** The flush of a batch that holds partials: one object is built from
    them, and one [setState] commits it. *)
Lemma endBatchUpdate_safe w q :
  handler_safe w -> copy_ok w (state (this w)) ->
  batchUpdateQueue (this w) = q -> q <> [] ->
  (deepStateComparison (this w) = true ->
   exists ts, json_object (mem w) (spread_props (mem w) q) ts) ->
  exists w' next c p d,
    endBatchUpdate w = (Ok tt, w') /\
    this w' =
      set_state next (set_prevState p
        (set_redoStack [] (set_undoStack (push c (undoStack (this w)))
          (set_batchUpdateQueue [] (set_batchUpdatePending false (this w)))))) /\
    (forall ts, json_object (mem w) (spread_props (mem w) q) ts ->
                JSON_view (mem w') next = Some (JObj ts)) /\
    (deepStateComparison (this w) = false ->
       props_of (mem w') next = spread_props (mem w) q) /\
    trace w' = trace w ++ d /\
    middleware_calls d = enabledMiddlewares w /\
    notifications d = listeners (this w) ++ fired (mem w') next (eventListeners (this w)).
Proof.
  intros Hs Hc Hq Hne Hj. unfold endBatchUpdate.
  rewrite (bind_ok (upd (set_batchUpdatePending false)) _ w tt _ eq_refl).
  set (wa := set_this (set_batchUpdatePending false (this w)) w).
  rewrite (bind_ok (read batchUpdateQueue) _ wa q wa)
    by (unfold read, gets; simpl; rewrite Hq; reflexivity).
  destruct q as [|p0 q0]; [done|]. set (q := p0 :: q0) in *.
  rewrite (bind_ok (spread q) _ wa (VRef (length (mem w)))
             (set_mem (mem w ++ [spread_props (mem w) q]) wa) eq_refl).
  rewrite (bind_ok (upd (set_batchUpdateQueue [])) _ _ tt _ eq_refl).
  set (wc := set_this _ (set_mem _ wa)).
  assert (Hsc : handler_safe wc) by exact Hs.
  assert (Hcc : copy_ok wc (state (this wc))).
  { eapply (copy_ok_same w); [reflexivity| |exact Hc]. simpl. by apply prefix_app_r. }
  assert (Hmc : copy_ok wc (VRef (length (mem w)))).
  { intros D. destruct (Hj D) as [ts Hts]. exists (JObj ts).
    apply JSON_view_new_object, Hts. }
  destruct (setState_safe (VRef (length (mem w))) true wc Hsc Hcc Hmc)
    as (w1 & w2 & next & c & p' & d & Ecp & E & T & B & P & _ & _ & _ & Tr & N & M
        & Vn & _ & R).
  exists w2, next, c, p',
    (middleware_trace w1 (prevState (this wc)) next (enabledMiddlewares wc) ++ d).
  split; [exact E|]. split; [exact T|].
  split; [intros ts Hts; apply Vn; [apply JSON_view_new_object, Hts|right; eauto]|].
  split.
  { intros D. destruct (R D) as (_ & _ & ->). simpl.
    rewrite lookup_app_r, Nat.sub_diag by reflexivity. reflexivity. }
  split; [exact Tr|].
  rewrite middleware_calls_app, notifications_app, middleware_trace_calls,
    middleware_trace_notifications, M, N, app_nil_r.
  split; reflexivity.
Qed.

(** C5: with an error handler that returns (or none) and, in deep mode,
    a current state and merged partials that are JSON data: after
    [startBatchUpdate] and the queueing of the partials [ps],
    [endBatchUpdate] closes the batch; with no partial it commits nothing and
    notifies nobody; otherwise it commits once the one object that
    [Object.assign] builds from the partials, left to right, a key of a later
    partial replacing the value the earlier ones gave it: one entry goes on
    the undo stack, each enabled middleware and each listener is called once,
    and the state holds the merged properties. *)
Theorem batch_commits_once w ps :
  handler_safe w -> copy_ok w (state (this w)) ->
  (deepStateComparison (this w) = true ->
   exists ts, json_object (mem w) (spread_props (mem w) ps) ts) ->
  let w0 := exec (startBatchUpdate >> for_each ps queueBatchUpdate) w in
  let w' := exec endBatchUpdate w0 in
  batchUpdatePending (this w') = false /\ batchUpdateQueue (this w') = [] /\
  match ps with
  | [] =>
      state (this w') = state (this w) /\ mem w' = mem w /\ trace w' = trace w /\
      undoStack (this w') = undoStack (this w) /\ redoStack (this w') = redoStack (this w)
  | _ :: _ =>
      (forall ts, json_object (mem w) (spread_props (mem w) ps) ts ->
                  JSON_view (mem w') (state (this w')) = Some (JObj ts)) /\
      (deepStateComparison (this w) = false ->
         props_of (mem w') (state (this w')) = spread_props (mem w) ps) /\
      (forall q qs p k,
         get_own (spread_props (mem w) ((q :: qs) ++ [p])) k =
           match get_own (reverse (props_of (mem w) p)) k with
           | Some v => Some v
           | None => get_own (spread_props (mem w) (q :: qs)) k
           end) /\
      (exists c, undoStack (this w') = push c (undoStack (this w))) /\
      redoStack (this w') = [] /\
      exists d,
        trace w' = trace w ++ d /\
        middleware_calls d = enabledMiddlewares w /\
        notifications d =
          listeners (this w) ++
          fired (mem w') (state (this w')) (eventListeners (this w))
  end.
Proof.
  intros Hs Hc Hj w0 w'. unfold w', w0. rewrite open_batch.
  destruct ps as [|p ps]; [done|].
  set (q := p :: ps) in *.
  set (wa := set_this _ w).
  destruct (endBatchUpdate_safe wa q) as (w2 & next & c & p' & d & E & T & V & R & Tr & M & N);
    try done.
  unfold exec. rewrite E. cbn [snd]. rewrite T. simpl.
  split; [reflexivity|]. split; [reflexivity|].
  split; [exact V|]. split; [exact R|].
  split; [intros; apply spread_props_later_wins|].
  split; [eauto|]. split; [reflexivity|].
  exists d. done.
Qed.

Lemma batch_witness :
  let w := before_batch in
  let w0 := exec (startBatchUpdate >> for_each [VRef 3; VRef 4] queueBatchUpdate) w in
  let w' := exec endBatchUpdate w0 in
  JSON_view (mem w') (state (this w')) =
    Some (JObj [("count", JNum 1); ("name", JStr "test")]) /\
  exists d, trace w' = trace w ++ d /\ notifications d = [7].
Proof.
  intros w.
  assert (Hs : handler_safe w) by (intros h H; vm_compute in H; discriminate H).
  assert (Hc : forall v, copy_ok w v) by (intros v D; vm_compute in D; discriminate D).
  destruct (batch_commits_once w [VRef 3; VRef 4] Hs (Hc _))
    as (_ & _ & V & _ & _ & _ & _ & d & Tr & _ & N).
  { intros D. vm_compute in D. discriminate D. }
  split; [apply V; vm_compute; reflexivity|].
  exists d. split; [exact Tr|]. rewrite N. vm_compute. reflexivity.
Defined.

(** ** Debounced calls *)

Lemma earliest_elem ts tm : earliest ts = Some tm -> tm ∈ ts.
Proof.
  revert tm. induction ts as [|t ts IH]; intros tm; simpl; [discriminate|].
  destruct (earliest ts) as [t'|].
  - destruct (due t' <? due t); intros [= <-]; [right; by apply IH|left].
  - intros [= <-]. left.
Qed.

(** No timer fires before it is due. *)
Lemma run_timers_idle n T w :
  (forall tm, tm ∈ timers w -> T < due tm) -> run_timers n T w = w.
Proof.
  intros H. destruct n as [|n]; [reflexivity|]. simpl.
  destruct (earliest (timers w)) as [tm|] eqn:E; [|reflexivity].
  apply earliest_elem, H in E. apply Nat.leb_gt in E. rewrite E. reflexivity.
Qed.

Lemma advance_idle T w :
  (forall tm, tm ∈ timers w -> T < due tm) -> now w <= T -> advance T w = set_now T w.
Proof.
  intros H Hn. unfold advance. rewrite run_timers_idle by exact H.
  rewrite Nat.max_r by exact Hn. reflexivity.
Qed.

(** A debounced call cancels the pending commit of the container and
    schedules its own; nothing else happens. *)
Lemma debounced_call_step u c :
  (forall tm, tm ∈ timers u ->
     debounceTimeout (this u) = Some (tid tm) /\ call_time c < due tm) ->
  now u <= call_time c -> copy_ok u (call_value c) ->
  awaiting u (debounced_call c u) c.
Proof.
  intros Hp Hn Hc. unfold debounced_call.
  rewrite advance_idle; [|intros tm Htm; apply Hp, Htm|exact Hn].
  set (u0 := set_now (call_time c) u).
  assert (Hc0 : copy_ok u0 (call_value c)) by exact Hc.
  destruct (copy_spec _ _ Hc0) as (k & next & Ec & _ & Vn & _ & _).
  unfold exec, setState.
  rewrite (try_bind_ok _ _ _ _ _ _ Ec).
  rewrite (try_bind_ok (read debounceTimeout) _ _ _ _ _ eq_refl).
  unfold clearTimeout.
  assert (Hclear : forall w tms, timers w = tms ->
    (forall tm, tm ∈ tms -> debounceTimeout (this u) = Some (tid tm)) ->
    match debounceTimeout (this u) with
    | Some i => set_timers (List.filter (fun t => negb (tid t =? i)) (timers w)) w
    | None => w
    end = set_timers [] w).
  { intros w tms Ht Hall. destruct (debounceTimeout (this u)) as [i|] eqn:Ei.
    - f_equal. rewrite Ht. clear Ht. induction tms as [|tm tms IH]; [reflexivity|].
      simpl. assert (tid tm = i) as -> by (specialize (Hall tm ltac:(left)); congruence).
      rewrite Nat.eqb_refl. simpl. apply IH. intros tm' H'. apply Hall. by right.
    - destruct tms as [|tm tms].
      + destruct w. simpl in *. subst. reflexivity.
      + specialize (Hall tm ltac:(left)). discriminate. }
  rewrite (try_bind_ok (modify _) _ _ _ tt _ eq_refl).
  cbn [this set_mem u0 set_now].
  rewrite (Hclear _ (timers u)); [|reflexivity|intros tm Htm; apply Hp, Htm].
  rewrite (try_bind_ok (read debounceDelay) _ _ _ _ _ eq_refl).
  rewrite (try_bind_ok (setTimeout next (call_history c) _) _ _ _ _ _ eq_refl).
  unfold try_catch, upd, modify. simpl.
  split; [|split; [reflexivity|split; [by apply prefix_app_r|split; reflexivity]]].
  exists (timer_seq u), next. split; [reflexivity|]. split; [reflexivity|].
  split.
  - intros t Ht Hpl. apply Vn; assumption.
  - intros D. simpl in D.
    destruct (Hc D) as [t Ht]. exists t. simpl. apply Vn; [exact Ht|left; exact D].
Qed.

Lemma last_cons {A} (x d : A) l : List.last (x :: l) d = List.last l x.
Proof.
  revert x d. induction l as [|y l IH]; intros x d; [reflexivity|].
  change (List.last (x :: y :: l) d) with (List.last (y :: l) d).
  rewrite !IH. reflexivity.
Qed.

Lemma awaiting_trans w u0 u1 c c' :
  awaiting w u0 c -> awaiting u0 u1 c' -> awaiting w u1 c'.
Proof.
  intros ((id & nx & T0 & Tm0 & _ & _) & B0 & P0 & Tr0 & N0)
         ((id' & nx' & T1 & Tm1 & V1 & C1) & B1 & P1 & Tr1 & N1).
  split; [|split; [congruence|split; [by etrans|split; [congruence|exact N1]]]].
  exists id', nx'. rewrite T1, Tm1, T0. split; [reflexivity|]. split; [reflexivity|].
  split; [|exact C1].
  intros t Ht Hp. apply V1.
  - eapply JSON_view_prefix; eauto.
  - unfold plain in *. rewrite T0. exact Hp.
Qed.

(** Calls within the window of a pending one: each supersedes the one
    before, and the last one is the one pending. *)
Lemma debounced_calls_awaiting rest : forall w u c,
  awaiting w u c ->
  (forall c', c' ∈ rest -> copy_ok w (call_value c')) ->
  ascending (call_time c) (map call_time rest) ->
  (forall c', c' ∈ rest -> call_time c' < call_time c + debounceDelay (this w)) ->
  awaiting w (debounced_calls rest u) (List.last rest c).
Proof.
  induction rest as [|c' rest IH]; intros w u c Hw Hok Ha Hwin; [exact Hw|].
  destruct Ha as [Ha1 Ha2].
  assert (Hstep : awaiting u (debounced_call c' u) c').
  { destruct Hw as ((id & nx & T0 & Tm0 & _ & _) & B0 & P0 & Tr0 & N0).
    apply debounced_call_step.
    - intros tm. rewrite Tm0, T0. intros ->%list_elem_of_singleton. simpl.
      split; [reflexivity|]. apply Hwin. left.
    - rewrite N0. exact Ha1.
    - eapply (copy_ok_same w); [rewrite T0; reflexivity|exact P0|]. apply Hok. left. }
  pose proof (awaiting_trans _ _ _ _ _ Hw Hstep) as Hw'.
  change (debounced_calls (c' :: rest) u) with (debounced_calls rest (debounced_call c' u)).
  rewrite last_cons.
  apply IH; [exact Hw'| |exact Ha2|].
  - intros c'' H. apply Hok. by right.
  - intros c'' H. specialize (Hwin c'' ltac:(by right)). lia.
Qed.

(** The constructor sets the delay to 200, and reading a stored snapshot
    does not change it. *)
Lemma constructor_debounceDelay v u : debounceDelay (this (exec (constructor v) u)) = 200.
Proof.
  assert (K : keeps debounceDelay
                (initializeStateFromLocalStorage >> upd (set_errorHandler None))).
  { apply keeps_bind; [|intros; apply keeps_upd; intro; reflexivity].
    unfold initializeStateFromLocalStorage. apply keeps_try_catch; [|keeps_auto].
    intros w r w'. split_all; intros [= <- <-]; reflexivity. }
  assert (E0 : exists init u1,
             match v with VUndef => spread [] | _ => ret v end u = (Ok init, u1)).
  { destruct v; eexists _, _; reflexivity. }
  destruct E0 as (init & u1 & E0).
  unfold exec, constructor.
  rewrite (bind_ok _ _ _ _ _ E0).
  rewrite (bind_ok (spread [init]) _ u1 _ _ eq_refl).
  rewrite (bind_ok (spread [init]) _ _ _ _ eq_refl).
  match goal with |- context [bind (upd ?f) ?k ?w] =>
    rewrite (bind_ok (upd f) k w tt _ eq_refl) end.
  match goal with |- context [(?m ?w).2] =>
    destruct (m w) as [r w'] eqn:E end.
  apply K in E. exact E.
Qed.

(** C6: a new container has a delay of 200.  With an error handler that
    returns (or none) and values that can be copied, take debounced calls [c1 :: rest] at ascending times, all within
    one delay of the first, on a container whose own pending commit (if any)
    is not yet due.  Then each call cancels the pending commit and schedules
    its own: after the calls nothing observable has happened and the commit
    of the last call is the one pending; once the delay has elapsed after the
    last call, that commit has run, and it alone: the state reads as the
    last argument, and each enabled middleware and each listener has been
    called once. *)
Theorem debounce_last_call_wins :
  (forall v u, debounceDelay (this (exec (constructor v) u)) = 200) /\
  forall w c1 rest T,
  handler_safe w -> copy_ok w (state (this w)) ->
  (forall c, c ∈ c1 :: rest -> copy_ok w (call_value c)) ->
  (forall tm, tm ∈ timers w ->
     debounceTimeout (this w) = Some (tid tm) /\ call_time c1 < due tm) ->
  ascending (now w) (map call_time (c1 :: rest)) ->
  (forall c, c ∈ rest -> call_time c < call_time c1 + debounceDelay (this w)) ->
  let final := List.last rest c1 in
  call_time final + debounceDelay (this w) <= T ->
  let wn := debounced_calls (c1 :: rest) w in
  let w' := advance T wn in
  awaiting w wn final /\
  timers w' = [] /\
  (forall t, JSON_view (mem w) (call_value final) = Some t -> plain w (call_value final) ->
             JSON_view (mem w') (state (this w')) = Some t) /\
  (exists c, undoStack (this w') =
               if call_history final then push c (undoStack (this w))
               else undoStack (this w)) /\
  exists d,
    trace w' = trace w ++ d /\
    middleware_calls d = enabledMiddlewares w /\
    notifications d =
      listeners (this w) ++ fired (mem w') (state (this w')) (eventListeners (this w)).
Proof.
  split; [apply constructor_debounceDelay|].
  intros w c1 rest T Hs Hc Hok Hp [Ha1 Ha2] Hwin final HT wn w'.
  assert (Hw1 : awaiting w (debounced_call c1 w) c1).
  { apply debounced_call_step; [exact Hp|exact Ha1|]. apply Hok. left. }
  assert (Hwn : awaiting w wn final).
  { apply (debounced_calls_awaiting rest w _ c1 Hw1); [|exact Ha2|exact Hwin].
    intros c H. apply Hok. by right. }
  split; [exact Hwn|].
  destruct Hwn as ((id & nx & T0 & Tm0 & Vn & Cn) & B0 & P0 & Tr0 & N0).
  (* the one timer fires *)
  set (tm := Timer id (call_time final + debounceDelay (this w)) nx (call_history final)) in *.
  set (u1 := set_now (now wn `max` due tm) (set_timers [] wn)).
  assert (Hadv : w' = set_now (now (fire tm u1) `max` T) (fire tm u1)).
  { unfold w', advance. rewrite Tm0. cbn [length run_timers]. rewrite Tm0.
    cbn [earliest]. assert ((due tm <=? T) = true) as -> by (apply Nat.leb_le; exact HT).
    cbn [List.filter]. rewrite Nat.eqb_refl. reflexivity. }
  assert (Hs1 : handler_safe u1).
  { eapply (handler_safe_same w); [simpl; rewrite T0; reflexivity|exact B0|exact Hs]. }
  assert (Hc1 : copy_ok u1 (state (this u1))).
  { simpl. rewrite T0. eapply (copy_ok_same w); [simpl; rewrite T0; reflexivity|exact P0|exact Hc]. }
  destruct (applyStateUpdate_safe nx (call_history final) u1 Hs1 Hc1 Cn)
    as (w2 & c & p & d & E & T2 & B2 & P2 & Ti2 & _ & _ & Tr2 & N2 & M2 & _ & _).
  assert (Hfire : fire tm u1 = w2) by (unfold fire; simpl; rewrite E; reflexivity).
  rewrite Hadv, Hfire. cbn [timers set_now mem this trace].
  split; [rewrite Ti2; reflexivity|]. split; [|split].
  - intros t Ht Hpl. rewrite T2. simpl. eapply JSON_view_prefix; [exact P2|]. by apply Vn.
  - exists c. rewrite T2. simpl. rewrite T0. destruct (call_history final); reflexivity.
  - exists (middleware_trace u1 (prevState (this u1)) nx (enabledMiddlewares u1) ++ d).
    split; [rewrite Tr2; simpl; rewrite Tr0; reflexivity|].
    rewrite middleware_calls_app, notifications_app, middleware_trace_calls,
      middleware_trace_notifications, M2, N2, app_nil_r, T2.
    unfold enabledMiddlewares. simpl. rewrite T0. split; reflexivity.
Qed.

Lemma debounce_witness :
  let w := before_debounce in
  let calls := [(0, VRef 3, true); (0, VRef 4, true); (0, VRef 5, true)] in
  let w' := advance 100 (debounced_calls calls w) in
  state (this (debounced_calls calls w)) = state (this w) /\
  JSON_view (mem w') (state (this w')) = Some (JObj [("count", JNum 3)]) /\
  exists d, trace w' = trace w ++ d /\ notifications d = [7].
Proof.
  intros w calls.
  assert (Hs : handler_safe w) by (intros h H; vm_compute in H; discriminate H).
  assert (Hc : forall v, copy_ok w v) by (intros v D; vm_compute in D; discriminate D).
  destruct (proj2 debounce_last_call_wins w (0, VRef 3, true)
              [(0, VRef 4, true); (0, VRef 5, true)] 100 Hs (Hc _))
    as (((id & nx & T0 & _) & _) & _ & V & _ & d & Tr & _ & N).
  - intros c _. apply Hc.
  - intros tm H. vm_compute in H. inversion H.
  - vm_compute. auto.
  - intros c H. apply list_elem_of_In in H. simpl in H.
    destruct H as [<-|[<-|[]]]; vm_compute; lia.
  - vm_compute. lia.
  - split; [unfold calls; rewrite T0; reflexivity|].
    split; [apply V; [vm_compute; reflexivity|right; eauto]|].
    exists d. split; [exact Tr|]. rewrite N. vm_compute. reflexivity.
Defined.

(** ** Aliasing of the values handed out *)

(** A property written is the property read. *)
Lemma set_prop_read (h : list (list (string * val))) l k x :
  l < length h -> get_own (default [] (set_prop l k x h !! l)) k = Some x.
Proof.
  intros Hl. unfold set_prop. rewrite list_lookup_alter_eq.
  destruct (lookup_lt_is_Some_2 _ _ Hl) as [o ->]. simpl.
  rewrite get_own_assign, String.eqb_refl. reflexivity.
Qed.

(** C7: in deep mode a value returned by [getState] shares nothing with
    the state held: every location reachable from it is new, so a write to a
    property of any object reachable from it leaves the old heap, and with it
    the reading of the state, as they were.  In shallow mode the copy of a
    state object holds the same references as the state: a nested object is
    reachable from both, and a property written to it through the copy is the
    property the state then holds. *)
Theorem getState_aliasing w :
  (deepStateComparison (this w) = true ->
   forall v w', getState w = (Ok v, w') ->
     this w' = this w /\
     forall l, reach (mem w') v l -> forall k x,
       mem w `prefix_of` set_prop l k x (mem w') /\
       JSON_view (set_prop l k x (mem w')) (state (this w)) =
         JSON_view (mem w) (state (this w))) /\
  (deepStateComparison (this w) = false ->
   forall l0 o, state (this w) = VRef l0 -> mem w !! l0 = Some o ->
     exists v w', getState w = (Ok v, w') /\ this w' = this w /\
       forall key n, (key, VRef n) ∈ o ->
         reach (mem w') v n /\ reach (mem w') (state (this w)) n /\
         forall k x, n < length (mem w) ->
           get_own (default [] (set_prop n k x (mem w') !! n)) k = Some x).
Proof.
  split.
  - intros D v w'. unfold getState, copy, bind, read, gets. rewrite D.
    unfold JSON_clone.
    destruct (JSON_view (mem w) (state (this w))) as [t|] eqn:Ev.
    2: { destruct (JSON_roundtrip_fails _ _ Ev) as [e ->]. discriminate. }
    destruct (JSON_roundtrip_spec _ _ _ Ev) as (k & c & -> & Vc & Hl & Hcl).
    intros [= <- <-]. split; [reflexivity|].
    intros l Hr key x. simpl in *.
    pose proof (reach_closed_above _ _ _ _ Hcl Hl Hr) as Hfresh.
    pose proof (set_prop_above (mem w) k l key x Hfresh) as Hpre.
    split; [exact Hpre|]. eapply JSON_view_prefix; eauto.
  - intros D l0 o Es El. unfold getState, copy, bind, read, gets. rewrite D, Es.
    unfold spread, alloc_obj. simpl. rewrite El. simpl.
    eexists _, _. split; [reflexivity|]. split; [reflexivity|].
    intros key n Hin. simpl.
    split; [|split].
    + eapply reach_step; [|exact Hin|apply reach_here].
      rewrite lookup_app_r, Nat.sub_diag by reflexivity. reflexivity.
    + eapply reach_step; [|exact Hin|apply reach_here].
      apply lookup_app_l_Some, El.
    + intros k x Hn. apply set_prop_read. rewrite length_app. lia.
Qed.

Lemma getState_aliasing_witness :
  (let w := nested_store true in
   let w' := exec getState w in
   JSON_view (set_prop 9 "value" (VNum 2) (mem w')) (state (this w)) =
     Some (JObj [("nested", JObj [("value", JNum 1)])])) /\
  (let w := nested_store false in
   let w' := exec getState w in
   JSON_view (set_prop 3 "value" (VNum 2) (mem w')) (state (this w)) =
     Some (JObj [("nested", JObj [("value", JNum 2)])])).
Proof.
  split.
  - intros w w'.
    destruct (getState_aliasing w) as [Hdeep _].
    destruct (Hdeep eq_refl (VRef 10) w' eq_refl) as [_ H].
    destruct (H 9) with (k := "value") (x := VNum 2) as [_ ->].
    + eapply reach_step; [reflexivity| |apply reach_here]. left.
    + reflexivity.
  - intros w w'.
    destruct (getState_aliasing w) as [_ Hshallow].
    destruct (Hshallow eq_refl 5 [("nested", VRef 3)] eq_refl eq_refl)
      as (v & w1 & E & _ & H).
    destruct (H "nested" 3) as (_ & _ & Hw); [left|].
    specialize (Hw "value" (VNum 2)). vm_compute. reflexivity.
Defined.


(** ** Detaching listeners *)

Lemma filter_idem {A} (f : A -> bool) l : List.filter f (List.filter f l) = List.filter f l.
Proof.
  induction l as [|x l IH]; [reflexivity|]. simpl.
  destruct (f x) eqn:E; simpl; rewrite ?E, IH; reflexivity.
Qed.

Lemma filter_absent (g : nat) l :
  ~ In g l -> List.filter (fun x => negb (x =? g)) l = l.
Proof.
  induction l as [|x l IH]; [reflexivity|]. simpl. intros H.
  destruct (Nat.eqb_spec x g) as [->|Hne]; [tauto|]. simpl. rewrite IH; tauto.
Qed.

Lemma filter_gone (g : nat) l : ~ In g (List.filter (fun x => negb (x =? g)) l).
Proof. rewrite filter_In. intros [_ H]. rewrite Nat.eqb_refl in H. discriminate. Qed.

Lemma filter_app_gone (g : nat) l :
  List.filter (fun x => negb (x =? g)) (push g (push g l)) =
  List.filter (fun x => negb (x =? g)) l.
Proof.
  unfold push. rewrite !List.filter_app. simpl. rewrite Nat.eqb_refl. simpl.
  rewrite !app_nil_r. reflexivity.
Qed.

Lemma ev_get_set evs name cbs name' :
  ev_get (ev_set evs name cbs) name' =
    if String.eqb name name' then Some cbs else ev_get evs name'.
Proof.
  induction evs as [|[n old] evs IH]; simpl.
  - destruct (String.eqb name name'); reflexivity.
  - destruct (String.eqb n name) eqn:E0; simpl.
    + apply String.eqb_eq in E0. subst n. destruct (String.eqb name name'); reflexivity.
    + rewrite IH. destruct (String.eqb n name') eqn:E1; [|reflexivity].
      apply String.eqb_eq in E1. subst n. rewrite String.eqb_sym, E0. reflexivity.
Qed.

Lemma ev_set_set evs name a b : ev_set (ev_set evs name a) name b = ev_set evs name b.
Proof.
  induction evs as [|[n old] evs IH]; simpl.
  - rewrite String.eqb_refl. reflexivity.
  - destruct (String.eqb n name) eqn:E; simpl; rewrite E; [reflexivity|].
    rewrite IH. reflexivity.
Qed.

Lemma ev_set_same evs name cbs : ev_get evs name = Some cbs -> ev_set evs name cbs = evs.
Proof.
  induction evs as [|[n old] evs IH]; simpl; [discriminate|].
  destruct (String.eqb n name); [intros [= ->]; reflexivity|].
  intros H. rewrite IH by exact H. reflexivity.
Qed.

(** Registering a callback under a name: the entry of the name ends with
    the callback, the other entries are as before. *)
Lemma on_spec name f w :
  exec (on name f) w =
    set_this (set_eventListeners
                (ev_set (eventListeners (this w)) name
                   (push f (default [] (ev_get (eventListeners (this w)) name))))
                (this w)) w.
Proof.
  unfold exec, on. unfold bind at 1 2. unfold read at 1, gets.
  destruct (ev_get (eventListeners (this w)) name) as [cbs|] eqn:E.
  - unfold ret, upd, modify. simpl. rewrite E. reflexivity.
  - unfold upd, modify. simpl. rewrite ev_get_set, String.eqb_refl, ev_set_set.
    reflexivity.
Qed.

Lemma on_detach_spec name f w cbs :
  ev_get (eventListeners (this w)) name = Some cbs ->
  on_detach name f w =
    (Ok tt, set_this (set_eventListeners
                        (ev_set (eventListeners (this w)) name
                           (List.filter (fun cb => negb (cb =? f)) cbs))
                        (this w)) w).
Proof.
  intros E. unfold on_detach, bind, read, gets. rewrite E. reflexivity.
Qed.

(** C8: after the same listener was subscribed twice, one call of the
    detach function leaves no registration of it, keeps the other listeners
    in order, and a second call changes nothing; detaching a listener that
    is not registered changes nothing.  The same holds for a callback
    registered twice under one event name with [on], where the entries of
    the other names are left as they were; where the whole registry was
    emptied in between, the detach function of [on] throws and changes
    nothing. *)
Theorem detach_removes_every_registration :
  (forall w f,
     let w2 := exec (subscribe f) (exec (subscribe f) w) in
     let w3 := exec (subscribe_detach f) w2 in
     listeners (this w3) = List.filter (fun l => negb (l =? f)) (listeners (this w)) /\
     ~ In f (listeners (this w3)) /\
     exec (subscribe_detach f) w3 = w3) /\
  (forall w f,
     ~ In f (listeners (this w)) ->
     listeners (this (exec (subscribe_detach f) w)) = listeners (this w)) /\
  (forall w name f,
     let w2 := exec (on name f) (exec (on name f) w) in
     let w3 := exec (on_detach name f) w2 in
     ev_get (eventListeners (this w3)) name =
       Some (List.filter (fun cb => negb (cb =? f))
               (default [] (ev_get (eventListeners (this w)) name))) /\
     (forall cbs, ev_get (eventListeners (this w3)) name = Some cbs -> ~ In f cbs) /\
     (forall other, other <> name ->
        ev_get (eventListeners (this w3)) other = ev_get (eventListeners (this w)) other) /\
     exec (on_detach name f) w3 = w3) /\
  (forall w name f cbs,
     ev_get (eventListeners (this w)) name = Some cbs -> ~ In f cbs ->
     eventListeners (this (exec (on_detach name f) w)) = eventListeners (this w)) /\
  (forall w name f,
     ev_get (eventListeners (this w)) name = None ->
     exists e, on_detach name f w = (Throw e, w)).
Proof.
  split; [|split; [|split; [|split]]].
  - intros w f w2 w3. unfold w3, w2, exec, subscribe, subscribe_detach, upd, modify. simpl.
    rewrite filter_app_gone. split; [reflexivity|]. split; [apply filter_gone|].
    rewrite filter_idem. reflexivity.
  - intros w f H. unfold exec, subscribe_detach, upd, modify. simpl.
    apply filter_absent, H.
  - intros w name f w2 w3.
    set (old := default [] (ev_get (eventListeners (this w)) name)).
    assert (E3 : w3 = set_this (set_eventListeners
                   (ev_set (eventListeners (this w)) name
                      (List.filter (fun cb => negb (cb =? f)) old)) (this w)) w).
    { unfold w3, w2. rewrite !on_spec. unfold exec.
      erewrite on_detach_spec
        by (simpl; rewrite ev_get_set, String.eqb_refl; reflexivity).
      simpl. rewrite ev_get_set, String.eqb_refl. simpl. rewrite !ev_set_set.
      fold old. rewrite filter_app_gone. reflexivity. }
    rewrite E3. simpl. rewrite ev_get_set, String.eqb_refl.
    split; [reflexivity|]. split; [|split].
    + intros cbs [= <-]. apply filter_gone.
    + intros other Hne. rewrite ev_get_set.
      destruct (String.eqb_spec name other); [congruence|reflexivity].
    + unfold exec. erewrite on_detach_spec
        by (simpl; rewrite ev_get_set, String.eqb_refl; reflexivity).
      simpl. rewrite ev_set_set, filter_idem. reflexivity.
  - intros w name f cbs E H. unfold exec. rewrite (on_detach_spec _ _ _ _ E). simpl.
    rewrite filter_absent by exact H. apply ev_set_same, E.
  - intros w name f E. unfold on_detach, bind, read, gets, throw. rewrite E. eauto.
Qed.

(** ** JSON text: reading what was written *)

Section JSONText.
Import JS JSON.

Lemma parse_value_S fuel s :
  parse_value (S fuel) s =
    match skip_ws s with
    | String c s' =>
        let n := N_of_ascii c in
        if (n =? 110)%N then s1 ← expect "null" (String c s'); Some (JNull, s1)
        else if (n =? 116)%N then s1 ← expect "true" (String c s'); Some (JBool true, s1)
        else if (n =? 102)%N then s1 ← expect "false" (String c s'); Some (JBool false, s1)
        else if (n =? 34)%N then
          match parse_chars s' with
          | Some (r, rest) => Some (JStr r, rest)
          | None => None
          end
        else if (n =? 45)%N then
          match parse_nat s' with
          | Some (z, rest) => Some (JNum (- z), rest)
          | None => None
          end
        else if is_digit c then
          match parse_nat (String c s') with
          | Some (z, rest) => Some (JNum z, rest)
          | None => None
          end
        else if (n =? 123)%N then
          match skip_ws s' with
          | String d s1 =>
              if (N_of_ascii d =? 125)%N then Some (JObj [], s1)
              else parse_members (parse_value fuel) (String.length s') [] s'
          | EmptyString => None
          end
        else None
    | EmptyString => None
    end.
Proof. reflexivity. Qed.

Lemma str_app_cons c (a b : string) : String c a +:+ b = String c (a +:+ b).
Proof. reflexivity. Qed.

Lemma str_app_nil_l (a : string) : "" +:+ a = a.
Proof. reflexivity. Qed.

Lemma str_app_assoc (a b c : string) : (a +:+ b) +:+ c = a +:+ (b +:+ c).
Proof. induction a as [|x a IH]; [reflexivity|]. rewrite !str_app_cons, ?IH. simpl. rewrite ?IH. reflexivity. Qed.

Lemma str_app_nil_r (a : string) : a +:+ "" = a.
Proof. induction a as [|x a IH]; [reflexivity|]. rewrite !str_app_cons, ?IH. simpl. rewrite ?IH. reflexivity. Qed.

Lemma str_length_app (a b : string) :
  String.length (a +:+ b) = String.length a + String.length b.
Proof. induction a as [|x a IH]; [reflexivity|]. rewrite !str_app_cons, ?IH. simpl. rewrite ?IH. reflexivity. Qed.

Lemma skip_ws_app ws s : all_ws ws = true -> skip_ws (ws +:+ s) = skip_ws s.
Proof.
  induction ws as [|c ws IH]; [reflexivity|].
  rewrite str_app_cons. simpl. intros H. apply andb_prop in H as [Hc Hws].
  rewrite Hc. auto.
Qed.

Lemma all_ws_app a b : all_ws a = true -> all_ws b = true -> all_ws (a +:+ b) = true.
Proof.
  induction a as [|c a IH]; [auto|].
  rewrite str_app_cons. simpl. intros H Hb. apply andb_prop in H as [Hc Ha].
  rewrite Hc. simpl. auto.
Qed.

Lemma skip_ws_idem s : skip_ws (skip_ws s) = skip_ws s.
Proof.
  induction s as [|c s IH]; simpl; [reflexivity|].
  destruct (is_ws c) eqn:E; [exact IH|]. simpl. rewrite E. reflexivity.
Qed.

Lemma parse_value_skip fuel s : parse_value fuel (skip_ws s) = parse_value fuel s.
Proof.
  destruct fuel; [reflexivity|]. rewrite !parse_value_S, skip_ws_idem. reflexivity.
Qed.

Lemma parse_value_ws fuel ws s :
  all_ws ws = true -> parse_value fuel (ws +:+ s) = parse_value fuel s.
Proof.
  intros H. rewrite <- parse_value_skip, skip_ws_app, parse_value_skip by exact H.
  reflexivity.
Qed.

Lemma substring_all s : String.substring 0 (String.length s) s = s.
Proof. induction s as [|c s IH]; simpl; [reflexivity|]. rewrite IH. reflexivity. Qed.

Lemma substring_app a b n :
  String.substring (String.length a) n (a +:+ b) = String.substring 0 n b.
Proof. induction a as [|c a IH]; [reflexivity|]. rewrite str_app_cons. simpl. exact IH. Qed.

Lemma prefix_app a b : String.prefix a (a +:+ b) = true.
Proof.
  induction a as [|c a IH]; [by destruct b|].
  rewrite str_app_cons. simpl. destruct (ascii_dec c c); [exact IH|congruence].
Qed.

Lemma expect_app lit rest : expect lit (lit +:+ rest) = Some rest.
Proof.
  unfold expect. rewrite prefix_app. f_equal.
  rewrite str_length_app.
  replace (String.length lit + String.length rest - String.length lit)
    with (String.length rest) by lia.
  rewrite substring_app. apply substring_all.
Qed.

(** *** String literals *)

Lemma escape_char_parse c s r rest :
  parse_chars s = Some (r, rest) ->
  parse_chars (escape_char c +:+ s) = Some (String c r, rest).
Proof.
  intros H.
  destruct c as [[] [] [] [] [] [] [] []];
    lazy -[parse_chars]; cbn [parse_chars]; lazy -[parse_chars];
    rewrite H; reflexivity.
Qed.

Lemma escape_parse s rest :
  parse_chars (escape s +:+ String (ascii_of_N 34) rest) = Some (s, rest).
Proof.
  induction s as [|c s IH]; [reflexivity|].
  cbn [escape]. rewrite str_app_assoc. apply escape_char_parse. exact IH.
Qed.

Lemma quote_parse s rest :
  exists s1, quote s +:+ rest = String (ascii_of_N 34) s1 /\
             parse_chars s1 = Some (s, rest).
Proof.
  unfold quote. eexists. split; [rewrite str_app_cons; reflexivity|].
  rewrite str_app_assoc. apply escape_parse.
Qed.

(** *** Numbers *)

Lemma pretty_N_char_digit d :
  (d < 10)%N ->
  is_digit (pretty_N_char d) = true /\
  (N_of_ascii (pretty_N_char d) - 48)%N = d.
Proof.
  intros H.
  assert (d = 0 \/ d = 1 \/ d = 2 \/ d = 3 \/ d = 4 \/ d = 5 \/ d = 6 \/ d = 7 \/
          d = 8 \/ d = 9)%N as C by lia.
  repeat (destruct C as [->|C]; [split; reflexivity|]). subst. split; reflexivity.
Qed.

Lemma parse_digits_go x : forall acc s,
  exists acc', parse_digits acc (pretty_N_go x s) = parse_digits acc' s /\
               (acc = 0%Z -> acc' = Z.of_N x).
Proof.
  induction (N.lt_wf_0 x) as [x _ IH]. intros acc s.
  destruct (decide (x = 0%N)) as [->|N].
  { rewrite pretty_N_go_0. eauto. }
  rewrite pretty_N_go_step by lia.
  destruct (IH (x `div` 10)%N) with (acc := acc)
    (s := String (pretty_N_char (x `mod` 10)) s) as (a1 & E1 & V1).
  { apply N.div_lt; lia. }
  rewrite E1. cbn [parse_digits].
  destruct (pretty_N_char_digit (x `mod` 10)%N) as [D V].
  { apply N.mod_lt. lia. }
  rewrite D, V. eexists. split; [reflexivity|].
  intros A. rewrite (V1 A). rewrite (N.div_mod x 10) at 3 by lia. lia.
Qed.

Lemma pretty_N_go_app x : forall s r, pretty_N_go x s +:+ r = pretty_N_go x (s +:+ r).
Proof.
  induction (N.lt_wf_0 x) as [x _ IH]. intros s r.
  destruct (decide (x = 0%N)) as [->|N]; [by rewrite !pretty_N_go_0|].
  rewrite (pretty_N_go_step x s), (pretty_N_go_step x (s +:+ r)) by lia.
  rewrite IH by (apply N.div_lt; lia). reflexivity.
Qed.

Lemma pretty_N_go_head x : forall s,
  (0 < x)%N ->
  exists c s', pretty_N_go x s = String c s' /\ is_digit c = true /\
               (N_of_ascii c =? 48)%N = false.
Proof.
  induction (N.lt_wf_0 x) as [x _ IH]. intros s P.
  rewrite pretty_N_go_step by lia.
  destruct (decide (x < 10)%N) as [L|G].
  - rewrite N.div_small, pretty_N_go_0 by lia. rewrite N.mod_small by lia.
    eexists _, _. split; [reflexivity|].
    assert (x = 1 \/ x = 2 \/ x = 3 \/ x = 4 \/ x = 5 \/ x = 6 \/ x = 7 \/
            x = 8 \/ x = 9)%N as C by lia.
    repeat (destruct C as [->|C]; [split; reflexivity|]). subst. split; reflexivity.
  - apply IH.
    + apply N.div_lt; lia.
    + apply N.div_str_pos. lia.
Qed.

Lemma parse_digits_stop acc rest :
  delimited rest = true -> parse_digits acc rest = (acc, rest).
Proof.
  destruct rest as [|c rest]; [reflexivity|]. simpl.
  intros H. apply andb_prop in H as [H _]. apply negb_true_iff in H. rewrite H.
  reflexivity.
Qed.

Lemma delimited_fraction rest : delimited rest = true -> starts_fraction rest = false.
Proof.
  destruct rest as [|c rest]; [reflexivity|]. unfold delimited.
  intros H. apply andb_prop in H as [_ H]. by apply negb_true_iff in H.
Qed.

Lemma parse_nat_pretty (x : N) rest :
  delimited rest = true -> parse_nat (pretty x +:+ rest) = Some (Z.of_N x, rest).
Proof.
  intros D. unfold pretty, pretty_N.
  destruct (decide (x = 0%N)) as [->|N].
  - rewrite str_app_cons, str_app_nil_l. cbn [parse_nat].
    change (N_of_ascii "0" =? 48)%N with true. cbv iota.
    destruct rest as [|d rest']; [reflexivity|].
    rewrite (delimited_fraction _ D).
    simpl in D. apply andb_prop in D as [D _]. apply negb_true_iff in D.
    rewrite D. reflexivity.
  - rewrite pretty_N_go_app, str_app_nil_l.
    destruct (pretty_N_go_head x rest) as (c & s' & E & Dg & Z); [lia|].
    destruct (parse_digits_go x 0 rest) as (a & Ea & Va).
    rewrite E in *. cbn [parse_nat]. rewrite Z, Dg, Ea, (Va eq_refl).
    rewrite parse_digits_stop by exact D.
    rewrite (delimited_fraction _ D). reflexivity.
Qed.

Lemma print_obj gap indent ps :
  print gap indent (JObj ps) =
    let inner := indent +:+ gap in
    let colon := if String.eqb gap "" then ":" else ": " in
    match print_parts (print gap inner) colon ps with
    | [] => "{}"
    | parts =>
        if String.eqb gap "" then "{" +:+ join "," parts +:+ "}"
        else "{" +:+ newline +:+ inner
                 +:+ join ("," +:+ newline +:+ inner) parts
                 +:+ newline +:+ indent +:+ "}"
    end.
Proof.
  cbn [print]. cbv zeta.
  set (go := fix go (ps : list (string * json)) : list string := _).
  assert (E : go ps = print_parts
                        (print gap (indent +:+ gap))
                        (if String.eqb gap "" then ":" else ": ") ps).
  { induction ps as [|[k t] ps IH]; [reflexivity|]. cbn [go print_parts map fst snd].
    f_equal. exact IH. }
  rewrite E. destruct (print_parts _ _ ps); reflexivity.
Qed.

Lemma join_cons sep p q ps : join sep (p :: q :: ps) = p +:+ sep +:+ join sep (q :: ps).
Proof. reflexivity. Qed.

Lemma put_member_new acc k t :
  k ∉ map fst acc -> put_member acc k t = acc ++ [(k, t)].
Proof.
  induction acc as [|[k' t'] acc IH]; [reflexivity|].
  intros N. cbn [put_member]. destruct (String.eqb k' k) eqn:E.
  - apply String.eqb_eq in E. subst. exfalso. apply N. left.
  - rewrite IH; [reflexivity|]. intros I. apply N. right. exact I.
Qed.

(** The members of an object, as they are laid out between the braces. *)
Lemma members_ok (pv : string -> option (json * string)) (pr : json -> string)
    (sp pre post rest : string) :
  all_ws sp = true -> all_ws pre = true -> all_ws post = true ->
  forall ps p n acc,
    length ps < n ->
    NoDup (map fst (acc ++ p :: ps)) ->
    Forall (fun kt => forall r, delimited r = true ->
                        pv (sp +:+ pr kt.2 +:+ r) = Some (kt.2, r)) (p :: ps) ->
    parse_members pv n acc
      (pre +:+ join ("," +:+ pre) (print_parts pr (":" +:+ sp) (p :: ps))
           +:+ post +:+ "}" +:+ rest)
      = Some (JObj (acc ++ p :: ps), rest).
Proof.
  intros Wsp Wpre Wpost. induction ps as [|q ps IH]; intros [k t] n acc Ln ND Hpv.
  - destruct n as [|n]; [simpl in Ln; lia|].
    cbn [parse_members print_parts map join fst snd].
    rewrite skip_ws_app by exact Wpre.
    rewrite !str_app_assoc.
    destruct (quote_parse k (":" +:+ sp +:+ pr t +:+ post +:+ "}" +:+ rest))
      as (s1 & -> & E2).
    cbn [skip_ws]. change (is_ws (ascii_of_N 34)) with false. cbv iota.
    change (N_of_ascii (ascii_of_N 34) =? 34)%N with true. cbv iota. rewrite E2.
    rewrite str_app_cons, str_app_nil_l. cbn [skip_ws].
    change (is_ws ":") with false. cbv iota.
    change (N_of_ascii ":" =? 58)%N with true. cbv iota.
    inversion Hpv as [|? ? H1 _]; subst. simpl in H1.
    rewrite H1.
    2:{ destruct post as [|c post]; [reflexivity|].
        simpl in Wpost. apply andb_prop in Wpost as [Wc _].
        rewrite str_app_cons. unfold delimited, starts_fraction.
        revert Wc. unfold is_ws, is_digit.
        destruct (N_of_ascii c) as [|pc]; [discriminate|].
        intros Wc. repeat (apply orb_prop in Wc as [Wc|Wc]);
          apply N.eqb_eq in Wc; rewrite Wc; reflexivity. }
    rewrite skip_ws_app by exact Wpost. rewrite str_app_cons, str_app_nil_l.
    cbn [skip_ws]. change (is_ws "}") with false. cbv iota.
    change (N_of_ascii "}" =? 44)%N with false.
    change (N_of_ascii "}" =? 125)%N with true. cbv iota.
    rewrite put_member_new; [reflexivity|].
    rewrite map_app in ND. apply NoDup_app in ND as (_ & D & _).
    intros I. apply (D _ I). left.
  - destruct n as [|n]; [simpl in Ln; lia|].
    cbn [print_parts map] in *. rewrite join_cons.
    cbn [parse_members fst snd].
    rewrite skip_ws_app by exact Wpre.
    rewrite !str_app_assoc.
    match goal with
    | |- context [quote k +:+ ?r] => destruct (quote_parse k r) as (s1 & -> & E2)
    end.
    cbn [skip_ws]. change (is_ws (ascii_of_N 34)) with false. cbv iota.
    change (N_of_ascii (ascii_of_N 34) =? 34)%N with true. cbv iota. rewrite E2.
    rewrite str_app_cons, str_app_nil_l. cbn [skip_ws].
    change (is_ws ":") with false. cbv iota.
    change (N_of_ascii ":" =? 58)%N with true. cbv iota.
    inversion Hpv as [|? ? H1 H2]; subst. simpl in H1.
    rewrite H1 by reflexivity.
    rewrite str_app_cons, str_app_nil_l. cbn [skip_ws].
    change (is_ws ",") with false. cbv iota.
    change (N_of_ascii "," =? 44)%N with true. cbv iota.
    rewrite put_member_new.
    2:{ rewrite map_app in ND. apply NoDup_app in ND as (_ & D & _).
        intros I. apply (D _ I). left. }
    specialize (IH q n (acc ++ [(k, t)])).
    rewrite <- !str_app_assoc in IH |- *. rewrite <- !app_assoc in IH.
    rewrite !str_app_assoc in IH |- *.
    apply IH.
    + simpl in Ln. lia.
    + exact ND.
    + exact H2.
Qed.

Lemma distinct_keys_obj ps :
  distinct_keys (JObj ps) = true ->
  NoDup (map fst ps) /\ Forall (fun kt => distinct_keys kt.2 = true) ps.
Proof.
  induction ps as [|[k t] ps IH]; [split; constructor|].
  cbn [distinct_keys]. intros H.
  apply andb_prop in H as [H H3]. apply andb_prop in H as [H1 H2].
  destruct (IH H3) as [N F]. split.
  - cbn [map fst]. constructor; [|exact N].
    rewrite forallb_forall in H1. intros I.
    apply list_elem_of_fmap in I as ([k' t'] & -> & I).
    apply list_elem_of_In in I. specialize (H1 _ I). simpl in H1.
    rewrite String.eqb_refl in H1. discriminate.
  - constructor; [exact H2|exact F].
Qed.

Lemma is_digit_range c :
  is_digit c = true -> (48 <= N_of_ascii c <= 57)%N.
Proof.
  unfold is_digit. intros H. apply andb_prop in H as [A B].
  apply N.leb_le in A, B. lia.
Qed.

Lemma parse_literal fuel lit t rest c s' :
  lit = String c s' ->
  (forall r, parse_value (S fuel) (String c r) =
             (s1 ← expect lit (String c r); Some (t, s1))) ->
  parse_value (S fuel) (lit +:+ rest) = Some (t, rest).
Proof.
  intros -> H. rewrite str_app_cons, H, <- str_app_cons, expect_app. reflexivity.
Qed.

Lemma parse_null fuel rest : parse_value (S fuel) ("null" +:+ rest) = Some (JNull, rest).
Proof. eapply parse_literal; [reflexivity|]. intros r. reflexivity. Qed.

Lemma parse_true fuel rest : parse_value (S fuel) ("true" +:+ rest) = Some (JBool true, rest).
Proof. eapply parse_literal; [reflexivity|]. intros r. reflexivity. Qed.

Lemma parse_false fuel rest :
  parse_value (S fuel) ("false" +:+ rest) = Some (JBool false, rest).
Proof. eapply parse_literal; [reflexivity|]. intros r. reflexivity. Qed.

Lemma parse_string fuel s rest :
  parse_value (S fuel) (quote s +:+ rest) = Some (JStr s, rest).
Proof.
  destruct (quote_parse s rest) as (s1 & -> & E).
  rewrite parse_value_S. cbn [skip_ws].
  change (is_ws (ascii_of_N 34)) with false. cbv iota zeta.
  change (N_of_ascii (ascii_of_N 34)) with 34%N. cbv iota beta.
  change (34 =? 110)%N with false. change (34 =? 116)%N with false.
  change (34 =? 102)%N with false. change (34 =? 34)%N with true. cbv iota.
  rewrite E. reflexivity.
Qed.

Lemma parse_digit_head fuel c s' :
  is_digit c = true ->
  parse_value (S fuel) (String c s') =
    match parse_nat (String c s') with
    | Some (z, rest) => Some (JNum z, rest)
    | None => None
    end.
Proof.
  intros D. pose proof (is_digit_range c D) as R.
  rewrite parse_value_S. cbn [skip_ws].
  assert (W : is_ws c = false).
  { unfold is_ws. repeat (apply orb_false_intro); apply N.eqb_neq; lia. }
  rewrite W. cbv zeta.
  repeat match goal with
         | |- context [(N_of_ascii c =? ?k)%N] =>
             replace (N_of_ascii c =? k)%N with false by (symmetry; apply N.eqb_neq; lia)
         end.
  rewrite D. reflexivity.
Qed.

Lemma parse_number fuel z rest :
  delimited rest = true -> parse_value (S fuel) (pretty z +:+ rest) = Some (JNum z, rest).
Proof.
  intros D. destruct z as [|p|p].
  - change (pretty 0%Z) with (pretty 0%N).
    change (pretty 0%N +:+ rest) with (String "0" rest).
    rewrite parse_digit_head by reflexivity.
    change (String "0" rest) with (pretty 0%N +:+ rest).
    rewrite parse_nat_pretty by exact D. reflexivity.
  - change (pretty (Z.pos p)) with (pretty (N.pos p)).
    pose proof (parse_nat_pretty (N.pos p) rest D) as E.
    unfold pretty, pretty_N in E |- *.
    destruct (decide (N.pos p = 0%N)); [discriminate|].
    rewrite pretty_N_go_app, str_app_nil_l in E |- *.
    destruct (pretty_N_go_head (N.pos p) rest) as (c & s' & Eh & Dg & _); [lia|].
    rewrite Eh in *. rewrite parse_digit_head by exact Dg. rewrite E. reflexivity.
  - change (pretty (Z.neg p)) with ("-" +:+ pretty (N.pos p)).
    rewrite str_app_assoc, str_app_cons, str_app_nil_l.
    rewrite parse_value_S. cbn [skip_ws]. change (is_ws "-") with false. cbv iota zeta.
    change (N_of_ascii "-") with 45%N.
    change (45 =? 110)%N with false. change (45 =? 116)%N with false.
    change (45 =? 102)%N with false. change (45 =? 34)%N with false.
    change (45 =? 45)%N with true. cbv iota.
    rewrite parse_nat_pretty by exact D. reflexivity.
Qed.

Lemma join_length sep parts :
  Forall (fun p => 1 <= String.length p) parts ->
  length parts <= String.length (join sep parts).
Proof.
  induction parts as [|p [|q parts] IH]; intros F.
  - simpl. lia.
  - inversion F; subst. simpl. lia.
  - inversion F as [|? ? F1 F2]; subst. rewrite join_cons, !str_length_app.
    specialize (IH F2). cbn [length] in *. lia.
Qed.

Lemma join_bound sep parts p :
  p ∈ parts -> String.length p <= String.length (join sep parts).
Proof.
  induction parts as [|q [|r parts] IH]; intros I.
  - inversion I.
  - apply list_elem_of_singleton in I. subst. reflexivity.
  - rewrite join_cons, !str_length_app. apply elem_of_cons in I as [->|I].
    + lia.
    + specialize (IH I). lia.
Qed.

Lemma quote_length s : 2 <= String.length (quote s).
Proof. unfold quote. rewrite str_app_cons. simpl. rewrite str_length_app. simpl. lia. Qed.

Lemma depth_props_elem ps k t : (k, t) ∈ ps -> depth t <= depth_props ps.
Proof.
  induction ps as [|[k' t'] ps IH]; intros I; [inversion I|].
  cbn [depth_props]. apply elem_of_cons in I as [[= -> ->]|I]; [lia|].
  specialize (IH I). lia.
Qed.

(** A tree is no deeper than its text is long. *)
Lemma print_depth t : forall gap indent, depth t <= String.length (print gap indent t).
Proof.
  induction t as [| | | |ps IH] using json_ind'; intros gap indent; try (simpl; lia).
  rewrite depth_obj, print_obj. cbv zeta.
  destruct (depth_props_max ps) as [Z|(k & t & I & E)].
  { rewrite Z. destruct (print_parts _ _ ps); [simpl; lia|].
    destruct (String.eqb gap ""); rewrite str_app_cons; cbn [String.length]; lia. }
  rewrite <- E.
  assert (B : depth t <= String.length (print gap (indent +:+ gap) t)).
  { rewrite Forall_forall in IH. apply (IH (k, t) I). }
  set (colon := if String.eqb gap "" then ":" else ": ").
  assert (P : quote k +:+ colon +:+ print gap (indent +:+ gap) t
                ∈ print_parts (print gap (indent +:+ gap)) colon ps).
  { unfold print_parts. apply list_elem_of_fmap. exists (k, t). split; [reflexivity|exact I]. }
  destruct (print_parts _ _ ps) as [|p parts] eqn:Ep; [inversion P|].
  destruct (String.eqb gap "").
  - pose proof (join_bound "," _ _ P) as J.
    rewrite !str_length_app in *.
    change (String.length "{") with 1. change (String.length "}") with 1. lia.
  - pose proof (join_bound ("," +:+ newline +:+ indent +:+ gap) _ _ P) as J.
    rewrite !str_length_app in *.
    change (String.length "{") with 1. change (String.length "}") with 1. lia.
Qed.

Lemma print_parts_length pr colon ps :
  Forall (fun p => 1 <= String.length p) (print_parts pr colon ps).
Proof.
  unfold print_parts. apply Forall_fmap, Forall_forall. intros [k t] _. simpl.
  rewrite str_length_app. pose proof (quote_length k). lia.
Qed.

Lemma all_ws_newline s : all_ws s = true -> all_ws (newline +:+ s) = true.
Proof. intros H. unfold newline. rewrite str_app_cons, str_app_nil_l. exact H. Qed.

(** Reading what [print] wrote gives the tree back, and stops where the
    text of the tree ends. *)
Lemma print_parse t : forall gap indent fuel rest,
  distinct_keys t = true -> all_ws gap = true -> all_ws indent = true ->
  depth t < fuel -> delimited rest = true ->
  parse_value fuel (print gap indent t +:+ rest) = Some (t, rest).
Proof.
  induction t as [|b|z|s|ps IH] using json_ind';
    intros gap indent fuel rest K Wg Wi Hf D;
    (destruct fuel as [|fuel]; [lia|]).
  - apply parse_null.
  - destruct b; [apply parse_true|apply parse_false].
  - apply parse_number. exact D.
  - apply parse_string.
  - apply distinct_keys_obj in K as [ND KF].
    rewrite depth_obj in Hf.
    set (inner := indent +:+ gap).
    assert (Winner : all_ws inner = true) by (by apply all_ws_app).
    destruct ps as [|p ps].
    { reflexivity. }
    set (sp := if String.eqb gap "" then "" else " ").
    set (pre := if String.eqb gap "" then "" else newline +:+ inner).
    set (post := if String.eqb gap "" then "" else newline +:+ indent).
    assert (Wsp : all_ws sp = true) by (subst sp; destruct (String.eqb gap ""); reflexivity).
    assert (Wpre : all_ws pre = true).
    { subst pre; destruct (String.eqb gap ""); [reflexivity|by apply all_ws_newline]. }
    assert (Wpost : all_ws post = true).
    { subst post; destruct (String.eqb gap ""); [reflexivity|by apply all_ws_newline]. }
    set (parts := print_parts (print gap inner) (":" +:+ sp) (p :: ps)).
    assert (E : print gap indent (JObj (p :: ps)) +:+ rest
                = String "{" (pre +:+ join ("," +:+ pre) parts
                                  +:+ post +:+ "}" +:+ rest)).
    { rewrite print_obj. cbv zeta. fold inner.
      subst parts sp pre post. destruct (String.eqb gap "").
      - cbn [print_parts map]. rewrite !str_app_assoc. reflexivity.
      - cbn [print_parts map]. rewrite !str_app_assoc. reflexivity. }
    rewrite E. clear E.
    set (body := pre +:+ join ("," +:+ pre) parts +:+ post +:+ "}" +:+ rest).
    assert (M : parse_members (parse_value fuel) (String.length body) [] body
                = Some (JObj (p :: ps), rest)).
    { subst body parts. apply (members_ok _ _ sp pre post rest Wsp Wpre Wpost ps p _ []).
      - pose proof (join_length ("," +:+ pre) _
                      (print_parts_length (print gap inner) (":" +:+ sp) (p :: ps))) as J.
        unfold print_parts in J at 1. rewrite length_map in J. cbn [length] in J.
        rewrite !str_length_app. lia.
      - exact ND.
      - rewrite Forall_forall in IH, KF. apply Forall_forall. intros [k t] I r Dr.
        rewrite parse_value_ws by exact Wsp.
        apply (IH (k, t) I); try assumption.
        + apply (KF (k, t) I).
        + pose proof (depth_props_elem _ _ _ I). simpl. lia. }
    rewrite parse_value_S. cbn [skip_ws]. change (is_ws "{") with false. cbv iota zeta.
    change (N_of_ascii "{") with 123%N.
    change (123 =? 110)%N with false. change (123 =? 116)%N with false.
    change (123 =? 102)%N with false. change (123 =? 34)%N with false.
    change (123 =? 45)%N with false. change (is_digit "{") with false.
    change (123 =? 123)%N with true. cbv iota.
    rewrite M.
    assert (Hd : exists s1, skip_ws body = String (ascii_of_N 34) s1).
    { subst body parts. rewrite skip_ws_app by exact Wpre.
      destruct p as [k t]. cbn [print_parts map fst snd].
      destruct ps as [|q ps'].
      - cbn [map join]. rewrite !str_app_assoc.
        match goal with
        | |- context [quote k +:+ ?r] => destruct (quote_parse k r) as (s1 & -> & _)
        end. eauto.
      - cbn [map]. rewrite join_cons, !str_app_assoc.
        match goal with
        | |- context [quote k +:+ ?r] => destruct (quote_parse k r) as (s1 & -> & _)
        end. eauto. }
    destruct Hd as [s1 ->]. reflexivity.
Qed.

Lemma all_ws_spaces n : all_ws (spaces_string n) = true.
Proof. induction n as [|n IH]; [reflexivity|]. simpl. exact IH. Qed.

(** [JSON.parse(JSON.stringify(t, null, spaces))] is [t]. *)
Lemma parse_stringify t spaces :
  distinct_keys t = true -> parse (stringify t spaces) = Some t.
Proof.
  intros K. unfold parse, stringify.
  set (gap := spaces_string (spaces `min` 10)).
  pose proof (print_parse t gap "" (S (String.length (print gap "" t))) "" K
                (all_ws_spaces _) eq_refl) as P.
  rewrite str_app_nil_r in P. rewrite P; [reflexivity| |reflexivity].
  pose proof (print_depth t gap ""). lia.
Qed.

End JSONText.
(** ** The persistence adapter: round trips and failures *)

Section PersistenceMore.
Import JS Eff PersistenceMiddleware PersistenceScenarios.
Local Open Scope eff_scope.

Lemma saveState_json w state :
  fileType (options (this w)) = "json" ->
  saveState state w =
    match JSON_view (mem w) state with
    | Some t =>
        if refuses (fs w) OpWrite (filePath (this w))
        then (Ok false, logged "PersistenceMiddleware: Error saving state:" w)
        else (Ok true,
              set_files (<[filePath (this w) :=
                             JSON.stringify t (spaces (options (this w)))]>
                           (files (fs w))) w)
    | None => (Ok false, logged "PersistenceMiddleware: Error saving state:" w)
    end.
Proof.
  intros J. unfold saveState, read, console_error, JSON_stringify, fs_writeFile.
  eff_unfold. simpl. rewrite J. simpl.
  destruct state; try reflexivity;
    (destruct (JSON_view (mem w) _) as [t|]; [|reflexivity]);
    simpl; destruct (refuses _ _ _); reflexivity.
Qed.

Lemma alloc_reads t h h' v : alloc t h = (h', v) -> JSON_view h' v = Some t.
Proof.
  intros A. destruct (alloc_spec t h h' v A) as (k & _ & _ & _ & _ & V).
  apply (JSON_view_complete (depth t)). apply V. reflexivity.
Qed.

Lemma loadState_json w text t :
  fileType (options (this w)) = "json" ->
  refuses (fs w) OpRead (filePath (this w)) = false ->
  files (fs w) !! filePath (this w) = Some text ->
  JSON.parse text = Some t ->
  exists h v, alloc t (mem w) = (h, v) /\ loadState w = (Ok v, set_mem h w).
Proof.
  intros J R F P. unfold loadState, parseFileContent, read, console_error, fs_readFile,
    JSON_parse. eff_unfold. simpl. rewrite R, F. simpl. rewrite J. simpl. rewrite P.
  destruct (alloc t (mem w)) as [h v]. eauto.
Qed.

(** X1: a state that is JSON data, saved and loaded again, is the state. *)
Theorem saveState_loadState_round_trip w state t :
  fileType (options (this w)) = "json" ->
  JSON_view (mem w) state = Some t -> JSON.distinct_keys t = true ->
  refuses (fs w) OpWrite (filePath (this w)) = false ->
  refuses (fs w) OpRead (filePath (this w)) = false ->
  exists w1 v w2,
    saveState state w = (Ok true, w1) /\
    files (fs w1) !! filePath (this w) =
      Some (JSON.stringify t (spaces (options (this w)))) /\
    loadState w1 = (Ok v, w2) /\
    JSON_view (mem w2) v = Some t /\
    this w2 = this w /\ fs w2 = fs w1 /\ console w2 = console w.
Proof.
  intros J V K W R. rewrite (saveState_json _ _ J), V, W.
  eexists. 
  edestruct (loadState_json
               (set_files (<[filePath (this w) :=
                               JSON.stringify t (spaces (options (this w)))]>
                             (files (fs w))) w)) as (h & v & A & L).
  - exact J.
  - exact R.
  - simpl. apply lookup_insert_eq.
  - apply parse_stringify. exact K.
  - exists v. eexists. split; [reflexivity|]. split; [simpl; apply lookup_insert_eq|].
    split; [exact L|]. split; [|done].
    simpl in *. eapply alloc_reads. exact A.
Qed.

Lemma saveState_loadState_witness :
  exists w1 v w2,
    saveState (VRef 0) counted_world = (Ok true, w1) /\
    loadState w1 = (Ok v, w2) /\
    JSON_view (mem w2) v = Some (JObj [("count", JNum 1)]).
Proof.
  destruct (saveState_loadState_round_trip counted_world (VRef 0)
              (JObj [("count", JNum 1)]))
    as (w1 & v & w2 & A & _ & B & C & _); try reflexivity.
  exists w1, v, w2. auto.
Defined.


(** X2: [saveState] never rejects.  With the JSON file type its flag is true
    exactly when the state can be serialized and the write is permitted; a
    failed save leaves the file system as it was and writes one line to the
    console; a successful one changes the file at the path only. *)
Theorem saveState_contains_failures w state :
  fileType (options (this w)) = "json" ->
  exists b w',
    saveState state w = (Ok b, w') /\ this w' = this w /\ mem w' = mem w /\
    (b = true <-> is_Some (JSON_view (mem w) state) /\
                  refuses (fs w) OpWrite (filePath (this w)) = false) /\
    (b = false ->
       fs w' = fs w /\
       console w' = console w ++ ["PersistenceMiddleware: Error saving state:"]) /\
    (b = true ->
       console w' = console w /\
       forall p, p <> filePath (this w) -> files (fs w') !! p = files (fs w) !! p).
Proof.
  intros J. rewrite (saveState_json _ _ J).
  destruct (JSON_view (mem w) state) as [t|] eqn:V.
  - destruct (refuses (fs w) OpWrite (filePath (this w))) eqn:R.
    + eexists _, _. split; [reflexivity|]. repeat split; try done.
      intros [_ ?]; done.
    + eexists _, _. split; [reflexivity|]. repeat split; try done; eauto.
      intros p N. simpl. by rewrite lookup_insert_ne.
  - eexists _, _. split; [reflexivity|]. repeat split; try done.
    intros [[? ?] _]; done.
Qed.

Lemma saveState_failure_witness :
  exists w', saveState (VRef 0) saved_world = (Ok false, w') /\ fs w' = fs saved_world.
Proof.
  destruct (saveState_contains_failures saved_world (VRef 0) eq_refl)
    as (b & w' & E & _ & _ & I & F & _).
  destruct b.
  - destruct I as [I _]. destruct (I eq_refl) as [[t Ht] _]. vm_compute in Ht.
    discriminate.
  - exists w'. split; [exact E|]. apply F. reflexivity.
Defined.




Lemma backup_path_fresh p : p +:+ ".backup" <> p.
Proof.
  intros E. apply (f_equal String.length) in E. rewrite str_length_app in E.
  simpl in E. lia.
Qed.

(** X4: [backupState] never rejects; when it returns true the backup file
    holds what the primary file holds; when it returns false the backup file
    is as it was. *)
Theorem backupState_copies_primary w state :
  exists b w',
    backupState state w = (Ok b, w') /\ this w' = this w /\
    (b = true ->
     exists content,
       files (fs w') !! filePath (this w) = Some content /\
       files (fs w') !! (filePath (this w) +:+ ".backup") = Some content) /\
    (b = false ->
     files (fs w') !! (filePath (this w) +:+ ".backup")
       = files (fs w) !! (filePath (this w) +:+ ".backup")).
Proof.
  destruct (saveState_total state w) as (b0 & w1 & E & T).
  assert (F : files (fs w1) !! (filePath (this w) +:+ ".backup")
              = files (fs w) !! (filePath (this w) +:+ ".backup")).
  { revert E. unfold saveState, read, console_error, JSON_stringify, toString,
      fs_writeFile. eff_unfold. simpl.
    split_all; intros [= <- <-]; simpl; try reflexivity;
      by rewrite lookup_insert_ne by (symmetry; apply backup_path_fresh). }
  unfold backupState, read, console_error, fs_copyFile, fs_readFile, fs_writeFile.
  eff_unfold. simpl. rewrite E. simpl. rewrite T.
  destruct (refuses (fs w1) OpRead (filePath (this w))); simpl.
  { eexists _, _. split; [reflexivity|]. simpl. repeat split; try done. }
  destruct (files (fs w1) !! filePath (this w)) as [content|] eqn:C; simpl.
  2:{ eexists _, _. split; [reflexivity|]. simpl. repeat split; try done. }
  destruct (refuses (fs w1) OpWrite (filePath (this w) +:+ ".backup")); simpl.
  { eexists _, _. split; [reflexivity|]. simpl. repeat split; try done. }
  eexists _, _. split; [reflexivity|]. simpl. split; [exact T|]. split; [|done].
  intros _. exists content. split.
  - rewrite lookup_insert_ne by apply backup_path_fresh. exact C.
  - apply lookup_insert_eq.
Qed.


Lemma fileExists_spec path w :
  fileExists (Some path) w =
    (Ok (negb (refuses (fs w) OpAccess path) &&
         match files (fs w) !! path with Some _ => true | None => false end), w).
Proof.
  unfold fileExists, fs_access. eff_unfold. simpl.
  destruct (refuses (fs w) OpAccess path); simpl; [reflexivity|].
  destruct (files (fs w) !! path); reflexivity.
Qed.

(** X5: without a backup file, or without access to it, [restoreFromBackup]
    returns null and does nothing else: no file is written and nothing is
    logged. *)
Theorem restoreFromBackup_without_backup w :
  files (fs w) !! (filePath (this w) +:+ ".backup") = None \/
  refuses (fs w) OpAccess (filePath (this w) +:+ ".backup") = true ->
  restoreFromBackup w = (Ok VNull, w).
Proof.
  intros H. unfold restoreFromBackup, read. eff_unfold. simpl.
  rewrite fileExists_spec.
  destruct H as [H|H]; rewrite H; simpl; [|reflexivity].
  rewrite andb_false_r. reflexivity.
Qed.

Lemma restoreFromBackup_witness :
  restoreFromBackup empty_directory = (Ok VNull, empty_directory).
Proof. apply restoreFromBackup_without_backup. left. reflexivity. Defined.

Lemma restoreFromBackup_copies u text :
  files (fs u) !! (filePath (this u) +:+ ".backup") = Some text ->
  refuses (fs u) OpAccess (filePath (this u) +:+ ".backup") = false ->
  refuses (fs u) OpRead (filePath (this u) +:+ ".backup") = false ->
  refuses (fs u) OpWrite (filePath (this u)) = false ->
  restoreFromBackup u =
    loadState (set_files (<[filePath (this u) := text]> (files (fs u))) u).
Proof.
  intros F A R W.
  unfold restoreFromBackup, read, console_error, fs_copyFile, fs_readFile, fs_writeFile.
  eff_unfold. simpl. rewrite fileExists_spec, A, F. simpl. rewrite R, F. simpl.
  rewrite W. simpl.
  destruct (loadState_total (set_files (<[filePath (this u) := text]> (files (fs u))) u))
    as (v & w' & ->). reflexivity.
Qed.

(** X6: a state that is JSON data is recovered from its backup whatever
    became of the primary file in between. *)
Theorem backup_restore_round_trip w state t (damage : option string) :
  fileType (options (this w)) = "json" ->
  JSON_view (mem w) state = Some t -> JSON.distinct_keys t = true ->
  (forall op p, refuses (fs w) op p = false) ->
  exists w1 v w3,
    backupState state w = (Ok true, w1) /\
    restoreFromBackup
      (set_files (partial_alter (fun _ => damage) (filePath (this w)) (files (fs w1))) w1)
      = (Ok v, w3) /\
    JSON_view (mem w3) v = Some t /\
    files (fs w3) !! filePath (this w) =
      Some (JSON.stringify t (spaces (options (this w)))).
Proof.
  intros J V K P.
  set (path := filePath (this w)).
  set (text := JSON.stringify t (spaces (options (this w)))).
  assert (B : backupState state w =
    (Ok true, set_files (<[path +:+ ".backup" := text]> (<[path := text]> (files (fs w)))) w)).
  { unfold backupState, read, console_error, fs_copyFile, fs_readFile, fs_writeFile.
    eff_unfold. simpl. rewrite (saveState_json _ _ J), V, P. simpl.
    rewrite !P. fold path. rewrite lookup_insert_eq. simpl. rewrite !P. reflexivity. }
  rewrite B.
  exists (set_files (<[path +:+ ".backup" := text]> (<[path := text]> (files (fs w)))) w).
  set (w2 := set_files (partial_alter _ _ _) _).
  assert (Fb : files (fs w2) !! (filePath (this w2) +:+ ".backup") = Some text).
  { subst w2. simpl. rewrite lookup_partial_alter_ne by (symmetry; apply backup_path_fresh).
    apply lookup_insert_eq. }
  rewrite (restoreFromBackup_copies w2 text Fb) by apply P.
  match goal with
  | |- context [loadState ?u] =>
      destruct (loadState_json u text t) as (h & v & A & L)
  end.
  - exact J.
  - apply P.
  - simpl. apply lookup_insert_eq.
  - apply parse_stringify. exact K.
  - rewrite L. exists v. eexists. split; [reflexivity|]. split; [reflexivity|]. split.
    + simpl. eapply alloc_reads. exact A.
    + simpl. apply lookup_insert_eq.
Qed.

Lemma backup_restore_witness :
  exists w1 v w3,
    backupState (VRef 0) counted_world = (Ok true, w1) /\
    restoreFromBackup (set_files (delete "test-state.json" (files (fs w1))) w1)
      = (Ok v, w3) /\
    JSON_view (mem w3) v = Some (JObj [("count", JNum 1)]).
Proof.
  destruct (backup_restore_round_trip counted_world (VRef 0)
              (JObj [("count", JNum 1)]) None)
    as (w1 & v & w3 & A & B & C & _); try reflexivity.
  exists w1, v, w3. auto.
Defined.


(** X7: [renameFile] never rejects.  It returns true exactly when the file
    exists and the move is permitted; the content is then found under the
    new path, which the instance adopts, and no longer under the old one.
    When it returns false the instance and the files are as they were. *)
Theorem renameFile_moves_or_keeps w newFilePath :
  exists b w',
    renameFile newFilePath w = (Ok b, w') /\
    (b = true <->
       is_Some (files (fs w) !! filePath (this w)) /\
       refuses (fs w) OpRename (filePath (this w)) = false) /\
    (b = true ->
       filePath (this w') = newFilePath /\ options (this w') = options (this w) /\
       files (fs w') !! newFilePath = files (fs w) !! filePath (this w) /\
       (newFilePath <> filePath (this w) -> files (fs w') !! filePath (this w) = None) /\
       console w' = console w) /\
    (b = false ->
       this w' = this w /\ fs w' = fs w /\
       console w' = console w ++ ["PersistenceMiddleware: Error renaming file:"]).
Proof.
  unfold renameFile, read, console_error, fs_rename. eff_unfold. simpl.
  destruct (refuses (fs w) OpRename (filePath (this w))) eqn:R; simpl.
  { eexists _, _. split; [reflexivity|]. repeat split; try done. intros [_ ?]; done. }
  destruct (files (fs w) !! filePath (this w)) as [content|] eqn:F; simpl.
  - eexists _, _. split; [reflexivity|]. simpl. repeat split; try done; eauto.
    + apply lookup_insert_eq.
    + intros N. rewrite lookup_insert_ne by done. apply lookup_delete_eq.
  - eexists _, _. split; [reflexivity|]. repeat split; try done.
    intros [[? ?] _]; done.
Qed.

(** X8: [deleteFile] never rejects and returns true exactly when the file
    exists and unlinking is permitted.  After a successful delete the file is
    gone, the other files are as they were, [fileExists] says false, and a
    second delete returns false. *)
Theorem deleteFile_once w :
  exists b w',
    deleteFile w = (Ok b, w') /\ this w' = this w /\
    (b = true <->
       is_Some (files (fs w) !! filePath (this w)) /\
       refuses (fs w) OpUnlink (filePath (this w)) = false) /\
    (b = true ->
       files (fs w') !! filePath (this w) = None /\
       (forall p, p <> filePath (this w) -> files (fs w') !! p = files (fs w) !! p) /\
       (fileExists None w').1 = Ok false /\
       (deleteFile w').1 = Ok false) /\
    (b = false -> fs w' = fs w).
Proof.
  unfold deleteFile, fileExists, read, console_error, fs_unlink, fs_access.
  eff_unfold. simpl.
  destruct (refuses (fs w) OpUnlink (filePath (this w))) eqn:R; simpl.
  { eexists _, _. split; [reflexivity|]. repeat split; try done. intros [_ ?]; done. }
  destruct (files (fs w) !! filePath (this w)) as [content|] eqn:F; simpl.
  - eexists _, _. split; [reflexivity|]. simpl. rewrite R, !lookup_delete_eq.
    repeat split; try done; eauto.
    + intros p N. by rewrite lookup_delete_ne.
    + destruct (refuses (fs w) OpAccess (filePath (this w))); reflexivity.
  - eexists _, _. split; [reflexivity|]. repeat split; try done.
    intros [[? ?] _]; done.
Qed.


Lemma getFileSize_spec w :
  getFileSize w =
    if refuses (fs w) OpStat (filePath (this w))
    then (Ok 0, logged "PersistenceMiddleware: Error getting file size:" w)
    else
      match files (fs w) !! filePath (this w) with
      | Some content => (Ok (String.length content), w)
      | None => (Ok 0, logged "PersistenceMiddleware: Error getting file size:" w)
      end.
Proof.
  unfold getFileSize, read, console_error, fs_stat. eff_unfold. simpl.
  destruct (refuses _ _ _); [reflexivity|].
  destruct (files (fs w) !! filePath (this w)); reflexivity.
Qed.

(** X9: [appendToFile] never rejects and fails only when the write is
    refused.  It creates a missing file; the file then holds the old content
    followed by the new, and where [stat] is permitted the size reported
    grows by the length of what was appended. *)
Theorem appendToFile_grows w content :
  exists b w',
    appendToFile content w = (Ok b, w') /\ this w' = this w /\
    (b = true <-> refuses (fs w) OpWrite (filePath (this w)) = false) /\
    (b = true ->
       files (fs w') !! filePath (this w) =
         Some (default "" (files (fs w) !! filePath (this w)) +:+ content) /\
       (refuses (fs w) OpStat (filePath (this w)) = false ->
        forall n, (getFileSize w).1 = Ok n ->
                  (getFileSize w').1 = Ok (n + String.length content))) /\
    (b = false -> fs w' = fs w).
Proof.
  unfold appendToFile, read, console_error, fs_appendFile. eff_unfold. simpl.
  destruct (refuses (fs w) OpWrite (filePath (this w))) eqn:R; simpl.
  { eexists _, _. split; [reflexivity|]. repeat split; try done. }
  eexists _, _. split; [reflexivity|]. simpl. repeat split; try done.
  - apply lookup_insert_eq.
  - intros St n. rewrite !getFileSize_spec. simpl. rewrite St, lookup_insert_eq.
    destruct (files (fs w) !! filePath (this w)); simpl; intros [= <-];
      rewrite str_length_app; reflexivity.
Qed.

(** X10: [truncateFile] never rejects and returns true exactly when the file
    exists and the write is permitted; the file is then empty and
    [isFileEmpty] says so.  It does not create a missing file. *)
Theorem truncateFile_empties w :
  exists b w',
    truncateFile w = (Ok b, w') /\ this w' = this w /\
    (b = true <->
       is_Some (files (fs w) !! filePath (this w)) /\
       refuses (fs w) OpWrite (filePath (this w)) = false) /\
    (b = true ->
       files (fs w') !! filePath (this w) = Some "" /\
       (isFileEmpty w').1 = Ok true /\
       (forall p, p <> filePath (this w) -> files (fs w') !! p = files (fs w) !! p)) /\
    (b = false -> fs w' = fs w).
Proof.
  unfold truncateFile, read, console_error, fs_truncate. eff_unfold. simpl.
  destruct (refuses (fs w) OpWrite (filePath (this w))) eqn:R; simpl.
  { eexists _, _. split; [reflexivity|]. repeat split; try done. intros [_ ?]; done. }
  destruct (files (fs w) !! filePath (this w)) as [content|] eqn:F; simpl.
  - eexists _, _. split; [reflexivity|]. simpl. split; [done|].
    split; [split; [eauto|done]|]. split; [|done]. intros _.
    split; [apply lookup_insert_eq|]. split.
    + unfold isFileEmpty. eff_unfold. rewrite getFileSize_spec. simpl.
      rewrite lookup_insert_eq.
      destruct (refuses (fs w) OpStat (filePath (this w))); reflexivity.
    + intros p N. by rewrite lookup_insert_ne.
  - eexists _, _. split; [reflexivity|]. repeat split; try done.
    intros [[? ?] _]; done.
Qed.

Lemma substring_length s : forall a n,
  a + n <= String.length s -> String.length (String.substring a n s) = n.
Proof.
  induction s as [|c s IH]; intros a n H; simpl in H.
  - assert (a = 0) by lia. assert (n = 0) by lia. subst. reflexivity.
  - destruct a as [|a]; simpl.
    + destruct n as [|n]; [reflexivity|]. simpl. rewrite IH by lia. reflexivity.
    + apply IH. lia.
Qed.

Lemma substring_prefix a b : String.substring 0 (String.length a) (a +:+ b) = a.
Proof.
  induction a as [|c a IH]; [by destruct b|].
  rewrite str_app_cons. simpl. rewrite IH. reflexivity.
Qed.

Lemma substring_skip a b n m :
  String.substring (String.length a + n) m (a +:+ b) = String.substring n m b.
Proof. induction a as [|c a IH]; [reflexivity|]. rewrite str_app_cons. simpl. exact IH. Qed.

Lemma substring_halves s q :
  q <= String.length s ->
  String.substring 0 q s +:+ String.substring q (String.length s - q) s = s.
Proof.
  revert q. induction s as [|c s IH]; intros q H; simpl in H.
  - assert (q = 0) by lia. subst. reflexivity.
  - destruct q as [|q].
    + simpl. rewrite substring_all. reflexivity.
    + simpl. rewrite str_app_cons, IH by lia. reflexivity.
Qed.


Lemma substring_to q s : substring s 0 q = String.substring 0 (q `min` String.length s) s.
Proof.
  unfold substring. rewrite Nat.min_0_l, Nat.max_0_l, Nat.sub_0_r. reflexivity.
Qed.

Lemma substring_from q s :
  substring s q (String.length s) =
    String.substring (q `min` String.length s)
      (String.length s - q `min` String.length s) s.
Proof.
  unfold substring. rewrite Nat.min_id.
  rewrite (Nat.min_l (q `min` _)), (Nat.max_r (q `min` _)) by lia. reflexivity.
Qed.

(** X11: [writeFileChunk] inserts: the content goes in at the position, or
    at the end when the position lies beyond it, and nothing of the old
    content is lost; the chunk read back at that place is the chunk
    written.  On a missing file it returns false and creates nothing. *)
Theorem writeFileChunk_inserts w content position old :
  files (fs w) !! filePath (this w) = Some old ->
  refuses (fs w) OpRead (filePath (this w)) = false ->
  refuses (fs w) OpWrite (filePath (this w)) = false ->
  let q := position `min` String.length old in
  (exists w',
     writeFileChunk content position w = (Ok true, w') /\ this w' = this w /\
     files (fs w') !! filePath (this w) =
       Some (String.substring 0 q old +:+ content
               +:+ String.substring q (String.length old - q) old) /\
     String.substring 0 q old +:+ String.substring q (String.length old - q) old = old /\
     readFileChunk q (q + String.length content) w' = (Ok (VStr content), w')) /\
  (forall u, files (fs u) !! filePath (this u) = None ->
     writeFileChunk content position u =
       (Ok false, logged "PersistenceMiddleware: Error writing file chunk:" u)).
Proof.
  intros F R W q. split.
  - unfold writeFileChunk, read, console_error, fs_readFile, fs_writeFile.
    eff_unfold. simpl. rewrite R, F. simpl. rewrite W.
    rewrite substring_to, substring_from. fold q.
    eexists. split; [reflexivity|]. simpl. split; [done|].
    split; [apply lookup_insert_eq|].
    split; [apply substring_halves; lia|].
    unfold readFileChunk, read, console_error, fs_readFile. eff_unfold. simpl.
    rewrite R, lookup_insert_eq. simpl. do 3 f_equal.
    assert (Lq : String.length (String.substring 0 q old) = q).
    { apply substring_length. lia. }
    unfold substring. rewrite !str_length_app, Lq.
    rewrite (Nat.min_l q), (Nat.min_l (q + _)) by lia.
    rewrite (Nat.min_l q), (Nat.max_r q) by lia.
    replace (q + String.length content - q) with (String.length content) by lia.
    rewrite <- Lq at 1. rewrite <- (Nat.add_0_r (String.length _)).
    rewrite substring_skip. apply substring_prefix.
  - intros u Fu. unfold writeFileChunk, read, console_error, fs_readFile.
    eff_unfold. simpl. rewrite Fu.
    destruct (refuses (fs u) OpRead (filePath (this u))); reflexivity.
Qed.

Lemma writeFileChunk_witness :
  exists w',
    writeFileChunk "," 5 greeting_world = (Ok true, w') /\
    files (fs w') !! "state.json" = Some "hello, world" /\
    readFileChunk 5 6 w' = (Ok (VStr ","), w').
Proof.
  destruct (writeFileChunk_inserts greeting_world "," 5 "hello world")
    as [(w' & A & _ & B & _ & C) _]; try reflexivity.
  exists w'. auto.
Defined.

(** X12: [validateState] accepts the values that are JSON data and refuses
    the others, undefined and cyclic structures, with one line on the
    console; it never touches the files, and [saveStateWithValidation] writes
    nothing for a value it refuses. *)
Theorem validateState_accepts_json_data w state :
  (forall t, JSON_view (mem w) state = Some t -> JSON.distinct_keys t = true ->
     exists w', validateState state w = (Ok true, w') /\
       this w' = this w /\ fs w' = fs w /\ console w' = console w /\
       JSON_view (mem w') state = Some t) /\
  (JSON_view (mem w) state = None ->
     validateState state w =
       (Ok false, logged "PersistenceMiddleware: Invalid state object:" w) /\
     saveStateWithValidation state w =
       (Ok false, logged "PersistenceMiddleware: Invalid state object:" w)).
Proof.
  split.
  - intros t V K.
    assert (S : JSON_stringify state 0 w = (Ok (Some (JSON.stringify t 0)), w)).
    { unfold JSON_stringify. destruct state; try discriminate; rewrite V; reflexivity. }
    unfold validateState, console_error. eff_unfold. rewrite S.
    unfold JSON_parse. rewrite (parse_stringify _ _ K).
    destruct (alloc t (mem w)) as [h v] eqn:A.
    destruct (alloc_spec _ _ _ _ A) as (k & -> & _).
    eexists. split; [reflexivity|]. simpl. repeat split; try done.
    eapply JSON_view_prefix; [|exact V]. by apply prefix_app_r.
  - intros V.
    assert (E : validateState state w =
                (Ok false, logged "PersistenceMiddleware: Invalid state object:" w)).
    { unfold validateState, console_error, JSON_stringify, JSON_parse. eff_unfold.
      destruct state; try discriminate; try rewrite V; reflexivity. }
    split; [exact E|]. unfold saveStateWithValidation. eff_unfold. rewrite E. reflexivity.
Qed.


End PersistenceMore.
(** ** The state container: more of its methods *)

(** *** Events triggered by hand *)






(** ** What a guarded method never does: reject *)

Lemma host_kept_framed {A} (m : M world A) : framed m -> host_kept m.
Proof. intros Hm w r w' E. destruct (Hm _ _ _ E) as (d & -> & -> & _). done. Qed.

Lemma host_kept_bind {A B} (m : M world A) (k : A -> M world B) :
  host_kept m -> (forall a, host_kept (k a)) -> host_kept (bind m k).
Proof.
  intros Hm Hk w r w'. unfold bind.
  destruct (m w) as [[a|e] w1] eqn:E1; destruct (Hm _ _ _ E1) as [<- <-].
  - apply Hk.
  - intros [= <- <-]. done.
Qed.

Lemma host_kept_try_catch {A} (m : M world A) (k : err -> M world A) :
  host_kept m -> (forall e, host_kept (k e)) -> host_kept (try_catch m k).
Proof.
  intros Hm Hk w r w'. unfold try_catch.
  destruct (m w) as [[a|e] w1] eqn:E1; destruct (Hm _ _ _ E1) as [<- <-].
  - intros [= <- <-]. done.
  - apply Hk.
Qed.

Lemma host_kept_upd (g : instance -> instance) :
  (forall i, errorHandler (g i) = errorHandler i) -> host_kept (upd g).
Proof. intros H w r w' [= <- <-]. simpl. split; [apply H|done]. Qed.

Lemma host_kept_clearTimeout id : host_kept (clearTimeout id).
Proof. intros w r w' [= <- <-]. destruct id; done. Qed.

Lemma host_kept_setTimeout v add delay : host_kept (setTimeout v add delay).
Proof. intros w r w' [= <- <-]. done. Qed.

Ltac host_step :=
  match goal with
  | |- forall _, _ => intro
  | |- host_kept (match ?v with _ => _ end) => destruct v
  | |- host_kept (Eff.bind _ _) => apply host_kept_bind
  | |- host_kept (Eff.try_catch _ _) => apply host_kept_try_catch
  | |- host_kept (upd _) => apply host_kept_upd; intro; reflexivity
  | |- host_kept (clearTimeout _) => apply host_kept_clearTimeout
  | |- host_kept (setTimeout _ _ _) => apply host_kept_setTimeout
  | |- host_kept _ => solve [apply host_kept_framed; auto with framed]
  | |- host_kept _ => solve [eauto]
  end.

Ltac host_auto := repeat host_step.

Lemma host_kept_applyStateUpdate next add : host_kept (applyStateUpdate next add).
Proof. unfold applyStateUpdate. host_auto. Qed.

Lemma host_kept_setState v add debounce : host_kept (setState v add debounce).
Proof. pose proof host_kept_applyStateUpdate. unfold setState. host_auto. Qed.

Lemma host_kept_mergeState p : host_kept (mergeState p).
Proof. unfold mergeState. host_auto. Qed.

(** A body guarded by [catch (err) { this.handleError(err) }] returns when
    the handler does. *)
Lemma guarded_returns (m : M world unit) w :
  host_kept m -> handler_safe w ->
  exists w', try_catch m handleError w = (Ok tt, w') /\ handler_safe w'.
Proof.
  intros Hm Hs. unfold try_catch. destruct (m w) as [[[]|e] w1] eqn:E;
    destruct (Hm _ _ _ E) as [He Hb];
    pose proof (handler_safe_same w w1 He Hb Hs) as Hs1.
  - eauto.
  - rewrite handleError_safe by exact Hs1. eexists. split; [reflexivity|].
    eapply handler_safe_same; [| |exact Hs1]; reflexivity.
Qed.

(** X15: with an error handler that returns (or none), the methods whose
    body sits in [try { } catch (err) { this.handleError(err) }] never reject,
    whatever they are given and whatever the callbacks throw, and they leave
    the handler in place: [setState], [applyStateUpdate], [mergeState],
    [patchState], [queueBatchUpdate], [endBatchUpdate].  [redo] has no such
    guard: re-installing a null state while an event callback is registered
    throws. *)
Theorem guarded_methods_never_reject w :
  handler_safe w ->
  (forall v add debounce,
     exists w', setState v add debounce w = (Ok tt, w') /\ handler_safe w') /\
  (forall v add, exists w', applyStateUpdate v add w = (Ok tt, w') /\ handler_safe w') /\
  (forall p, exists w', mergeState p w = (Ok tt, w') /\ handler_safe w') /\
  (forall p, exists w', patchState p w = (Ok tt, w') /\ handler_safe w') /\
  (forall p, exists w', queueBatchUpdate p w = (Ok tt, w') /\ handler_safe w') /\
  (exists w', endBatchUpdate w = (Ok tt, w') /\ handler_safe w') /\
  (handler_safe null_restored /\
   (redo null_restored).1 = Throw (TypeError "Cannot read properties")).
Proof.
  intros Hs.
  assert (Hset : forall u v add debounce, handler_safe u ->
            exists w', setState v add debounce u = (Ok tt, w') /\ handler_safe w').
  { intros u v add debounce Hu. apply guarded_returns; [|exact Hu].
    pose proof host_kept_applyStateUpdate. host_auto. }
  assert (Hmerge : forall p, exists w', mergeState p w = (Ok tt, w') /\ handler_safe w').
  { intros p. apply guarded_returns; [|exact Hs]. host_auto. }
  split; [intros; by apply Hset|].
  split; [intros v add; apply guarded_returns; [host_auto|exact Hs]|].
  split; [exact Hmerge|]. split; [exact Hmerge|].
  split; [|split].
  - intros p. unfold queueBatchUpdate, bind, read, gets.
    destruct (batchUpdatePending (this w)); [|apply Hmerge].
    eexists. split; [reflexivity|]. exact Hs.
  - unfold endBatchUpdate, bind, read, upd, gets, modify. simpl.
    destruct (batchUpdateQueue (this w)) as [|q qs]; [eexists; split; [reflexivity|exact Hs]|].
    unfold spread, alloc_obj. simpl. apply Hset. exact Hs.
  - split; [|vm_compute; reflexivity]. intros h E. vm_compute in E. discriminate.
Qed.

Lemma guarded_methods_witness :
  exists w', setState VUndef true false fresh_store = (Ok tt, w').
Proof.
  destruct (guarded_methods_never_reject fresh_store) as (S & _).
  - intros h H; vm_compute in H; discriminate H.
  - destruct (S VUndef true false) as (w' & E & _). exists w'. exact E.
Defined.

(** X16: in deep mode a value that [JSON.stringify] cannot turn into text
    (undefined, or a cyclic structure) is never committed: [setState] reports
    one error and changes nothing else: no state, no history entry, no
    timer, no call of a middleware or a listener. *)
Theorem setState_refuses_uncopyable w newState add debounce :
  handler_safe w -> deepStateComparison (this w) = true ->
  JSON_view (mem w) newState = None ->
  exists e, setState newState add debounce w = (Ok tt, set_trace (trace w ++ [sink w e]) w) /\
            notifications [sink w e] = [] /\ middleware_calls [sink w e] = [].
Proof.
  intros Hs D V. destruct (JSON_roundtrip_fails _ _ V) as [e E]. exists e.
  split; [|apply sink_quiet].
  unfold setState, try_catch, copy, bind at 1 2. unfold read at 1, gets.
  rewrite D. unfold JSON_clone. rewrite E. apply handleError_safe. exact Hs.
Qed.

Lemma setState_refuses_witness :
  exists e,
    setState (VRef 3) true false cyclic_store =
      (Ok tt, set_trace [ConsoleError e] cyclic_store).
Proof.
  destruct (setState_refuses_uncopyable cyclic_store (VRef 3) true false) as (e & E & _).
  - intros h H; vm_compute in H; discriminate H.
  - reflexivity.
  - reflexivity.
  - exists e. rewrite E. reflexivity.
Defined.

(** ** Merging *)

Lemma spread_two h s p :
  spread_props h [s; p] = merge_props (props_of h s) (props_of h p).
Proof. reflexivity. Qed.

(** [mergeState] is the commit, without a history entry, of the object
    spread from the state and the partial. *)
Lemma mergeState_as_commit w p :
  let o := spread_props (mem w) [state (this w); p] in
  let w1 := set_mem (mem w ++ [o]) w in
  forall next w0,
    (if deepStateComparison (this w) then JSON_clone (VRef (length (mem w))) w1
     else (Ok (VRef (length (mem w))), w1)) = (Ok next, w0) ->
    mergeState p w = applyStateUpdate next false w0.
Proof.
  intros o w1 next w0 H. unfold mergeState.
  rewrite (try_bind_ok (read deepStateComparison) _ _ w _ w eq_refl).
  rewrite (try_bind_ok (read state) _ _ w _ w eq_refl).
  rewrite (try_bind_ok (spread _) _ _ w (VRef (length (mem w))) w1 eq_refl).
  rewrite (try_bind_ok _ _ _ w1 next w0).
  - reflexivity.
  - simpl. destruct (deepStateComparison (this w)); exact H.
Qed.

(** X17: with an error handler that returns (or none) and, in deep mode, a
    state and a merged object that are JSON data, [mergeState(p)] commits the
    object [{ ...state, ...p }]: every key of [p] has the value [p] gives it,
    every other key keeps the value the state had; the undo and redo stacks
    are not touched; every enabled middleware and every listener is called
    once.  [patchState] is the same function: a nested object of [p] replaces
    the one of the state, it is not merged into it. *)
Theorem mergeState_merges w p :
  handler_safe w -> copy_ok w (state (this w)) ->
  let o := merge_props (props_of (mem w) (state (this w))) (props_of (mem w) p) in
  (deepStateComparison (this w) = true -> exists ts, json_object (mem w) o ts) ->
  exists w' d,
    mergeState p w = (Ok tt, w') /\ patchState p w = (Ok tt, w') /\
    (deepStateComparison (this w) = false -> props_of (mem w') (state (this w')) = o) /\
    (forall ts, json_object (mem w) o ts ->
                JSON_view (mem w') (state (this w')) = Some (JObj ts)) /\
    (forall k, get_own o k =
               match get_own (reverse (props_of (mem w) p)) k with
               | Some v => Some v
               | None => get_own (props_of (mem w) (state (this w))) k
               end) /\
    undoStack (this w') = undoStack (this w) /\
    redoStack (this w') = redoStack (this w) /\
    trace w' = trace w ++ d /\
    middleware_calls d = enabledMiddlewares w /\
    notifications d =
      listeners (this w) ++ fired (mem w') (state (this w')) (eventListeners (this w)).
Proof.
  intros Hs Hc o Hj.
  set (w1 := set_mem (mem w ++ [o]) w).
  assert (exists next w0 k,
    (if deepStateComparison (this w) then JSON_clone (VRef (length (mem w))) w1
     else (Ok (VRef (length (mem w))), w1)) = (Ok next, w0) /\
    w0 = set_mem (mem w1 ++ k) w1 /\
    (forall ts, json_object (mem w) o ts -> JSON_view (mem w0) next = Some (JObj ts)) /\
    (deepStateComparison (this w) = false -> next = VRef (length (mem w))))
    as (next & w0 & k & E & Ew0 & Vn & Sh).
  { destruct (deepStateComparison (this w)) eqn:D.
    - destruct (Hj eq_refl) as [ts Hts].
      pose proof (JSON_view_new_object _ _ _ Hts) as V.
      destruct (JSON_roundtrip_spec (mem w1) _ _ V) as (k & c & R & Vc & _).
      exists c, (set_mem (mem w1 ++ k) w1), k. unfold JSON_clone. rewrite R.
      split; [reflexivity|]. split; [reflexivity|]. split; [|discriminate].
      intros ts' Hts'. unfold json_object in *. rewrite Hts in Hts'.
      injection Hts' as <-. exact Vc.
    - exists (VRef (length (mem w))), w1, []. split; [reflexivity|].
      split; [unfold w1; simpl; rewrite app_nil_r; destruct w; reflexivity|].
      split; [|reflexivity]. intros ts Hts. apply JSON_view_new_object, Hts. }
  pose proof (mergeState_as_commit w p next w0 E) as Em.
  assert (P0 : mem w `prefix_of` mem w0).
  { rewrite Ew0. simpl. rewrite <- app_assoc. by apply prefix_app_r. }
  assert (Hs0 : handler_safe w0) by (rewrite Ew0; exact Hs).
  assert (Hc0 : copy_ok w0 (state (this w0))).
  { rewrite Ew0. eapply (copy_ok_same w); [reflexivity| |exact Hc]. simpl.
    rewrite <- app_assoc. by apply prefix_app_r. }
  assert (Hn0 : copy_ok w0 next).
  { intros D. assert (D' : deepStateComparison (this w) = true) by (rewrite Ew0 in D; exact D).
    destruct (Hj D') as [ts Hts]. exists (JObj ts). apply Vn, Hts. }
  destruct (applyStateUpdate_safe next false w0 Hs0 Hc0 Hn0)
    as (w' & c & pv & d & Ea & T & B & P & _ & _ & _ & Tr & N & M & _ & _).
  assert (Tw0 : this w0 = this w) by (rewrite Ew0; reflexivity).
  assert (Trw0 : trace w0 = trace w) by (rewrite Ew0; reflexivity).
  exists w', (middleware_trace w0 (prevState (this w0)) next (enabledMiddlewares w0) ++ d).
  split; [rewrite Em; exact Ea|]. split; [change (patchState p w) with (mergeState p w);
                                          rewrite Em; exact Ea|].
  rewrite T. simpl. split; [|split; [|split; [|split; [|split; [|split; [|split]]]]]].
  - intros D. rewrite (Sh D). simpl. destruct P as [k' ->]. rewrite Ew0. simpl.
    rewrite <- !app_assoc, lookup_app_r, Nat.sub_diag by reflexivity. reflexivity.
  - intros ts Hts. eapply JSON_view_prefix; [exact P|]. apply Vn, Hts.
  - intros k0. apply merge_props_get.
  - rewrite Tw0. reflexivity.
  - rewrite Tw0. reflexivity.
  - rewrite Tr, Trw0. reflexivity.
  - rewrite middleware_calls_app, middleware_trace_calls, M, app_nil_r.
    unfold enabledMiddlewares. rewrite Tw0. reflexivity.
  - rewrite notifications_app, middleware_trace_notifications, N, Tw0. reflexivity.
Qed.

Lemma mergeState_witness :
  exists w',
    mergeState (VRef 7) named_store = (Ok tt, w') /\
    props_of (mem w') (state (this w')) =
      [("count", VNum 1); ("name", VStr "b"); ("on", VBool true)].
Proof.
  destruct (mergeState_merges named_store (VRef 7)) as (w' & d & E & _ & P & _).
  - intros h H; vm_compute in H; discriminate H.
  - intros D; vm_compute in D; discriminate D.
  - intros D; vm_compute in D; discriminate D.
  - exists w'. split; [exact E|]. rewrite P; reflexivity.
Defined.

(** ** The fan-out over an object state returns *)

Lemma notify_events_returns names : forall w,
  handler_safe w -> state (this w) <> VUndef -> state (this w) <> VNull ->
  exists d,
    for_each names (fun eventName =>
      let* s := read state in
      let* v := get_prop s eventName in
      match v with
      | VUndef => ret tt
      | _ =>
          let* cbs := read (fun i => default [] (ev_get (eventListeners i) eventName)) in
          for_each cbs (fun callback =>
            try_catch
              (let* s' := read state in
               let* v' := get_prop s' eventName in
               call callback [AVal v'])
              handleError)
      end) w
      = (Ok tt, set_trace (trace w ++ d) w).
Proof.
  induction names as [|name names IH]; intros w Hs Hu Hn; cbn [for_each].
  - exists []. rewrite set_trace_nil. done.
  - assert (exists d1,
      (let* s := read state in
       let* v := get_prop s name in
       match v with
       | VUndef => ret tt
       | _ =>
           let* cbs := read (fun i => default [] (ev_get (eventListeners i) name)) in
           for_each cbs (fun callback =>
             try_catch
               (let* s' := read state in
                let* v' := get_prop s' name in
                call callback [AVal v'])
               handleError)
       end) w = (Ok tt, set_trace (trace w ++ d1) w)) as (d1 & E1).
    { destruct (notify_event_safe name
                  (default [] (ev_get (eventListeners (this w)) name)) w Hs Hu Hn)
        as (d & E & _).
      unfold bind at 1 2. unfold read at 1, gets. rewrite get_prop_spec.
      assert (G : (Ok (A := val) (peek (mem w) (state (this w)) name), w) =
                  match state (this w) with
                  | VUndef | VNull => (Throw (TypeError "Cannot read properties"), w)
                  | _ => (Ok (peek (mem w) (state (this w)) name), w)
                  end) by (destruct (state (this w)); done).
      rewrite <- G. destruct (peek (mem w) (state (this w)) name);
        [exists []; rewrite set_trace_nil; done|exists d; done..]. }
    destruct (IH (set_trace (trace w ++ d1) w) Hs Hu Hn) as (d2 & E2).
    exists (d1 ++ d2). rewrite (bind_ok _ _ _ _ _ E1), E2.
    unfold set_trace; simpl; rewrite <- ?app_assoc; reflexivity.
Qed.

Lemma fanout_returns w l :
  handler_safe w -> copy_ok w (state (this w)) -> state (this w) = VRef l ->
  exists w', (notifyListeners >> persistStateToLocalStorage) w = (Ok tt, w').
Proof.
  intros Hs Hc Hl.
  destruct (notify_plain_safe (listeners (this w)) w Hs Hc) as (w1 & d1 & E1 & S1 & _).
  pose proof (handler_safe_steps _ _ _ S1 Hs) as Hs1.
  destruct S1 as (T1 & _).
  destruct (notify_events_returns (map fst (eventListeners (this w))) w1 Hs1) as (d2 & E2).
  { rewrite T1, Hl. discriminate. }
  { rewrite T1, Hl. discriminate. }
  assert (Hs2 : handler_safe (set_trace (trace w1 ++ d2) w1)) by exact Hs1.
  destruct (persist_safe _ Hs2) as (w3 & d3 & E3 & _).
  exists w3. unfold notifyListeners.
  unfold bind at 1. unfold bind at 1. unfold bind at 1. unfold read at 1, gets. rewrite E1.
  unfold bind at 1. unfold read at 1, gets. rewrite T1, E2. exact E3.
Qed.

(** X18: with an error handler that returns (or none) and values that can be
    copied, [resetState] makes a copy of the initial state current, and
    another copy the previous state; the initial state itself, the undo stack
    and the redo stack stay as they were; every enabled middleware is called
    once, with a copy of the old state and the new one, and every listener
    once.  When the new state is an object the call returns. *)
Theorem resetState_restores_initial w :
  handler_safe w -> copy_ok w (state (this w)) -> copy_ok w (initialState (this w)) ->
  exists r w' d,
    resetState w = (r, w') /\
    initialState (this w') = initialState (this w) /\
    undoStack (this w') = undoStack (this w) /\
    redoStack (this w') = redoStack (this w) /\
    (forall t, JSON_view (mem w) (initialState (this w)) = Some t ->
               plain w (initialState (this w)) ->
               JSON_view (mem w') (state (this w')) = Some t /\
               JSON_view (mem w') (prevState (this w')) = Some t) /\
    (deepStateComparison (this w) = false ->
       exists l, state (this w') = VRef l /\ length (mem w) <= l /\
                 forall l0 o, initialState (this w) = VRef l0 -> mem w !! l0 = Some o ->
                              mem w' !! l = Some o) /\
    ((exists l, state (this w') = VRef l) -> r = Ok tt) /\
    trace w' = trace w ++ d /\
    middleware_calls d = enabledMiddlewares w /\
    notifications d =
      listeners (this w) ++ fired (mem w') (state (this w')) (eventListeners (this w)).
Proof.
  intros Hs Hc Hi. unfold resetState.
  rewrite (bind_ok (read state) _ w _ w eq_refl).
  destruct (copy_spec _ _ Hc) as (k1 & prev & E1 & _ & _ & _ & _).
  rewrite (bind_ok _ _ _ _ _ E1).
  set (w1 := set_mem (mem w ++ k1) w).
  rewrite (bind_ok (read initialState) _ w1 _ w1 eq_refl).
  assert (Hi1 : copy_ok w1 (initialState (this w1))).
  { eapply (copy_ok_same w); [reflexivity| |exact Hi]. simpl. by apply prefix_app_r. }
  destruct (copy_spec _ _ Hi1) as (k2 & c & E2 & L2 & V2 & _ & Sh2).
  rewrite (bind_ok _ _ _ _ _ E2).
  rewrite (bind_ok (upd (set_state c)) _ _ tt _ eq_refl).
  set (w2 := set_this (set_state c _) _).
  rewrite (bind_ok (read initialState) _ w2 _ w2 eq_refl).
  assert (Hi2 : copy_ok w2 (initialState (this w2))).
  { eapply (copy_ok_same w); [reflexivity| |exact Hi]. simpl.
    rewrite <- app_assoc. by apply prefix_app_r. }
  destruct (copy_spec _ _ Hi2) as (k3 & c' & E3 & _ & V3 & _ & _).
  rewrite (bind_ok _ _ _ _ _ E3).
  rewrite (bind_ok (upd (set_prevState c')) _ _ tt _ eq_refl).
  set (w3 := set_this (set_prevState c' _) _).
  rewrite (bind_ok (read state) _ w3 _ w3 eq_refl).
  assert (Hs3 : handler_safe w3) by exact Hs.
  rewrite (bind_ok _ _ _ _ _ (applyMiddlewares_safe w3 prev (state (this w3)) Hs3)).
  set (mt := middleware_trace w3 prev (state (this w3)) (enabledMiddlewares w3)).
  set (w4 := set_trace (trace w3 ++ mt) w3).
  assert (Hs4 : handler_safe w4) by exact Hs.
  assert (Hc4 : copy_ok w4 (state (this w4))).
  { intros D. destruct (Hi D) as [t Ht]. exists t. simpl.
    eapply JSON_view_prefix; [by apply prefix_app_r|]. apply V2.
    - simpl. eapply JSON_view_prefix; [|exact Ht]. by apply prefix_app_r.
    - left. exact D. }
  destruct (fanout_safe w4 Hs4 Hc4) as (r & w' & d & E4 & S4 & N4 & M4).
  destruct S4 as (T4 & B4 & P4 & Tr4 & _).
  exists r, w', (mt ++ d). split; [exact E4|]. rewrite T4. simpl.
  split; [reflexivity|]. split; [reflexivity|]. split; [reflexivity|].
  assert (Pm : (mem w ++ k1) ++ k2 `prefix_of` mem w').
  { etrans; [|exact P4]. simpl. by apply prefix_app_r. }
  split; [|split; [|split; [|split; [|split]]]].
  - intros t Ht Hp. split.
    + eapply JSON_view_prefix; [exact Pm|]. apply V2.
      * simpl. eapply JSON_view_prefix; [|exact Ht]. by apply prefix_app_r.
      * exact Hp.
    + eapply JSON_view_prefix; [exact P4|]. simpl. apply V3.
      * simpl. eapply JSON_view_prefix; [|exact Ht]. rewrite <- app_assoc.
        by apply prefix_app_r.
      * exact Hp.
  - intros D. destruct (Sh2 D) as [Ek ->]. eexists. split; [reflexivity|].
    split; [simpl; rewrite length_app; lia|].
    intros l0 o Ei El. destruct Pm as [k' ->]. rewrite Ek. simpl.
    rewrite <- !app_assoc, app_assoc.
    rewrite lookup_app_r by reflexivity. rewrite Nat.sub_diag. simpl.
    rewrite Ei. simpl. rewrite (lookup_app_l_Some _ _ _ _ El). reflexivity.
  - intros [l El]. destruct (fanout_returns w4 l Hs4 Hc4 El) as (w'' & E'').
    rewrite E'' in E4. congruence.
  - rewrite Tr4. simpl. rewrite <- app_assoc. reflexivity.
  - rewrite middleware_calls_app, M4, app_nil_r. apply middleware_trace_calls.
  - rewrite notifications_app, N4. unfold mt.
    rewrite middleware_trace_notifications. reflexivity.
Qed.

Lemma resetState_witness :
  exists w',
    resetState one_commit = (Ok tt, w') /\
    JSON_view (mem w') (state (this w')) = Some (JObj []).
Proof.
  destruct (resetState_restores_initial one_commit) as (r & w' & d & E & _ & _ & _ & V & Sh & R & _).
  - intros h H; vm_compute in H; discriminate H.
  - intros D; vm_compute in D; discriminate D.
  - intros D; vm_compute in D; discriminate D.
  - exists w'. destruct (Sh eq_refl) as (l & El & _).
    rewrite (R (ex_intro _ l El)) in E. split; [exact E|].
    apply V; [reflexivity|]. right. eexists. reflexivity.
Defined.

(** ** History *)

(** X19: with an error handler that returns (or none) and values that can be
    copied, [undo] moves one entry: the snapshot on top of the undo stack
    becomes the state, as the very value that was stored, and a copy of the
    state it replaces goes on the redo stack; [redo] does the same in the
    other direction.  Both notify every listener once and call no
    middleware, and the two stacks together hold as many entries after as
    before. *)
Theorem undo_redo_move_one_entry w rest entry :
  handler_safe w -> copy_ok w (state (this w)) -> copy_ok w entry ->
  (undoStack (this w) = push entry rest ->
   exists r w' d,
     undo w = (r, w') /\ state (this w') = entry /\
     undoStack (this w') = rest /\
     length (redoStack (this w')) = S (length (redoStack (this w))) /\
     length (undoStack (this w')) + length (redoStack (this w'))
       = length (undoStack (this w)) + length (redoStack (this w)) /\
     (forall t, JSON_view (mem w) (state (this w)) = Some t -> plain w (state (this w)) ->
        exists s, last (redoStack (this w')) = Some s /\ JSON_view (mem w') s = Some t) /\
     trace w' = trace w ++ d /\ middleware_calls d = [] /\
     notifications d =
       listeners (this w) ++ fired (mem w') entry (eventListeners (this w))) /\
  (redoStack (this w) = push entry rest ->
   exists r w' d,
     redo w = (r, w') /\ state (this w') = entry /\
     redoStack (this w') = rest /\
     length (undoStack (this w')) = S (length (undoStack (this w))) /\
     length (undoStack (this w')) + length (redoStack (this w'))
       = length (undoStack (this w)) + length (redoStack (this w)) /\
     (forall t, JSON_view (mem w) (state (this w)) = Some t -> plain w (state (this w)) ->
        exists s, last (undoStack (this w')) = Some s /\ JSON_view (mem w') s = Some t) /\
     trace w' = trace w ++ d /\ middleware_calls d = [] /\
     notifications d =
       listeners (this w) ++ fired (mem w') entry (eventListeners (this w))).
Proof.
  intros Hs Hc He. split; intros Hst.
  - destruct (undo_safe w rest entry Hs Hst Hc He)
      as (r & w' & s & d & E & T & _ & _ & _ & _ & _ & Tr & N & M & V & _).
    exists r, w', d. split; [exact E|]. rewrite T. simpl.
    split; [reflexivity|]. split; [reflexivity|].
    unfold push. rewrite length_app. simpl.
    split; [lia|]. split; [rewrite Hst; unfold push; rewrite length_app; simpl; lia|].
    split; [|done]. intros t Ht Hp. exists s. split; [apply last_snoc|]. by apply V.
  - destruct (redo_safe w rest entry Hs Hst Hc He)
      as (r & w' & s & d & E & T & _ & _ & _ & _ & _ & Tr & N & M & V & _).
    exists r, w', d. split; [exact E|]. rewrite T. simpl.
    split; [reflexivity|]. split; [reflexivity|].
    unfold push. rewrite length_app. simpl.
    split; [lia|]. split; [rewrite Hst; unfold push; rewrite length_app; simpl; lia|].
    split; [|done]. intros t Ht Hp. exists s. split; [apply last_snoc|]. by apply V.
Qed.

Lemma undo_redo_move_witness :
  exists r w',
    undo one_commit = (r, w') /\ state (this w') = VRef 5 /\
    undoStack (this w') = [] /\ length (redoStack (this w')) = 1.
Proof.
  destruct (undo_redo_move_one_entry one_commit [] (VRef 5)) as [U _].
  - intros h H; vm_compute in H; discriminate H.
  - intros D; vm_compute in D; discriminate D.
  - intros D; vm_compute in D; discriminate D.
  - destruct (U eq_refl) as (r & w' & d & E & A & B & C & _).
    exists r, w'. auto.
Defined.

(** ** Switching middleware off and on *)

Lemma filter_enabled_off (ms : list entry) : forall idx : nat,
  List.filter enabled (alter (fun m => Entry (middleware m) false (selective m)) idx ms)
    = List.filter enabled (delete idx ms).
Proof.
  induction ms as [|m ms IH]; intros [|idx]; try reflexivity.
  cbn [alter list_alter delete list_delete List.filter]. rewrite <- IH. reflexivity.
Qed.

Lemma alter_out_of_range {A} (f : A -> A) (l : list A) idx :
  length l <= idx -> alter f idx l = l.
Proof.
  revert idx. induction l as [|x l IH]; intros [|idx] H; simpl in *; try reflexivity; [lia|].
  f_equal. apply IH. lia.
Qed.

Lemma enable_after_disable (ms : list entry) : forall idx : nat,
  alter (fun m => Entry (middleware m) true (selective m)) idx
    (alter (fun m => Entry (middleware m) false (selective m)) idx ms)
    = alter (fun m => Entry (middleware m) true (selective m)) idx ms.
Proof.
  induction ms as [|m ms IH]; intros [|idx]; try reflexivity.
  cbn [alter list_alter]. rewrite IH. reflexivity.
Qed.

Lemma set_middlewares_same w : set_this (set_middlewares (middlewares (this w)) (this w)) w = w.
Proof. destruct w as [[] ? ? ? ? ? ? ?]. reflexivity. Qed.

(** X20: [disableMiddleware(index)] keeps the entry in the list, so the
    count and the positions of the others do not change, and a commit then
    skips it: the middleware called are the enabled entries other than the
    one at the index, in order.  [enableMiddleware(index)] brings it back at
    its position.  An index beyond the list changes nothing. *)
Theorem disabled_middleware_is_skipped w idx next add :
  handler_safe w -> copy_ok w (state (this w)) -> copy_ok w next ->
  let w1 := exec (disableMiddleware idx) w in
  let w2 := exec (enableMiddleware idx) w1 in
  (getMiddlewareCount w1).1 = (getMiddlewareCount w).1 /\
  (exists w' d,
     applyStateUpdate next add w1 = (Ok tt, w') /\ trace w' = trace w ++ d /\
     middleware_calls d =
       map middleware (List.filter enabled (delete idx (middlewares (this w))))) /\
  middlewares (this w2) =
    alter (fun m => Entry (middleware m) true (selective m)) idx (middlewares (this w)) /\
  (length (middlewares (this w)) <= idx -> w1 = w /\ w2 = w).
Proof.
  intros Hs Hc Hn w1 w2. split; [|split; [|split]].
  - unfold getMiddlewareCount, read, gets. simpl. rewrite length_alter. reflexivity.
  - assert (Hs1 : handler_safe w1) by exact Hs.
    assert (Hc1 : copy_ok w1 (state (this w1))) by exact Hc.
    assert (Hn1 : copy_ok w1 next) by exact Hn.
    destruct (applyStateUpdate_safe next add w1 Hs1 Hc1 Hn1)
      as (w' & c & p & d & E & _ & _ & _ & _ & _ & _ & Tr & _ & M & _).
    exists w', (middleware_trace w1 (prevState (this w1)) next (enabledMiddlewares w1) ++ d).
    split; [exact E|]. split; [exact Tr|].
    rewrite middleware_calls_app, middleware_trace_calls, M, app_nil_r.
    unfold enabledMiddlewares. simpl. rewrite filter_enabled_off. reflexivity.
  - simpl. apply enable_after_disable.
  - intros L.
    assert (E1 : w1 = w).
    { unfold w1, exec, disableMiddleware, upd, modify. simpl.
      rewrite alter_out_of_range by exact L. apply set_middlewares_same. }
    split; [exact E1|]. unfold w2. rewrite E1.
    unfold exec, enableMiddleware, upd, modify. simpl.
    rewrite alter_out_of_range by exact L. apply set_middlewares_same.
Qed.

Lemma disabled_middleware_witness :
  exists w' d,
    applyStateUpdate (VRef 3) true (exec (disableMiddleware 0) guarded_store) = (Ok tt, w') /\
    trace w' = trace guarded_store ++ d /\ middleware_calls d = [2].
Proof.
  destruct (disabled_middleware_is_skipped guarded_store 0 (VRef 3) true)
    as (_ & (w' & d & E & T & M) & _).
  - intros h [= <-] m e. reflexivity.
  - intros D; vm_compute in D; discriminate D.
  - intros D; vm_compute in D; discriminate D.
  - exists w', d. auto.
Defined.

(** ** The registry of event callbacks *)



(** ** Copies at the top level *)

(** X22: in shallow mode the container never shares its top-level object
    with a caller: [getState] returns a new object with the properties of the
    state, and [setState(o)] commits a new object with the properties of [o];
    a property written afterwards to the object returned, or to the object
    passed in, does not change the properties of the state. *)
Theorem shallow_copies_are_fresh w :
  handler_safe w -> deepStateComparison (this w) = false ->
  (forall l0 o, state (this w) = VRef l0 -> mem w !! l0 = Some o ->
     getState w = (Ok (VRef (length (mem w))), set_mem (mem w ++ [o]) w) /\
     forall k x,
       props_of (set_prop (length (mem w)) k x (mem w ++ [o])) (state (this w)) = o) /\
  (forall a o add, mem w !! a = Some o ->
     exists w',
       setState (VRef a) add false w = (Ok tt, w') /\
       state (this w') = VRef (length (mem w)) /\
       props_of (mem w') (state (this w')) = o /\
       forall k x, props_of (set_prop a k x (mem w')) (state (this w')) = o).
Proof.
  intros Hs D. split.
  - intros l0 o Es El. split.
    + unfold getState, copy, bind, read, gets. rewrite D, Es.
      unfold spread, spread_props, alloc_obj. simpl. rewrite El. reflexivity.
    + intros k x. rewrite Es. simpl. unfold set_prop.
      pose proof (lookup_lt_Some _ _ _ El) as Lt.
      rewrite list_lookup_alter_ne by lia.
      rewrite (lookup_app_l_Some _ _ _ _ El). reflexivity.
  - intros a o add El.
    assert (Hc : forall v, copy_ok w v) by (intros v D'; congruence).
    destruct (setState_safe (VRef a) add w Hs (Hc _) (Hc _))
      as (w0 & w' & next & c & p & d & Ec & E & T & _ & _ & _ & _ & _ & _ & _ & _ & _ & _ & R).
    destruct (R D) as (_ & _ & Pr).
    assert (En : next = VRef (length (mem w))).
    { revert Ec. unfold copy, bind, read, gets. rewrite D.
      unfold spread, alloc_obj. simpl. intros H. inversion H. reflexivity. }
    subst next. exists w'. split; [exact E|]. rewrite T. simpl.
    split; [reflexivity|]. simpl in Pr. rewrite El in Pr. simpl in Pr.
    split; [exact Pr|]. intros k x. simpl. unfold set_prop.
    pose proof (lookup_lt_Some _ _ _ El) as Lt.
    rewrite list_lookup_alter_ne by lia. exact Pr.
Qed.

Lemma shallow_copies_witness :
  getState one_commit =
    (Ok (VRef 8), set_mem (mem one_commit ++ [[("count", VNum 1)]]) one_commit) /\
  props_of (set_prop 8 "count" (VNum 5) (mem one_commit ++ [[("count", VNum 1)]]))
    (state (this one_commit)) = [("count", VNum 1)].
Proof.
  destruct (shallow_copies_are_fresh one_commit) as [G _].
  - intros h H; vm_compute in H; discriminate H.
  - reflexivity.
  - destruct (G 4 [("count", VNum 1)] eq_refl eq_refl) as [A B].
    split; [exact A|]. apply B.
Defined.

(** X23: the constructor keeps the object it is given: without a stored
    snapshot the state is the argument itself, not a copy, while the initial
    state and the previous state are two new objects with its properties.  A
    property written to the argument afterwards is a property of the state,
    and not one of the initial state that [resetState] goes back to. *)
Theorem constructor_keeps_its_argument w l o :
  mem w !! l = Some o ->
  (forall store, localStorage w = Some store ->
                 store !! "1cbycStateManagerState" = None) ->
  let u := exec (constructor (VRef l)) w in
  (constructor (VRef l) w).1 = Ok tt /\
  state (this u) = VRef l /\
  initialState (this u) = VRef (length (mem w)) /\
  prevState (this u) = VRef (S (length (mem w))) /\
  mem u = mem w ++ [o; o] /\ trace u = trace w /\
  forall k x,
    let h := set_prop l k x (mem u) in
    get_own (props_of h (state (this u))) k = Some x /\
    props_of h (initialState (this u)) = o /\
    props_of h (prevState (this u)) = o.
Proof.
  intros El Hst u.
  pose proof (lookup_lt_Some _ _ _ El) as Lt.
  assert (E : constructor (VRef l) w =
    (Ok tt,
     set_this
       {| state := VRef l; initialState := VRef (length (mem w)); listeners := [];
          middlewares := []; eventListeners := []; undoStack := []; redoStack := [];
          prevState := VRef (S (length (mem w)));
          debounceTimeout := None; debounceDelay := 200;
          batchUpdatePending := false; batchUpdateQueue := [];
          deepStateComparison := false;
          localStorageKey := "1cbycStateManagerState"; errorHandler := None |}
       (set_mem (mem w ++ [o; o]) w))).
  { unfold constructor, initializeStateFromLocalStorage, spread, spread_props, alloc_obj,
      upd, try_catch, bind, ret, modify. simpl. rewrite El. simpl.
    rewrite (lookup_app_l_Some _ _ _ _ El). simpl.
    rewrite length_app, Nat.add_1_r, <- app_assoc. simpl.
    destruct (localStorage w) as [store|] eqn:Els; [|reflexivity].
    rewrite (Hst store eq_refl). reflexivity. }
  subst u. unfold exec. rewrite E. simpl.
  repeat (split; [reflexivity|]). intros k x. cbv zeta.
  split; [|split].
  - apply (set_prop_read (mem w ++ [o; o]) l k x). rewrite length_app. lia.
  - unfold set_prop. simpl. rewrite list_lookup_alter_ne by lia.
    rewrite lookup_app_r, Nat.sub_diag by reflexivity. reflexivity.
  - unfold set_prop. simpl. rewrite list_lookup_alter_ne by lia.
    rewrite lookup_app_r by lia.
    replace (S (length (mem w)) - length (mem w)) with 1 by lia. reflexivity.
Qed.

Lemma constructor_argument_witness :
  let u := exec (constructor (VRef 0)) before_construction in
  state (this u) = VRef 0 /\
  get_own (props_of (set_prop 0 "count" (VNum 2) (mem u)) (state (this u))) "count"
    = Some (VNum 2) /\
  props_of (set_prop 0 "count" (VNum 2) (mem u)) (initialState (this u))
    = [("count", VNum 1)].
Proof.
  destruct (constructor_keeps_its_argument before_construction 0 [("count", VNum 1)])
    as (_ & S & _ & _ & _ & _ & W).
  - reflexivity.
  - intros store H. discriminate H.
  - destruct (W "count" (VNum 2)) as (A & B & _). split; [exact S|]. split; [exact A|exact B].
Defined.

(** ** The snapshot in [localStorage] *)

Lemma alloc_reads' t h h' v : alloc t h = (h', v) -> JSON_view h' v = Some t /\ h `prefix_of` h'.
Proof.
  intros A. destruct (alloc_spec t h h' v A) as (k & -> & _ & _ & _ & V). split.
  - apply (JSON_view_complete (depth t)). apply V. reflexivity.
  - by apply prefix_app_r.
Qed.

Lemma persist_writes w store t :
  localStorage w = Some store -> JSON_view (mem w) (state (this w)) = Some t ->
  persistStateToLocalStorage w =
    (Ok tt, set_localStorage
              (Some (<[localStorageKey (this w) := JSON.stringify t 0]> store)) w).
Proof.
  intros L V. unfold persistStateToLocalStorage, try_catch. rewrite L.
  destruct (state (this w)) eqn:Es; try discriminate; rewrite V; reflexivity.
Qed.

Lemma initialize_restores w store text t :
  localStorage w = Some store -> store !! localStorageKey (this w) = Some text ->
  text <> "" -> JSON.parse text = Some t ->
  exists h1 s h2 p,
    alloc t (mem w) = (h1, s) /\ alloc t h1 = (h2, p) /\
    initializeStateFromLocalStorage w =
      (Ok tt, set_this (set_prevState p (set_state s (this w))) (set_mem h2 w)).
Proof.
  intros L K N P. apply String.eqb_neq in N.
  unfold initializeStateFromLocalStorage, try_catch. rewrite L, K, N, P.
  destruct (alloc t (mem w)) as [h1 s]. destruct (alloc t h1) as [h2 p] eqn:A2.
  exists h1, s, h2, p. rewrite A2. done.
Qed.


Lemma constructor_unfold arg w :
  constructor arg w =
    (initializeStateFromLocalStorage >> upd (set_errorHandler None)) (constructed arg w).
Proof.
  unfold constructor, constructed.
  destruct arg; unfold spread, spread_props, alloc_obj, upd, bind, ret, modify; simpl;
    rewrite ?length_app, ?Nat.add_1_r, <- ?app_assoc; reflexivity.
Qed.

(** X24: a snapshot found in [localStorage] under the default key takes
    the place of the constructor's argument: the state and the previous state
    are two readings of the stored text, and the constructor returns without
    a word.  A stored text that is not JSON is reported on the console, the
    error handler not being set yet, and the state is the argument. *)
Theorem constructor_reads_snapshot w arg store text :
  localStorage w = Some store -> store !! "1cbycStateManagerState" = Some text ->
  text <> "" ->
  let u := exec (constructor arg) w in
  (constructor arg w).1 = Ok tt /\
  (forall t, JSON.parse text = Some t ->
     JSON_view (mem u) (state (this u)) = Some t /\
     JSON_view (mem u) (prevState (this u)) = Some t /\
     trace u = trace w /\
     initialState (this u) = initialState (this (constructed arg w))) /\
  (JSON.parse text = None ->
     state (this u) = state (this (constructed arg w)) /\
     trace u = trace w ++ [ConsoleError (SyntaxError "Unexpected token")]).
Proof.
  intros L K N u. subst u. unfold exec. rewrite constructor_unfold.
  set (w0 := constructed arg w).
  assert (L0 : localStorage w0 = Some store).
  { unfold w0, constructed. destruct arg; exact L. }
  assert (K0 : localStorageKey (this w0) = "1cbycStateManagerState").
  { unfold w0, constructed. destruct arg; reflexivity. }
  assert (T0 : trace w0 = trace w).
  { unfold w0, constructed. destruct arg; reflexivity. }
  assert (H0 : errorHandler (this w0) = None).
  { unfold w0, constructed. destruct arg; reflexivity. }
  destruct (JSON.parse text) as [t|] eqn:P.
  - destruct (initialize_restores w0 store text t L0) as (h1 & s & h2 & p & A1 & A2 & E);
      [rewrite K0; exact K|exact N|exact P|].
    unfold bind. rewrite E. simpl. split; [reflexivity|]. split; [|discriminate].
    intros t' [= <-].
    destruct (alloc_reads' _ _ _ _ A1) as [V1 P1].
    destruct (alloc_reads' _ _ _ _ A2) as [V2 P2].
    split; [eapply JSON_view_prefix; [exact P2|exact V1]|].
    split; [exact V2|]. split; [exact T0|reflexivity].
  - assert (E : initializeStateFromLocalStorage w0 =
                (Ok tt, set_trace (trace w0 ++ [ConsoleError (SyntaxError "Unexpected token")]) w0)).
    { apply String.eqb_neq in N.
      unfold initializeStateFromLocalStorage, try_catch. rewrite L0, K0, K, N, P.
      unfold handleError, bind, read, gets. rewrite H0. reflexivity. }
    unfold bind. rewrite E. simpl. split; [reflexivity|]. split; [discriminate|].
    intros _. rewrite T0. split; reflexivity.
Qed.

Lemma constructor_snapshot_witness :
  let u := exec (constructor VUndef) reloaded_host in
  JSON_view (mem u) (state (this u)) = Some (JObj [("count", JNum 1)]).
Proof.
  destruct (constructor_reads_snapshot reloaded_host VUndef
              {["1cbycStateManagerState" := stored_text]} stored_text) as (_ & R & _).
  - reflexivity.
  - reflexivity.
  - discriminate.
  - destruct (R (JObj [("count", JNum 1)])) as (A & _); [vm_compute; reflexivity|exact A].
Defined.

Lemma notifyListeners_returns w l :
  handler_safe w -> copy_ok w (state (this w)) -> state (this w) = VRef l ->
  exists w' d,
    notifyListeners w = (Ok tt, w') /\ steps_to w w' d /\
    localStorage w' = localStorage w.
Proof.
  intros Hs Hc Hl.
  destruct (notifyListeners_safe w Hs Hc) as (r & w' & d & E & S & L & _).
  exists w', d. split; [|done].
  destruct (notify_plain_safe (listeners (this w)) w Hs Hc) as (w1 & d1 & E1 & S1 & _).
  pose proof (handler_safe_steps _ _ _ S1 Hs) as Hs1.
  destruct S1 as (T1 & _).
  destruct (notify_events_returns (map fst (eventListeners (this w))) w1 Hs1) as (d2 & E2).
  { rewrite T1, Hl. discriminate. }
  { rewrite T1, Hl. discriminate. }
  assert (E' : notifyListeners w = (Ok tt, set_trace (trace w1 ++ d2) w1)).
  { unfold notifyListeners.
    unfold bind at 1. unfold bind at 1. unfold read at 1, gets. rewrite E1.
    unfold bind at 1. unfold read at 1, gets. rewrite T1. exact E2. }
  rewrite E' in E. injection E as <- <-. exact E'.
Qed.

(** A commit of an object that is JSON data ends with its text in
    [localStorage], where the host has one. *)
Lemma applyStateUpdate_persists next add w store t l :
  handler_safe w -> copy_ok w (state (this w)) ->
  next = VRef l -> JSON_view (mem w) next = Some t ->
  localStorage w = Some store ->
  exists w',
    applyStateUpdate next add w = (Ok tt, w') /\
    localStorage w' =
      Some (<[localStorageKey (this w) := JSON.stringify t 0]> store).
Proof.
  intros Hs Hc Hl Hv Hst. unfold applyStateUpdate.
  assert (Hn : copy_ok w next) by (intros _; eauto).
  set (mt := middleware_trace w (prevState (this w)) next (enabledMiddlewares w)).
  rewrite (try_bind_ok (read prevState) _ _ w _ w eq_refl).
  rewrite (try_bind_ok _ _ _ _ _ _ (applyMiddlewares_safe w _ next Hs)). fold mt.
  set (w1 := set_trace (trace w ++ mt) w).
  assert (Hc1 : copy_ok w1 (state (this w1))) by exact Hc.
  assert (exists k c,
    (forall (K : unit -> M world unit) h,
       try_catch (bind (if add then
                    let* s := read state in
                    let* c := copy s in
                    upd (fun i => set_undoStack (push c (undoStack i)) i) >>
                    upd (set_redoStack [])
                  else ret tt) K) h w1
       = try_catch (K tt) h
           (set_this (if add
                      then set_redoStack [] (set_undoStack (push c (undoStack (this w))) (this w))
                      else this w) (set_mem (mem w ++ k) w1)))) as (k1 & c & E2).
  { destruct add.
    - destruct (copy_spec _ _ Hc1) as (k & c & Ec & _).
      exists k, c. intros K h. unfold try_catch, bind at 1 2 3 4. unfold read at 1, gets.
      rewrite Ec. reflexivity.
    - exists [], VUndef. intros K h. unfold try_catch, bind, ret. simpl. rewrite app_nil_r.
      destruct w; reflexivity. }
  rewrite E2. clear E2.
  set (i2 := if add then _ else _).
  set (w2 := set_this i2 (set_mem (mem w ++ k1) w1)).
  assert (Hst2 : state i2 = state (this w)) by (unfold i2; destruct add; reflexivity).
  assert (Hd2 : deepStateComparison i2 = deepStateComparison (this w))
    by (unfold i2; destruct add; reflexivity).
  assert (Hk2 : localStorageKey i2 = localStorageKey (this w))
    by (unfold i2; destruct add; reflexivity).
  assert (Hc2 : copy_ok w2 (state (this w2))).
  { simpl. rewrite Hst2. eapply (copy_ok_same w); [exact Hd2| |exact Hc].
    simpl. by apply prefix_app_r. }
  rewrite (try_bind_ok (read state) _ _ w2 _ w2 eq_refl).
  destruct (copy_spec _ _ Hc2) as (k2 & p & Ep & _).
  rewrite (try_bind_ok _ _ _ _ _ _ Ep).
  rewrite (try_bind_ok (upd (set_prevState p)) _ _ _ tt _ eq_refl).
  rewrite (try_bind_ok (upd (set_state next)) _ _ _ tt _ eq_refl).
  set (w3 := set_this (set_state next _) _).
  assert (P3 : mem w `prefix_of` mem w3).
  { simpl. rewrite <- app_assoc. by apply prefix_app_r. }
  assert (Hs3 : handler_safe w3).
  { eapply (handler_safe_same w); [|reflexivity|exact Hs].
    unfold w3, w2, i2. destruct add; reflexivity. }
  assert (Hc3 : copy_ok w3 (state (this w3))).
  { eapply (copy_ok_same w); [|exact P3|exact Hn].
    unfold w3, w2, i2. destruct add; reflexivity. }
  destruct (notifyListeners_returns w3 l Hs3 Hc3) as (w4 & d & E4 & S4 & L4);
    [simpl; exact Hl|].
  destruct S4 as (T4 & _ & P4 & _).
  assert (E5 : persistStateToLocalStorage w4 =
    (Ok tt, set_localStorage
              (Some (<[localStorageKey (this w4) := JSON.stringify t 0]> store)) w4)).
  { apply persist_writes.
    - rewrite L4. exact Hst.
    - rewrite T4. simpl. eapply JSON_view_prefix; [|exact Hv]. etrans; [exact P3|exact P4]. }
  eexists. unfold try_catch, bind. rewrite E4, E5. split; [reflexivity|].
  simpl. rewrite T4. simpl. rewrite Hk2. reflexivity.
Qed.

(** X25: the state survives a reload.  On a host with [localStorage], with
    the default key and an error handler that returns (or none), after
    [setState(S)] for an object [S] that is JSON data, an instance constructed
    anew on that storage starts with a state that reads as [S], whatever
    argument the constructor is given. *)
Theorem state_survives_reload w S t add store :
  handler_safe w -> copy_ok w (state (this w)) ->
  is_state (mem w) S t -> JSON.distinct_keys t = true ->
  localStorage w = Some store ->
  localStorageKey (this w) = "1cbycStateManagerState" ->
  let w1 := exec (setState S add false) w in
  forall arg behaviour,
    let u := exec (constructor arg) (boot behaviour (localStorage w1)) in
    JSON_view (mem u) (state (this u)) = Some t /\
    JSON_view (mem u) (prevState (this u)) = Some t.
Proof.
  intros Hs Hc [[l ->] Hv] K Hst Hk w1 arg b u.
  assert (Hn : copy_ok w (VRef l)) by (intros _; eauto).
  destruct (copy_spec _ _ Hn) as (k & next & Ec & Hl & Vn & _ & Sh).
  set (w0 := set_mem (mem w ++ k) w) in *.
  assert (exists ps, t = JObj ps) as [ps Et].
  { revert Hv. unfold JSON_view. simpl. destruct (mem w !! l); [|discriminate].
    destruct (view_props _ _); [|discriminate]. simpl. intros [= <-]. eauto. }
  assert (exists l', next = VRef l') as [l' En].
  { destruct (deepStateComparison (this w)) eqn:D.
    - specialize (Vn t Hv (or_introl eq_refl)). subst t.
      destruct next as [| | | | |l']; try discriminate. eauto.
    - destruct (Sh eq_refl) as [_ ->]. eauto. }
  assert (Vn0 : JSON_view (mem w0) next = Some t).
  { apply Vn; [exact Hv|]. right. eauto. }
  assert (Hc0 : copy_ok w0 (state (this w0))).
  { eapply (copy_ok_same w); [reflexivity| |exact Hc]. simpl. by apply prefix_app_r. }
  destruct (applyStateUpdate_persists next add w0 store t l' Hs Hc0 En Vn0 Hst)
    as (w' & Ea & La).
  assert (E1 : w1 = w').
  { unfold w1, exec, setState. rewrite (try_bind_ok _ _ _ _ _ _ Ec).
    rewrite try_ok with (a := tt) (w1 := w'); done. }
  assert (Ls : localStorage w1 =
               Some (<["1cbycStateManagerState" := JSON.stringify t 0]> store)).
  { rewrite E1, La. simpl. rewrite Hk. reflexivity. }
  pose proof (parse_stringify t 0 K) as P.
  destruct (constructor_reads_snapshot (boot b (localStorage w1)) arg
              (<["1cbycStateManagerState" := JSON.stringify t 0]> store)
              (JSON.stringify t 0)) as (_ & R & _).
  - simpl. exact Ls.
  - apply lookup_insert_eq.
  - intros Z. rewrite Z in P. discriminate.
  - destruct (R t P) as (A & B & _). split; assumption.
Qed.

Lemma state_survives_reload_witness :
  let w1 := exec (setState (VRef 3) true false) storing_store in
  let u := exec (constructor VUndef) (boot quiet (localStorage w1)) in
  JSON_view (mem u) (state (this u)) = Some (JObj [("count", JNum 1)]).
Proof.
  destruct (state_survives_reload storing_store (VRef 3) (JObj [("count", JNum 1)]) true ∅)
    with (arg := VUndef) (behaviour := quiet) as [A _].
  - intros h H; vm_compute in H; discriminate H.
  - intros D; vm_compute in D; discriminate D.
  - split; [eexists; reflexivity|vm_compute; reflexivity].
  - reflexivity.
  - reflexivity.
  - reflexivity.
  - exact A.
Defined.

(** ** A pending commit and an immediate one *)

(** X26: an immediate [setState] does not cancel a pending debounced commit:
    the timer stays, and when it fires its value replaces the one set in
    between. *)
Theorem immediate_setState_keeps_pending_commit w u c v add T :
  handler_safe w -> awaiting w u c ->
  copy_ok u (state (this u)) -> copy_ok u v ->
  call_time c + debounceDelay (this w) <= T ->
  let u1 := exec (setState v add false) u in
  let u2 := advance T u1 in
  timers u1 = timers u /\
  (forall t, JSON_view (mem u) v = Some t -> plain u v ->
             JSON_view (mem u1) (state (this u1)) = Some t) /\
  timers u2 = [] /\
  (forall t, JSON_view (mem w) (call_value c) = Some t -> plain w (call_value c) ->
             JSON_view (mem u2) (state (this u2)) = Some t).
Proof.
  intros Hs ((id & nx & T0 & Tm0 & Vn & Cn) & B0 & P0 & Tr0 & N0) Hc Hv HT u1 u2.
  assert (Hsu : handler_safe u).
  { eapply (handler_safe_same w); [rewrite T0; reflexivity|exact B0|exact Hs]. }
  destruct (setState_safe v add u Hsu Hc Hv)
    as (w0 & w' & next & c0 & p & d & _ & E & Tw & Bw & Pw & Tiw & Now & _ & _ & _ & _
        & Vw & _ & _).
  assert (E1 : u1 = w') by (unfold u1, exec; rewrite E; reflexivity).
  rewrite E1. split; [exact Tiw|]. split.
  { intros t Ht Hp. rewrite Tw. simpl. by apply Vw. }
  set (tm := Timer id (call_time c + debounceDelay (this w)) nx (call_history c)) in *.
  set (u3 := set_now (now w' `max` due tm) (set_timers [] w')).
  assert (Hadv : u2 = set_now (now (fire tm u3) `max` T) (fire tm u3)).
  { unfold u2, advance. rewrite E1, Tiw, Tm0. cbn [length run_timers]. rewrite Tiw, Tm0.
    cbn [earliest]. assert ((due tm <=? T) = true) as -> by (apply Nat.leb_le; exact HT).
    cbn [List.filter]. rewrite Nat.eqb_refl. reflexivity. }
  assert (Hs3 : handler_safe u3).
  { eapply (handler_safe_same u); [|exact Bw|exact Hsu]. simpl. rewrite Tw.
    destruct add; reflexivity. }
  assert (Hd3 : deepStateComparison (this u3) = deepStateComparison (this u)).
  { simpl. rewrite Tw. destruct add; reflexivity. }
  assert (Hc3 : copy_ok u3 (state (this u3))).
  { intros D. rewrite Hd3 in D. destruct (Hv D) as [t Ht]. exists t. simpl.
    rewrite Tw. simpl. apply Vw; [exact Ht|]. left. exact D. }
  assert (Cn3 : copy_ok u3 nx).
  { eapply (copy_ok_same u); [exact Hd3|exact Pw|exact Cn]. }
  destruct (applyStateUpdate_safe nx (call_history c) u3 Hs3 Hc3 Cn3)
    as (w2 & c2 & p2 & d2 & E2 & T2 & _ & P2 & Ti2 & _).
  assert (Hfire : fire tm u3 = w2) by (unfold fire; simpl; rewrite E2; reflexivity).
  rewrite Hadv, Hfire. cbn [timers set_now mem this].
  split; [rewrite Ti2; reflexivity|].
  intros t Ht Hpl. rewrite T2. simpl. eapply JSON_view_prefix; [exact P2|]. simpl.
  eapply JSON_view_prefix; [exact Pw|]. by apply Vn.
Qed.

Lemma immediate_setState_witness :
  let u := debounced_call (0, VRef 3, true) before_debounce in
  let u1 := exec (setState (VRef 4) true false) u in
  let u2 := advance 100 u1 in
  JSON_view (mem u1) (state (this u1)) = Some (JObj [("count", JNum 2)]) /\
  JSON_view (mem u2) (state (this u2)) = Some (JObj [("count", JNum 1)]).
Proof.
  intros u.
  assert (Hs : handler_safe before_debounce) by (intros h H; vm_compute in H; discriminate H).
  assert (A : awaiting before_debounce u (0, VRef 3, true)).
  { apply debounced_call_step.
    - intros tm H. vm_compute in H. inversion H.
    - vm_compute. lia.
    - intros D; vm_compute in D; discriminate D. }
  destruct (immediate_setState_keeps_pending_commit before_debounce u (0, VRef 3, true)
              (VRef 4) true 100 Hs A) as (_ & V1 & _ & V2).
  - intros D; vm_compute in D; discriminate D.
  - intros D; vm_compute in D; discriminate D.
  - vm_compute. lia.
  - split.
    + apply V1; [vm_compute; reflexivity|right; eexists; reflexivity].
    + apply V2; [vm_compute; reflexivity|right; eexists; reflexivity].
Defined.
(** ** What the fan-out hands over *)

Lemma value_calls_app d1 d2 : value_calls (d1 ++ d2) = value_calls d1 ++ value_calls d2.
Proof. apply omap_app. Qed.

Lemma value_calls_sink w e : value_calls [sink w e] = [].
Proof. unfold sink. destruct (errorHandler (this w)); reflexivity. Qed.

Lemma value_calls_callbacks w v cbs :
  value_calls (callback_trace w v cbs) = map (fun cb => (cb, v)) cbs.
Proof.
  induction cbs as [|cb cbs IH]; [done|]. unfold callback_trace in *. cbn [flat_map map].
  rewrite value_calls_app, IH.
  destruct (behaviour w cb (mem w) _); [|done].
  cbn [app]. change (value_calls (Called cb [AVal v] :: [sink w e]))
    with ((cb, v) :: value_calls [sink w e]).
  rewrite value_calls_sink. reflexivity.
Qed.

(** One listener is handed a copy of the state, made for it. *)
Lemma notify_one_args w l t :
  handler_safe w -> JSON_view (mem w) (state (this w)) = Some t ->
  plain w (state (this w)) ->
  exists w' d c,
    try_catch (let* s := getState in call l [AVal s]) handleError w = (Ok tt, w') /\
    steps_to w w' d /\ value_calls d = [(l, c)] /\
    JSON_view (mem w') c = Some t /\
    (forall l0, c = VRef l0 -> length (mem w) <= l0).
Proof.
  intros Hs Hv Hp. pose proof (copy_ok_view _ _ _ Hv) as Hc.
  destruct (copy_spec _ _ Hc) as (k & c & Ec & Hl & Vc & _).
  pose proof (steps_to_alloc w k) as S1.
  pose proof (handler_safe_steps _ _ _ S1 Hs) as Hs1.
  assert (Hp' : deepStateComparison (this w) = true \/ exists l, state (this w) = VRef l)
    by exact Hp.
  unfold try_catch, getState, bind at 1 2. unfold read at 1, gets. rewrite Ec.
  unfold call.
  match goal with |- context [behaviour ?a ?b ?c ?d] =>
    destruct (behaviour a b c d) as [e|] eqn:Eb end.
  - rewrite handleError_safe by exact Hs1. simpl.
    eexists _, ([Called l [AVal c]] ++ [_]), c. split; [reflexivity|].
    split; [|split; [|split]].
    + unfold steps_to. simpl. rewrite <- app_assoc. repeat split; try done.
      by apply prefix_app_r.
    + unfold sink. simpl. destruct (errorHandler (this w)); done.
    + simpl. by apply Vc.
    + intros l0 E. apply (Hl l0 E).
  - eexists _, [Called l [AVal c]], c. split; [reflexivity|].
    split; [|split; [done|split]].
    + unfold steps_to. simpl. repeat split; try done. by apply prefix_app_r.
    + simpl. by apply Vc.
    + intros l0 E. apply (Hl l0 E).
Qed.

Lemma notify_plain_args ls t : forall w,
  handler_safe w -> JSON_view (mem w) (state (this w)) = Some t ->
  plain w (state (this w)) ->
  exists w' d cs,
    for_each ls (fun listener =>
      try_catch (let* s := getState in call listener [AVal s]) handleError) w
      = (Ok tt, w') /\
    steps_to w w' d /\ value_calls d = zip ls cs /\ length cs = length ls /\
    Forall (fun c => JSON_view (mem w') c = Some t /\
                     forall l0, c = VRef l0 -> length (mem w) <= l0) cs.
Proof.
  induction ls as [|l ls IH]; intros w Hs Hv Hp; simpl.
  - exists w, [], []. repeat split; try done. apply steps_to_refl.
  - destruct (notify_one_args w l t Hs Hv Hp) as (w1 & d1 & c & E1 & S1 & N1 & V1 & F1).
    pose proof S1 as (T1 & _ & P1 & _).
    destruct (IH w1) as (w2 & d2 & cs & E2 & S2 & N2 & L2 & F2).
    { eapply handler_safe_steps; eauto. }
    { rewrite T1. eapply JSON_view_prefix; eauto. }
    { unfold plain. rewrite T1. exact Hp. }
    pose proof S2 as (_ & _ & P2 & _).
    exists w2, (d1 ++ d2), (c :: cs). rewrite (bind_ok _ _ _ _ _ E1).
    split; [exact E2|]. split; [eapply steps_to_trans; eauto|].
    split; [rewrite value_calls_app, N1, N2; reflexivity|].
    split; [simpl; congruence|]. constructor.
    + split; [eapply JSON_view_prefix; eauto|exact F1].
    + eapply Forall_impl; [exact F2|]. intros c' [A B]. split; [exact A|].
      intros l0 E. specialize (B l0 E). apply prefix_length in P1. lia.
Qed.

Lemma notify_event_args name cbs : forall w,
  handler_safe w -> state (this w) <> VUndef -> state (this w) <> VNull ->
  for_each cbs (fun callback =>
    try_catch
      (let* s' := read state in
       let* v' := get_prop s' name in
       call callback [AVal v'])
      handleError) w
    = (Ok tt, set_trace (trace w ++
                         callback_trace w (peek (mem w) (state (this w)) name) cbs) w).
Proof.
  induction cbs as [|cb cbs IH]; intros w Hs Hu Hn; cbn [for_each].
  - unfold callback_trace. simpl. rewrite set_trace_nil. done.
  - set (v := peek (mem w) (state (this w)) name).
    set (d1 := Called cb [AVal v] ::
                 match behaviour w cb (mem w) [AVal v] with
                 | Some e => [sink w e] | None => [] end).
    assert (E1 : try_catch
        (let* s' := read state in
         let* v' := get_prop s' name in
         call cb [AVal v']) handleError w = (Ok tt, set_trace (trace w ++ d1) w)).
    { unfold try_catch, bind at 1 2. unfold read, gets. rewrite get_prop_spec.
      destruct (state (this w)) eqn:Es; try done;
        (unfold call; fold v; unfold d1;
         destruct (behaviour w cb (mem w) [AVal v]) as [e|];
         [ rewrite handleError_safe by exact Hs; simpl; rewrite <- app_assoc; reflexivity
         | reflexivity ]). }
    rewrite (bind_ok _ _ _ _ _ E1).
    etrans; [apply IH; assumption|].
    unfold set_trace, callback_trace, sink. simpl. fold v. unfold d1.
    rewrite <- app_assoc. reflexivity.
Qed.

Lemma notify_events_args names : forall w,
  handler_safe w -> state (this w) <> VUndef -> state (this w) <> VNull ->
  for_each names (fun eventName =>
    let* s := read state in
    let* v := get_prop s eventName in
    match v with
    | VUndef => ret tt
    | _ =>
        let* cbs := read (fun i => default [] (ev_get (eventListeners i) eventName)) in
        for_each cbs (fun callback =>
          try_catch
            (let* s' := read state in
             let* v' := get_prop s' eventName in
             call callback [AVal v'])
            handleError)
    end) w
    = (Ok tt,
       set_trace
         (trace w ++
          flat_map (fun name =>
            match peek (mem w) (state (this w)) name with
            | VUndef => []
            | v => callback_trace w v (default [] (ev_get (eventListeners (this w)) name))
            end) names) w).
Proof.
  induction names as [|name names IH]; intros w Hs Hu Hn; cbn [for_each flat_map].
  - rewrite set_trace_nil. done.
  - set (v := peek (mem w) (state (this w)) name).
    set (d1 := match peek (mem w) (state (this w)) name with
               | VUndef => []
               | v' => callback_trace w v' (default [] (ev_get (eventListeners (this w)) name))
               end).
    assert (E1 :
      (let* s := read state in
       let* v := get_prop s name in
       match v with
       | VUndef => ret tt
       | _ =>
           let* cbs := read (fun i => default [] (ev_get (eventListeners i) name)) in
           for_each cbs (fun callback =>
             try_catch
               (let* s' := read state in
                let* v' := get_prop s' name in
                call callback [AVal v'])
               handleError)
       end) w = (Ok tt, set_trace (trace w ++ d1) w)).
    { pose proof (notify_event_args name
                    (default [] (ev_get (eventListeners (this w)) name)) w Hs Hu Hn) as E.
      unfold bind at 1 2. unfold read at 1, gets. rewrite get_prop_spec.
      assert (G : (Ok (A := val) v, w) =
                  match state (this w) with
                  | VUndef | VNull => (Throw (TypeError "Cannot read properties"), w)
                  | _ => (Ok (peek (mem w) (state (this w)) name), w)
                  end) by (destruct (state (this w)); done).
      rewrite <- G. unfold d1, v in *.
      destruct (peek (mem w) (state (this w)) name);
        [unfold ret; rewrite set_trace_nil; reflexivity|exact E..]. }
    rewrite (bind_ok _ _ _ _ _ E1).
    etrans; [apply IH; assumption|].
    unfold set_trace.
    cbn [this mem trace behaviour now timers timer_seq localStorage].
    rewrite <- app_assoc. reflexivity.
Qed.

Lemma peek_prefix h h' l name :
  h `prefix_of` h' -> l < length h -> peek h' (VRef l) name = peek h (VRef l) name.
Proof.
  intros [k ->] L. simpl. rewrite lookup_app_l by exact L. reflexivity.
Qed.

(** X27: with an error handler that returns (or none) and a state that is
    an object and JSON data, [notifyListeners] returns; every listener is
    handed a copy of the state made for this call, which reads as the state
    and is a new object; then, for each registered event name that is a key
    of the state with a value other than undefined (null, 0, false and the
    empty string count), every callback of the name is handed that value, as
    it is. *)
Theorem notifyListeners_hands_over w t :
  handler_safe w -> is_state (mem w) (state (this w)) t ->
  exists w' d cs,
    notifyListeners w = (Ok tt, w') /\ this w' = this w /\ trace w' = trace w ++ d /\
    length cs = length (listeners (this w)) /\
    Forall (fun c => JSON_view (mem w') c = Some t /\
                     forall l0, c = VRef l0 -> length (mem w) <= l0) cs /\
    value_calls d =
      zip (listeners (this w)) cs ++
      flat_map (fun name =>
        match peek (mem w) (state (this w)) name with
        | VUndef => []
        | v => map (fun cb => (cb, v))
                 (default [] (ev_get (eventListeners (this w)) name))
        end) (map fst (eventListeners (this w))).
Proof.
  intros Hs [[l El] Hv].
  assert (Hp : plain w (state (this w))) by (right; eauto).
  destruct (notify_plain_args (listeners (this w)) t w Hs Hv Hp)
    as (w1 & d1 & cs & E1 & S1 & N1 & L1 & F1).
  pose proof (handler_safe_steps _ _ _ S1 Hs) as Hs1.
  destruct S1 as (T1 & B1 & P1 & Tr1 & _).
  assert (Hu1 : state (this w1) <> VUndef) by (rewrite T1, El; discriminate).
  assert (Hn1 : state (this w1) <> VNull) by (rewrite T1, El; discriminate).
  pose proof (notify_events_args (map fst (eventListeners (this w1))) w1 Hs1 Hu1 Hn1) as E2.
  pose proof (JSON_view_allocated _ _ _ (eq_ind _ (fun s => JSON_view (mem w) s = Some t)
                                           Hv _ El)) as Ll.
  match type of E2 with _ = (_, set_trace (_ ++ ?x) _) => set (d2 := x) in * end.
  exists (set_trace (trace w1 ++ d2) w1), (d1 ++ d2), cs.
  split; [|split; [|split; [|split; [exact L1|split; [exact F1|]]]]].
  - unfold notifyListeners.
    unfold bind at 1. unfold bind at 1. unfold read at 1, gets. rewrite E1.
    unfold bind at 1. unfold read at 1, gets. exact E2.
  - exact T1.
  - simpl. rewrite Tr1, <- app_assoc. reflexivity.
  - rewrite value_calls_app, N1. f_equal. unfold d2. rewrite T1, El.
    generalize (map fst (eventListeners (this w))) as names.
    induction names as [|name names IH]; [reflexivity|]. cbn [flat_map].
    rewrite value_calls_app, IH. f_equal.
    rewrite (peek_prefix _ _ _ _ P1 Ll).
    destruct (peek (mem w) (VRef l) name); [reflexivity|apply value_calls_callbacks..].
Qed.

Lemma notifyListeners_witness :
  exists w' d c,
    notifyListeners observed_store = (Ok tt, w') /\
    trace w' = trace observed_store ++ d /\
    value_calls d = [(7, c); (4, VNum 0)] /\
    JSON_view (mem w') c = Some (JObj [("count", JNum 0)]).
Proof.
  destruct (notifyListeners_hands_over observed_store (JObj [("count", JNum 0)]))
    as (w' & d & cs & E & _ & Tr & L & F & V).
  - intros h H; vm_compute in H; discriminate H.
  - split; [eexists; reflexivity|vm_compute; reflexivity].
  - destruct cs as [|c [|c' cs]]; try discriminate L.
    exists w', d, c. split; [exact E|]. split; [exact Tr|]. split; [exact V|].
    inversion F as [|? ? [A _] _]. exact A.
Defined.
(** ** Batches that are opened again *)

Lemma exec_assoc (m1 m2 k : M world unit) w u :
  (m1 >> m2) w = (Ok tt, u) -> exec (m1 >> m2 >> k) w = exec k u.
Proof.
  unfold exec, bind. destruct (m1 w) as [[[]|e] w1]; [|discriminate].
  destruct (m2 w1) as [[[]|e] w2]; intros [= <-]; reflexivity.
Qed.

Lemma open_batch_returns ps w :
  (startBatchUpdate >> for_each ps queueBatchUpdate) w =
    (Ok tt, set_this (set_batchUpdateQueue ps (set_batchUpdatePending true (this w))) w).
Proof.
  unfold bind at 1. unfold startBatchUpdate, bind, upd, modify. simpl.
  rewrite (queueBatchUpdate_pending ps) by reflexivity. reflexivity.
Qed.

(** X28: [startBatchUpdate] empties the queue: the partials queued in a
    batch that is opened again before it was closed are lost, and the flush
    commits the later ones only.  A flush with nothing queued closes the
    batch and does nothing else. *)
Theorem startBatchUpdate_discards_queue w ps1 ps2 :
  exec (startBatchUpdate >> for_each ps1 queueBatchUpdate >>
        startBatchUpdate >> for_each ps2 queueBatchUpdate) w
    = exec (startBatchUpdate >> for_each ps2 queueBatchUpdate) w /\
  batchUpdateQueue
    (this (exec (startBatchUpdate >> for_each ps1 queueBatchUpdate >>
                 startBatchUpdate >> for_each ps2 queueBatchUpdate) w)) = ps2 /\
  (batchUpdateQueue (this w) = [] ->
   endBatchUpdate w = (Ok tt, set_this (set_batchUpdatePending false (this w)) w)).
Proof.
  assert (E : exec (startBatchUpdate >> for_each ps1 queueBatchUpdate >>
                    startBatchUpdate >> for_each ps2 queueBatchUpdate) w
              = exec (startBatchUpdate >> for_each ps2 queueBatchUpdate) w).
  { rewrite (exec_assoc _ _ _ _ _ (open_batch_returns ps1 w)), !open_batch. reflexivity. }
  split; [exact E|]. split.
  - rewrite E, open_batch. reflexivity.
  - intros Q. unfold endBatchUpdate, bind, upd, read, gets, modify. simpl. rewrite Q.
    reflexivity.
Qed.

(** ** Registering middleware *)

(** X29: [applyMiddleware] registers the middleware at the end of the list,
    enabled: the count grows by one, and a commit then calls the middleware
    that were enabled before, in order, and the new one last.  After
    [removeAllMiddlewares] a commit calls none. *)
Theorem applyMiddleware_registers_last w m selective_option next add :
  handler_safe w -> copy_ok w (state (this w)) -> copy_ok w next ->
  let w1 := exec (applyMiddleware m selective_option) w in
  let w0 := exec removeAllMiddlewares w in
  (forall n, (getMiddlewareCount w).1 = Ok n -> (getMiddlewareCount w1).1 = Ok (S n)) /\
  (exists w' d,
     applyStateUpdate next add w1 = (Ok tt, w') /\ trace w' = trace w ++ d /\
     middleware_calls d = enabledMiddlewares w ++ [m]) /\
  (exists w' d,
     applyStateUpdate next add w0 = (Ok tt, w') /\ trace w' = trace w ++ d /\
     middleware_calls d = []) /\
  (getMiddlewareCount w0).1 = Ok 0.
Proof.
  intros Hs Hc Hn w1 w0. split; [|split; [|split]].
  - intros n [= <-]. unfold getMiddlewareCount, read, gets. simpl.
    unfold push. rewrite length_app. simpl. f_equal. lia.
  - assert (Hs1 : handler_safe w1) by exact Hs.
    assert (Hc1 : copy_ok w1 (state (this w1))) by exact Hc.
    assert (Hn1 : copy_ok w1 next) by exact Hn.
    destruct (applyStateUpdate_safe next add w1 Hs1 Hc1 Hn1)
      as (w' & c & p & d & E & _ & _ & _ & _ & _ & _ & Tr & _ & M & _).
    exists w', (middleware_trace w1 (prevState (this w1)) next (enabledMiddlewares w1) ++ d).
    split; [exact E|]. split; [exact Tr|].
    rewrite middleware_calls_app, middleware_trace_calls, M, app_nil_r.
    unfold enabledMiddlewares. simpl. unfold push.
    rewrite List.filter_app, map_app. reflexivity.
  - assert (Hs0 : handler_safe w0) by exact Hs.
    assert (Hc0 : copy_ok w0 (state (this w0))) by exact Hc.
    assert (Hn0 : copy_ok w0 next) by exact Hn.
    destruct (applyStateUpdate_safe next add w0 Hs0 Hc0 Hn0)
      as (w' & c & p & d & E & _ & _ & _ & _ & _ & _ & Tr & _ & M & _).
    exists w', (middleware_trace w0 (prevState (this w0)) next (enabledMiddlewares w0) ++ d).
    split; [exact E|]. split; [exact Tr|].
    rewrite middleware_calls_app, middleware_trace_calls, M, app_nil_r. reflexivity.
  - reflexivity.
Qed.

Lemma applyMiddleware_witness :
  exists w' d,
    applyStateUpdate (VRef 3) true (exec (applyMiddleware 8 false) guarded_store)
      = (Ok tt, w') /\
    trace w' = trace guarded_store ++ d /\ middleware_calls d = [1; 2; 8].
Proof.
  destruct (applyMiddleware_registers_last guarded_store 8 false (VRef 3) true)
    as (_ & (w' & d & E & T & M) & _).
  - intros h [= <-] m e. reflexivity.
  - intros D; vm_compute in D; discriminate D.
  - intros D; vm_compute in D; discriminate D.
  - exists w', d. auto.
Defined.
